(** * Security rules collector: discovery, hashing and sync engine

    A shallow embedding of the rule-collection engine
    ([core/collector.py], [core/file_operations.py], [core/cache_manager.py],
    [core/docker_operations.py], [utils/file_utils.py], [config/settings.py],
    [config/device_config.py], [main.py])
    together with the properties of its search, cache, hashing and copy
    phases.

    Conventions of the embedding.
    - Python [str] is [string]; paths and file names are sequences of
      code points below 256 (the literals of the source are kept as they
      are written there).
    - The platform is POSIX: [os.sep] is ["/"], [os.path] is [posixpath].
    - Queries to the operating system ([glob.glob], [os.path.exists],
      [os.path.isfile], [os.walk], [subprocess.run], ...) are answered by an
      environment record [Env]; every theorem quantifies over it.
    - Mutable storage (the regular files with their contents, the
      directories, the two persisted JSON files) is the record [World],
      threaded explicitly through the phases that write.  A path is the
      string the program spells: spellings are not normalised (a trailing
      or doubled separator, [.] and [..] make another name); links,
      permissions and special files are not modelled, and the two JSON
      files are kept apart from the stored files.
    - Probes, extraction attempts, the calls of [shutil.copy2],
      [os.replace] and [os.remove] in the copy phase, and the warnings and
      errors printed by discovery, extraction, hashing, copying and cache
      writing are recorded as [event]s, in program order.
      Informational output, what [main.py] itself prints, and the error
      text of a cache file that cannot be read, are not.
    - An exception that no handler catches ends the run.  Where
      [os.makedirs] can raise one, at the start of a run and in the copy
      phase, the functions on its way give [None].  In the extraction and
      in [clear_cache] the temporary directory is taken to be removable and
      creatable ([shutil.rmtree], [os.makedirs], [os.remove] there are
      taken to succeed): a run in which it is not is outside the model. *)

From stdpp Require Import gmap strings list.
From Stdlib Require Import Ascii ZArith Lia.

Local Open Scope Z_scope.
Set Warnings "-register-all,-clear-no-such-hyp".

(** ** Python string operations *)

Definition ascii_is_upper (c : ascii) : bool :=
  let n := Ascii.nat_of_ascii c in
  ((65 <=? n) && (n <=? 90) || (192 <=? n) && (n <=? 214)
   || (216 <=? n) && (n <=? 222))%nat.

Definition ascii_lower (c : ascii) : ascii :=
  if ascii_is_upper c
  then Ascii.ascii_of_nat (Ascii.nat_of_ascii c + 32)
  else c.

(** [s.lower()] *)
Fixpoint str_lower (s : string) : string :=
  match s with
  | EmptyString => EmptyString
  | String c r => String (ascii_lower c) (str_lower r)
  end.

Fixpoint str_drop (n : nat) (s : string) : string :=
  match n, s with
  | O, _ => s
  | S _, EmptyString => EmptyString
  | S k, String _ r => str_drop k r
  end.

(** [s[i:]] for an integer [i], negative indices counting from the end. *)
Definition str_slice_from (s : string) (i : Z) : string :=
  let n := Z.of_nat (String.length s) in
  let start := if i <? 0 then Z.max (n + i) 0 else Z.min i n in
  str_drop (Z.to_nat start) s.

(** [s.startswith(p)] *)
Definition str_startswith (s p : string) : bool := String.prefix p s.

(** [s.endswith(suffix)] *)
Definition str_endswith (s suffix : string) : bool :=
  let n := String.length s in
  let m := String.length suffix in
  (m <=? n)%nat && String.eqb (str_drop (n - m) s) suffix.

Fixpoint str_find_from (s sub : string) (i : Z) : Z :=
  if String.prefix sub s then i
  else match s with
       | EmptyString => -1
       | String _ r => str_find_from r sub (i + 1)
       end.

(** [s.find(sub)]: lowest index of [sub] in [s], [-1] when absent. *)
Definition str_find (s sub : string) : Z := str_find_from s sub 0.

(** [s.replace(old, new)] for a one-character [old]. *)
Fixpoint str_replace_char (old : ascii) (new : string) (s : string) : string :=
  match s with
  | EmptyString => EmptyString
  | String c r =>
      if Ascii.eqb c old then new +:+ str_replace_char old new r
      else String c (str_replace_char old new r)
  end.

(** [s.lstrip(c)] for a one-character set. *)
Fixpoint str_lstrip_char (c : ascii) (s : string) : string :=
  match s with
  | EmptyString => EmptyString
  | String d r => if Ascii.eqb d c then str_lstrip_char c r else s
  end.

Definition str_nonempty (s : string) : bool :=
  match s with EmptyString => false | String _ _ => true end.

Definition ascii_is_space (c : ascii) : bool :=
  let n := Ascii.nat_of_ascii c in
  ((9 <=? n) && (n <=? 13) || (28 <=? n) && (n <=? 32)
   || (n =? 133) || (n =? 160))%nat.

Fixpoint str_lstrip (s : string) : string :=
  match s with
  | EmptyString => EmptyString
  | String c r => if ascii_is_space c then str_lstrip r else s
  end.

Fixpoint str_rstrip (s : string) : string :=
  match s with
  | EmptyString => EmptyString
  | String c r =>
      match str_rstrip r with
      | EmptyString => if ascii_is_space c then EmptyString
                       else String c EmptyString
      | r' => String c r'
      end
  end.

(** [s.strip()] *)
Definition str_strip (s : string) : string := str_rstrip (str_lstrip s).

Definition ascii_is_linebreak (c : ascii) : bool :=
  let n := Ascii.nat_of_ascii c in
  ((10 <=? n) && (n <=? 13) || (28 <=? n) && (n <=? 30) || (n =? 133))%nat.

(** [s.splitlines()[0]] for a non-empty [s]. *)
Fixpoint str_first_line (s : string) : string :=
  match s with
  | EmptyString => EmptyString
  | String c r =>
      if ascii_is_linebreak c then EmptyString
      else String c (str_first_line r)
  end.

(** [s[:n]] for a natural [n]. *)
Fixpoint str_take (n : nat) (s : string) : string :=
  match n, s with
  | O, _ => EmptyString
  | S _, EmptyString => EmptyString
  | S k, String c r => String c (str_take k r)
  end.

(** ** [posixpath] *)

Definition os_sep : ascii := "/"%char.

Fixpoint str_has_sep (s : string) : bool :=
  match s with
  | EmptyString => false
  | String c r => Ascii.eqb c os_sep || str_has_sep r
  end.

(** [os.path.basename(p)]: what follows the last separator. *)
Fixpoint basename (p : string) : string :=
  match p with
  | EmptyString => EmptyString
  | String c r =>
      if Ascii.eqb c os_sep || str_has_sep r then basename r else p
  end.

Fixpoint str_rstrip_char (c : ascii) (s : string) : string :=
  match s with
  | EmptyString => EmptyString
  | String d r =>
      match str_rstrip_char c r with
      | EmptyString => if Ascii.eqb d c then EmptyString
                       else String d EmptyString
      | r' => String d r'
      end
  end.

(** [os.path.dirname(p)]: what precedes the base name, without trailing
    separators unless it consists of separators only. *)
Definition dirname (p : string) : string :=
  let head := str_take (String.length p - String.length (basename p)) p in
  match str_rstrip_char os_sep head with
  | EmptyString => head
  | stripped => stripped
  end.

(** [os.path.join(a, b)] *)
Definition path_join (a b : string) : string :=
  if str_startswith b "/" then b
  else if negb (str_nonempty a) || str_endswith a "/" then a +:+ b
  else a +:+ "/" +:+ b.

(** ** Data model ([models/data_models.py], [config/data_models.py]) *)

Module FileTarget.
Record t := mk {
  src : string;
  device : string;
  dest_rel : string;
  cached : bool;
  from_docker : bool
}.
End FileTarget.

(** One entry of the path cache: the dict [{"path": ..., "dest_rel": ...}]. *)
Module PathInfo.
Record t := mk { path : string; dest_rel : string }.
End PathInfo.

Inductive device_type := Local | Docker.

Module DeviceConfig.
Record t := mk {
  name : string;
  type : device_type;
  relative_path : list string;
  file_type : string;
  container : string;
  path : string
}.

(** [DeviceConfig._validate] *)
Definition valid (c : t) : bool :=
  match type c with
  | Docker => str_nonempty (container c) && str_nonempty (path c)
  | Local => match relative_path c with [] => false | _ => true end
  end.
End DeviceConfig.

(** A directory listing, as [os.walk] sees it. *)
Inductive entry :=
| EFile (name : string) (content : string)
| EDir (name : string) (children : list entry).

(** ** Events *)

Inductive message :=
| MsgHashFailed (file_path : string)
| MsgGlobFailed (full_pattern : string)
| MsgCopyFailed (source destination : string)
| MsgNoRelativePath (item : string)
| MsgAnchorMissing (item : string)
| MsgCachePathStale (path : string)
| MsgNoValidCache
| MsgNotInCommonPaths (device : string)
| MsgNoFilesFound
| MsgSaveHashFailed
| MsgSavePathCacheFailed
| MsgContainerNotFound (container : string)
| MsgContainerNotRunning (resolved : string)
| MsgContainerPathMissing (source_path : string)
| MsgDockerCommandFailed (error : string)
| MsgDockerCpFailed (stderr : string)
| MsgDockerCpEmpty
| MsgTarFailed
| MsgMethodFailed (method : string)
| MsgAllMethodsFailed (last_error : string)
| MsgDestinationEmpty (destination : string).

Inductive syscall :=
| SysCopy2 (source target : string)
| SysReplace (source target : string)
| SysRemove (target : string).

Inductive event :=
| Warning (m : message)
| Error (m : message)
| Probe (patterns base_paths : list string)
| Attempt (method : string)
| Sys (call : syscall) (returned : bool).

(** ** The environment *)

(** How a streamed [tar] extraction ends
    ([DockerOperations.extract_directory_using_tar]). *)
Inductive tar_outcome :=
| TarReadError
| TarTimeout
| TarException
| TarExit (returncode : Z).

Record Env := {
  (** [os.path.expanduser("~")] *)
  home : string;
  (** [glob.glob(pattern, recursive=True)]; [None] when it raises *)
  glob : string -> option (list string);
  (** [os.path.exists], [os.path.isfile], [os.path.isdir] during discovery *)
  path_exists : string -> bool;
  isfile : string -> bool;
  isdir : string -> bool;
  (** [os.path.abspath], [os.path.relpath] *)
  abspath : string -> string;
  relpath : string -> string -> string;
  (** the tree below a directory, as [os.walk] lists it; [None] when the
      path cannot be listed *)
  listing : string -> option (list entry);
  (** [hashlib.md5(content).hexdigest()] *)
  md5_hexdigest : string -> string;
  (** [subprocess.run(command, ...)]: return code, stdout and stderr, or
      the text of the exception it raises *)
  subprocess_run : list string -> (Z * string * string) + string;
  (** what [docker cp container:source/. destination] leaves in the
      destination directory, given what was there *)
  docker_cp_tree : string -> string -> list entry -> list entry;
  (** how streaming [tar czf -] out of the container ends, and what the
      unpacking leaves in the destination directory *)
  docker_tar : string -> string -> list entry -> tar_outcome * list entry
}.

(** ** Mutable storage *)

(** What the operating system does to the next fallible write. *)
Inductive fault :=
| NoFault
| FailClean
| FailTorn (junk : string).

Record World := {
  (** readable regular files, by path *)
  files : gmap string string;
  (** the directories that exist, the root apart *)
  dirs : gset string;
  (** [collected_rules/file_hashes.json]; [None] when missing or unparsable *)
  hash_record_file : option (gmap string string);
  (** [collected_rules/path_cache.json], likewise *)
  path_cache_file : option (gmap string (list PathInfo.t));
  (** the faults still to come, one per fallible write *)
  faults : list fault;
  (** the events so far, oldest first *)
  journal : list event
}.

Definition M (A : Type) : Type := World -> A * World.

Definition ret {A} (a : A) : M A := fun w => (a, w).

Definition bind {A B} (m : M A) (k : A -> M B) : M B :=
  fun w => let '(a, w') := m w in k a w'.

Notation "x <- c1 ;; c2" := (bind c1 (fun x => c2))
  (at level 100, c1 at next level, right associativity).
Notation "c1 ;;; c2" := (bind c1 (fun _ => c2))
  (at level 100, right associativity).

Definition tell (evs : list event) : M unit :=
  fun w => (tt, {| files := files w;
                   dirs := dirs w;
                   hash_record_file := hash_record_file w;
                   path_cache_file := path_cache_file w;
                   faults := faults w;
                   journal := journal w ++ evs |}).

(** Run a computation that only logs. *)
Definition logged {A} (r : A * list event) : M A :=
  tell r.2 ;;; ret r.1.

Definition get_files : M (gmap string string) := fun w => (files w, w).

Definition set_files (fs : gmap string string) : M unit :=
  fun w => (tt, {| files := fs;
                   dirs := dirs w;
                   hash_record_file := hash_record_file w;
                   path_cache_file := path_cache_file w;
                   faults := faults w;
                   journal := journal w |}).

Definition get_dirs : M (gset string) := fun w => (dirs w, w).

Definition set_dirs (ds : gset string) : M unit :=
  fun w => (tt, {| files := files w;
                   dirs := ds;
                   hash_record_file := hash_record_file w;
                   path_cache_file := path_cache_file w;
                   faults := faults w;
                   journal := journal w |}).

Definition next_fault : M fault :=
  fun w => match faults w with
           | [] => (NoFault, w)
           | f :: rest =>
               (f, {| files := files w;
                      dirs := dirs w;
                      hash_record_file := hash_record_file w;
                      path_cache_file := path_cache_file w;
                      faults := rest;
                      journal := journal w |})
           end.

(** ** Paths in the store *)

Fixpoint str_forall (f : ascii -> bool) (s : string) : bool :=
  match s with
  | EmptyString => true
  | String c r => f c && str_forall f r
  end.

(** The root directory, however many separators spell it. *)
Definition is_root (p : string) : bool :=
  str_nonempty p && str_forall (fun c => Ascii.eqb c os_sep) p.

(** [os.path.isdir(p)] on the store. *)
Definition is_directory (ds : gset string) (p : string) : bool :=
  is_root p || bool_decide (p ∈ ds).

(** Whether the directory that would hold [p] exists; the empty directory
    name stands for the current directory. *)
Definition parent_exists (ds : gset string) (p : string) : bool :=
  negb (str_nonempty (dirname p)) || is_directory ds (dirname p).

(** The non-empty prefixes of [rest], counted from [done], that a
    separator follows. *)
Fixpoint prefixes_before_sep (done rest : string) : list string :=
  match rest with
  | EmptyString => []
  | String c r =>
      (if Ascii.eqb c os_sep && str_nonempty done then [done] else [])
      ++ prefixes_before_sep (done +:+ String c EmptyString) r
  end.

(** The directories on the way to [p], then [p] itself: what
    [os.makedirs(p)] ensures. *)
Definition ancestors (p : string) : list string :=
  prefixes_before_sep "" p ++ (if str_nonempty p then [p] else []).

(** Whether a path lies below a directory. *)
Definition below (directory p : string) : bool :=
  str_startswith p (directory +:+ "/").

(** Where [p] is after the directory [source] has been renamed to
    [target]. *)
Definition move_path (source target p : string) : string :=
  if String.eqb p source then target
  else if below source p then target +:+ str_drop (String.length source) p
  else p.

(** Whether a directory holds nothing. *)
Definition directory_empty (fs : gmap string string) (ds : gset string)
    (directory : string) : bool :=
  forallb (fun kv : string * string => negb (below directory kv.1))
          (map_to_list fs)
  && forallb (fun d => negb (below directory d)) (elements ds).

(** ** System calls of the copy phase *)

(** Each call gives [true] when it returns and [false] when it raises, and
    records itself with that outcome. *)
Definition returned (call : syscall) (ok : bool) : M bool :=
  tell [Sys call ok] ;;; ret ok.

(** [os.makedirs(path, exist_ok=True)]: [true] when it returns, [false]
    when it raises, which it does on the empty path, when a regular file is
    on the way, and when the operating system refuses (what a refused call
    has created by then is not recorded). *)
Definition os_makedirs (path : string) : M bool :=
  f <- next_fault ;;
  fs <- get_files ;;
  ds <- get_dirs ;;
  match f with
  | NoFault =>
      if negb (str_nonempty path)
         || existsb (fun a => bool_decide (is_Some (fs !! a))) (ancestors path)
      then ret false
      else set_dirs (ds ∪ list_to_set (ancestors path)) ;;; ret true
  | FailClean | FailTorn _ => ret false
  end.

(** [shutil.copy2(source, target)]: a target that is a directory stands
    for the file of the source's name inside it.  The call raises when
    source and destination are the same file, when the destination is a
    directory or has no directory to be in, and when the source is no
    readable regular file; on a fault the destination is left out or holds
    whatever was written so far. *)
Definition shutil_copy2 (source target : string) : M bool :=
  f <- next_fault ;;
  fs <- get_files ;;
  ds <- get_dirs ;;
  let destination :=
    if is_directory ds target then path_join target (basename source)
    else target in
  if bool_decide (source = destination)
     || is_directory ds destination
     || negb (parent_exists ds destination)
  then returned (SysCopy2 source target) false
  else match fs !! source with
       | None => returned (SysCopy2 source target) false
       | Some content =>
           match f with
           | NoFault =>
               set_files (<[destination := content]> fs) ;;;
               returned (SysCopy2 source target) true
           | FailClean => returned (SysCopy2 source target) false
           | FailTorn junk =>
               set_files (<[destination := junk]> fs) ;;;
               returned (SysCopy2 source target) false
           end
       end.

(** [os.replace(source, target)]: the rename happens whole or not at all.
    A regular file replaces a regular file or takes a free name, and is
    refused by a directory; a directory moves with all it holds to a free
    name or over an empty directory, and is refused by a regular file, by a
    directory that holds something and by a place inside itself. *)
Definition os_replace (source target : string) : M bool :=
  f <- next_fault ;;
  fs <- get_files ;;
  ds <- get_dirs ;;
  match f with
  | NoFault =>
      if bool_decide (source ∈ ds) then
        if bool_decide (is_Some (fs !! target))
           || below source target
           || is_root target
           || (bool_decide (target ∈ ds)
               && negb (String.eqb source target)
               && negb (directory_empty fs ds target))
           || negb (parent_exists ds target)
        then returned (SysReplace source target) false
        else
          set_files (kmap (move_path source target) fs) ;;;
          set_dirs (set_map (move_path source target) ds) ;;;
          returned (SysReplace source target) true
      else
        match fs !! source with
        | Some content =>
            if is_directory ds target || negb (parent_exists ds target)
            then returned (SysReplace source target) false
            else
              set_files (<[target := content]> (delete source fs)) ;;;
              returned (SysReplace source target) true
        | None => returned (SysReplace source target) false
        end
  | FailClean | FailTorn _ => returned (SysReplace source target) false
  end.

(** [os.path.exists] on the store. *)
Definition os_path_exists (p : string) : M bool :=
  fs <- get_files ;;
  ds <- get_dirs ;;
  ret (bool_decide (is_Some (fs !! p)) || is_directory ds p).

(** [os.remove(target)]: refused by a directory. *)
Definition os_remove (target : string) : M bool :=
  f <- next_fault ;;
  fs <- get_files ;;
  ds <- get_dirs ;;
  match f, fs !! target with
  | NoFault, Some _ =>
      if is_directory ds target
      then returned (SysRemove target) false
      else set_files (delete target fs) ;;; returned (SysRemove target) true
  | _, _ => returned (SysRemove target) false
  end.

(** ** [config/settings.py] *)

Definition OUTPUT_DIR : string := "collected_rules".

Definition DOCKER_TEMP_DIR : string := path_join OUTPUT_DIR "docker_temp".

Definition COMMON_PATHS : list string :=
  ["/etc"; "/opt"; "/usr/local"; "/usr/share"; "/var/lib"; "/var"].

Definition PROGRAM_PATHS : list string :=
  ["/usr/share"; "/usr/local/share"; "/var/lib"; "/opt"].

Definition SCAN_ORDER_PRIORITY (env : Env) : list (string * list string) :=
  [("常见路径", COMMON_PATHS);
   ("用户主目录", [home env]);
   ("程序安装目录", PROGRAM_PATHS)].

(** ** [utils/file_utils.py] *)

Module FileUtils.

(** The loop over [matches] in [search_files]. *)
Fixpoint add_matches (env : Env) (matches found_paths : list string)
  : list string :=
  match matches with
  | [] => found_paths
  | m :: rest =>
      if path_exists env m then
        let abs_path := abspath env m in
        if bool_decide (abs_path ∈ found_paths)
        then add_matches env rest found_paths
        else add_matches env rest (found_paths ++ [abs_path])
      else add_matches env rest found_paths
  end.

(** The loop over [patterns] in [search_files], for one base path. *)
Fixpoint search_patterns (env : Env) (base_path : string)
    (patterns : list string) (acc : list string * list event)
  : list string * list event :=
  match patterns with
  | [] => acc
  | pattern :: rest =>
      let full_pattern :=
        path_join base_path (str_lstrip_char "/" pattern) in
      let '(matches, errs) :=
        match glob env full_pattern with
        | Some ms => (ms, [])
        | None => ([], [Error (MsgGlobFailed full_pattern)])
        end in
      search_patterns env base_path rest
        (add_matches env matches acc.1, acc.2 ++ errs)
  end.

Fixpoint search_bases (env : Env) (patterns base_paths : list string)
    (acc : list string * list event) : list string * list event :=
  match base_paths with
  | [] => acc
  | base_path :: rest =>
      search_bases env patterns rest
        (search_patterns env base_path patterns acc)
  end.

Definition search_files (env : Env) (patterns base_paths : list string)
  : list string * list event :=
  search_bases env patterns base_paths ([], []).

Definition file_names (children : list entry) : list string :=
  flat_map (fun e => match e with
                     | EFile n _ => [n]
                     | EDir _ _ => []
                     end) children.

Fixpoint walk_entry (parent : string) (e : entry)
  : list (string * list string) :=
  match e with
  | EFile _ _ => []
  | EDir n children =>
      let root_dir := path_join parent n in
      (root_dir, file_names children)
        :: flat_map (walk_entry root_dir) children
  end.

(** [os.walk(top)], top-down, without the [dirs] component. *)
Definition walk (top : string) (children : list entry)
  : list (string * list string) :=
  (top, file_names children) :: flat_map (walk_entry top) children.

Definition os_walk (env : Env) (top : string)
  : list (string * list string) :=
  match listing env top with
  | Some children => walk top children
  | None => []
  end.

(** The extension test of [enumerate_directory_files]: [true] when the
    file is kept. *)
Definition extension_ok (file_extension filename : string) : bool :=
  negb (str_nonempty file_extension)
  || str_endswith (str_lower filename) ("." +:+ str_lower file_extension).

Definition enumerate_root (env : Env) (directory_path file_extension : string)
    (root : string * list string) : list (string * string) :=
  let '(root_dir, files) := root in
  let relative_root := relpath env root_dir directory_path in
  flat_map (fun filename =>
    if extension_ok file_extension filename then
      let source_path := path_join root_dir filename in
      let destination_relative :=
        if String.eqb relative_root "." then filename
        else path_join relative_root filename in
      [(abspath env source_path, destination_relative)]
    else []) files.

Definition enumerate_directory_files (env : Env)
    (directory_path file_extension : string) : list (string * string) :=
  if isfile env directory_path then
    let filename := basename directory_path in
    if extension_ok file_extension filename
    then [(abspath env directory_path, filename)]
    else []
  else
    flat_map (enumerate_root env directory_path file_extension)
             (os_walk env directory_path).

(** [calculate_file_hash]: the digest, or [None] with a logged error when
    the file cannot be read. *)
Definition calculate_file_hash (env : Env) (files : gmap string string)
    (file_path : string) : option string * list event :=
  match files !! file_path with
  | Some content => (Some (md5_hexdigest env content), [])
  | None => (None, [Error (MsgHashFailed file_path)])
  end.

(** [ensure_directory_exists]: [false] when [os.makedirs] raises. *)
Definition ensure_directory_exists (directory_path : string) : M bool :=
  os_makedirs directory_path.

(** [safe_copy] *)
Definition safe_copy (source destination : string) : M bool :=
  let temp_path := destination +:+ ".tmp" in
  copied <- shutil_copy2 source temp_path ;;
  replaced <- (if copied then os_replace temp_path destination
               else ret false) ;;
  if replaced then ret true
  else
    tell [Error (MsgCopyFailed source destination)] ;;;
    present <- os_path_exists temp_path ;;
    (if present then os_remove temp_path else ret false) ;;;
    ret false.

End FileUtils.

(** ** [core/file_operations.py] *)

Module FileOperations.

Definition ANCHOR_PATTERN : string := "policy".

Definition search_rule_files (env : Env) (patterns base_paths : list string)
  : list string * list event :=
  let '(found_paths, errs) := FileUtils.search_files env patterns base_paths in
  (found_paths, Probe patterns base_paths :: errs).

(** The [files] list that one found item gives in [process_found_items];
    [None] stands for the [continue] of the last branch. *)
Definition item_files (env : Env) (item file_extension : string)
  : option (list (string * string)) * list event :=
  if isfile env item
     && str_endswith (str_lower item) ("." +:+ str_lower file_extension)
  then
    let anchor_index := str_find (str_lower item) (str_lower ANCHOR_PATTERN) in
    if negb (anchor_index =? -1) then
      let policy_end_index :=
        anchor_index + Z.of_nat (String.length ANCHOR_PATTERN) + 1 in
      let destination_relative :=
        str_replace_char os_sep "/" (str_slice_from item policy_end_index) in
      if str_nonempty destination_relative
      then (Some [(item, destination_relative)], [])
      else (Some [], [Error (MsgNoRelativePath item)])
    else
      (Some [(item, basename item)], [Warning (MsgAnchorMissing item)])
  else if isdir env item then
    (Some (FileUtils.enumerate_directory_files env item file_extension), [])
  else (None, []).

(** The inner loop: append a target unless its source is already there. *)
Fixpoint add_targets (device_name : string) (files : list (string * string))
    (targets : list FileTarget.t) : list FileTarget.t :=
  match files with
  | [] => targets
  | (source_path, destination_relative) :: rest =>
      if existsb (fun target => String.eqb (FileTarget.src target) source_path)
                 targets
      then add_targets device_name rest targets
      else add_targets device_name rest
             (targets ++ [FileTarget.mk source_path device_name
                            destination_relative false false])
  end.

Fixpoint process_items (env : Env) (found_items : list string)
    (device_name file_extension : string)
    (acc : list FileTarget.t * list event) : list FileTarget.t * list event :=
  match found_items with
  | [] => acc
  | item :: rest =>
      let '(files, evs) := item_files env item file_extension in
      let targets :=
        match files with
        | Some fs => add_targets device_name fs acc.1
        | None => acc.1
        end in
      process_items env rest device_name file_extension (targets, acc.2 ++ evs)
  end.

Definition process_found_items (env : Env) (found_items : list string)
    (device_name file_extension : string) : list FileTarget.t * list event :=
  process_items env found_items device_name file_extension ([], []).

(** The loop of [calculate_file_hashes]; the state is
    [(new_hash_record, changed_files, unchanged_count)]. *)
Fixpoint hash_loop (env : Env) (files : gmap string string)
    (old_hash_record : gmap string string) (targets : list FileTarget.t)
    (acc : gmap string string * list FileTarget.t * nat * list event)
  : gmap string string * list FileTarget.t * nat * list event :=
  match targets with
  | [] => acc
  | target :: rest =>
      let '(new_hash_record, changed_files, unchanged_count, evs) := acc in
      let source_path := FileTarget.src target in
      let '(file_hash, errs) :=
        FileUtils.calculate_file_hash env files source_path in
      hash_loop env files old_hash_record rest
        match file_hash with
        | Some h =>
            if str_nonempty h then
              if bool_decide (old_hash_record !! source_path = Some h)
              then (<[source_path := h]> new_hash_record, changed_files,
                    S unchanged_count, evs ++ errs)
              else (<[source_path := h]> new_hash_record,
                    changed_files ++ [target], unchanged_count, evs ++ errs)
            else (new_hash_record, changed_files, unchanged_count, evs ++ errs)
        | None => (new_hash_record, changed_files, unchanged_count, evs ++ errs)
        end
  end.

Definition calculate_file_hashes (env : Env) (files : gmap string string)
    (targets : list FileTarget.t) (old_hash_record : gmap string string)
  : gmap string string * list FileTarget.t * nat * list event :=
  hash_loop env files old_hash_record targets (∅, [], O, []).

Definition destination_of (target : FileTarget.t) : string :=
  let destination_base := path_join OUTPUT_DIR (FileTarget.device target) in
  path_join destination_base (FileTarget.dest_rel target).

(** The loop of [copy_changed_files]; [None] when
    [ensure_directory_exists] raises, which nothing in the loop catches. *)
Fixpoint copy_loop (changed_files : list FileTarget.t)
    (copied_files : list string) : M (option (list string)) :=
  match changed_files with
  | [] => ret (Some copied_files)
  | target :: rest =>
      let destination_path := destination_of target in
      made <- FileUtils.ensure_directory_exists (dirname destination_path) ;;
      if made then
        ok <- FileUtils.safe_copy (FileTarget.src target) destination_path ;;
        copy_loop rest (if ok then copied_files ++ [destination_path]
                        else copied_files)
      else ret None
  end.

(** [copy_changed_files]: the destinations copied, or [None] when an
    exception leaves it. *)
Definition copy_changed_files (changed_files : list FileTarget.t)
  : M (option (list string)) :=
  copy_loop changed_files [].

End FileOperations.

(** ** [core/cache_manager.py] *)

Module CacheManager.

(** [load_hash_record], [load_path_cache]: a missing or unparsable file
    reads as the empty dict. *)
Definition load_hash_record : M (gmap string string) :=
  fun w => (default ∅ (hash_record_file w), w).

Definition load_path_cache : M (gmap string (list PathInfo.t)) :=
  fun w => (default ∅ (path_cache_file w), w).

Definition set_hash_record_file (r : option (gmap string string)) : M unit :=
  fun w => (tt, {| files := files w;
                   dirs := dirs w;
                   hash_record_file := r;
                   path_cache_file := path_cache_file w;
                   faults := faults w;
                   journal := journal w |}).

Definition set_path_cache_file
    (r : option (gmap string (list PathInfo.t))) : M unit :=
  fun w => (tt, {| files := files w;
                   dirs := dirs w;
                   hash_record_file := hash_record_file w;
                   path_cache_file := r;
                   faults := faults w;
                   journal := journal w |}).

(** [save_hash_record]: open the file for writing and dump the whole
    dict; an I/O error is logged.  A clean failure leaves the file as it
    was, a torn write leaves it unparsable. *)
Definition save_hash_record (hash_record : gmap string string) : M unit :=
  f <- next_fault ;;
  match f with
  | NoFault => set_hash_record_file (Some hash_record)
  | FailClean => tell [Error MsgSaveHashFailed]
  | FailTorn _ =>
      set_hash_record_file None ;;; tell [Error MsgSaveHashFailed]
  end.

Definition save_path_cache (path_cache : gmap string (list PathInfo.t))
  : M unit :=
  f <- next_fault ;;
  match f with
  | NoFault => set_path_cache_file (Some path_cache)
  | FailClean => tell [Error MsgSavePathCacheFailed]
  | FailTorn _ =>
      set_path_cache_file None ;;; tell [Error MsgSavePathCacheFailed]
  end.

Definition still_exists (env : Env) (path_info : PathInfo.t) : bool :=
  path_exists env (PathInfo.path path_info).

(** [verify_cached_paths]: every device keeps its key; an entry survives
    when its path still exists, and a warning is logged for each one that
    does not.  The warnings of one device come in the order of its entries;
    the devices are taken in the order of [map_to_list], not in the order
    in which the loaded dict lists them, and no property depends on the
    order of the warnings of different devices. *)
Definition verify_cached_paths (env : Env)
    (path_cache : gmap string (list PathInfo.t))
  : gmap string (list PathInfo.t) * list event :=
  (List.filter (still_exists env) <$> path_cache,
   flat_map (fun kv : string * list PathInfo.t =>
               flat_map (fun path_info =>
                           if still_exists env path_info then []
                           else [Warning (MsgCachePathStale
                                            (PathInfo.path path_info))])
                        kv.2)
            (map_to_list path_cache)).

End CacheManager.

(** ** [core/docker_operations.py] *)

Module DockerOperations.

Record DockerContainerInfo := {
  container_id : string;
  is_running : bool;
  resolved_id : string
}.

(** [run_docker_command(command, capture=True)]: what it returns. *)
Definition run_docker_command (env : Env) (command : list string)
  : Z * string * string :=
  match subprocess_run env command with
  | inl r => r
  | inr error => (-1, "", error)
  end.

(** What [run_docker_command] logs on the way: an error when the command
    cannot be started. *)
Definition run_docker_command_log (env : Env) (command : list string)
  : list event :=
  match subprocess_run env command with
  | inl _ => []
  | inr error => [Error (MsgDockerCommandFailed error)]
  end.

Definition resolve_container_id (env : Env) (container_identifier : string)
  : option string :=
  let '(returncode, stdout, _) :=
    run_docker_command env
      ["docker"; "inspect"; "--format={{.Id}}"; container_identifier] in
  if (returncode =? 0) && str_nonempty (str_strip stdout)
  then Some (str_strip stdout)
  else
    let '(returncode, stdout, _) :=
      run_docker_command env
        ["docker"; "ps"; "-aq"; "--filter";
         "name=" +:+ container_identifier] in
    if (returncode =? 0) && str_nonempty (str_strip stdout)
    then Some (str_strip (str_first_line (str_strip stdout)))
    else None.

(** What the commands of [resolve_container_id] log. *)
Definition resolve_container_id_log (env : Env)
    (container_identifier : string) : list event :=
  let inspect :=
    ["docker"; "inspect"; "--format={{.Id}}"; container_identifier] in
  let '(returncode, stdout, _) := run_docker_command env inspect in
  run_docker_command_log env inspect
  ++ (if (returncode =? 0) && str_nonempty (str_strip stdout) then []
      else run_docker_command_log env
             ["docker"; "ps"; "-aq"; "--filter";
              "name=" +:+ container_identifier]).

Definition get_container_info (env : Env) (container_identifier : string)
  : option DockerContainerInfo :=
  match resolve_container_id env container_identifier with
  | None => None
  | Some resolved =>
      let '(returncode, stdout, _) :=
        run_docker_command env
          ["docker"; "inspect"; "--format={{.State.Status}}"; resolved] in
      Some {| container_id := container_identifier;
              is_running :=
                (returncode =? 0) && String.eqb (str_strip stdout) "running";
              resolved_id := resolved |}
  end.

(** What the commands of [get_container_info] log. *)
Definition get_container_info_log (env : Env) (container_identifier : string)
  : list event :=
  resolve_container_id_log env container_identifier
  ++ match resolve_container_id env container_identifier with
     | None => []
     | Some resolved =>
         run_docker_command_log env
           ["docker"; "inspect"; "--format={{.State.Status}}"; resolved]
     end.

Definition path_exists_in_container (env : Env) (container path : string)
  : bool :=
  let '(returncode, _, _) :=
    run_docker_command env ["docker"; "exec"; container; "test"; "-e"; path]
  in returncode =? 0.

(** What the command of [path_exists_in_container] logs. *)
Definition path_exists_in_container_log (env : Env) (container path : string)
  : list event :=
  run_docker_command_log env ["docker"; "exec"; container; "test"; "-e"; path].

(** [any(Path(d).iterdir())] on the directory whose content is [tree]. *)
Definition any_iterdir (tree : list entry) : bool :=
  match tree with [] => false | _ => true end.

(** An extraction method takes the content of the destination directory
    and gives its verdict, the new content and what it logged. *)
Definition method_function : Type :=
  list entry -> bool * list entry * list event.

Definition copy_directory_from_container (env : Env)
    (container source_path destination_path : string) : method_function :=
  fun tree =>
    let command :=
      ["docker"; "cp"; container +:+ ":" +:+ source_path +:+ "/.";
       destination_path] in
    let '(returncode, _, stderr) := run_docker_command env command in
    let tree' :=
      match subprocess_run env command with
      | inl _ => docker_cp_tree env container source_path tree
      | inr _ => tree
      end in
    let started := run_docker_command_log env command in
    if negb (returncode =? 0)
    then (false, tree',
          started ++ [Error (MsgDockerCpFailed (str_strip stderr))])
    else if negb (any_iterdir tree')
    then (false, tree', started ++ [Warning MsgDockerCpEmpty])
    else (true, tree', started).

Definition extract_directory_using_tar (env : Env)
    (container source_path destination_path : string) : method_function :=
  fun tree =>
    let '(outcome, tree') := docker_tar env container source_path tree in
    match outcome with
    | TarExit returncode =>
        if negb (returncode =? 0)
        then (false, tree', [Error MsgTarFailed])
        else (true, tree', [])
    | TarReadError | TarTimeout | TarException =>
        (false, tree', [Error MsgTarFailed])
    end.

(** The loop over [methods]: [(success, last_error)], the destination
    directory afterwards, and the events. *)
Fixpoint try_methods (methods : list (string * method_function))
    (last_error : string) (tree : list entry)
  : bool * string * list entry * list event :=
  match methods with
  | [] => (false, last_error, tree, [])
  | (method_name, method_function) :: rest =>
      let '(ok, tree', evs) := method_function tree in
      if ok then (true, last_error, tree', Attempt method_name :: evs)
      else
        let last_error := method_name +:+ " 失败" in
        let '(success, final_error, tree'', evs') :=
          try_methods rest last_error tree' in
        (success, final_error, tree'',
         Attempt method_name :: evs
           ++ Warning (MsgMethodFailed method_name) :: evs')
  end.

Definition methods (env : Env) (resolved source_path temp_destination : string)
  : list (string * method_function) :=
  [("docker cp 目录",
    copy_directory_from_container env resolved source_path temp_destination);
   ("tar 流复制",
    extract_directory_using_tar env resolved source_path temp_destination)].

(** The enumeration at the end of [collect_from_docker_container]. *)
Definition collected_files (env : Env)
    (temp_destination device_name file_extension : string)
    (tree : list entry) : list FileTarget.t :=
  flat_map (fun root_files : string * list string =>
    flat_map (fun file =>
      if str_nonempty file_extension
         && negb (str_endswith (str_lower file)
                    ("." +:+ str_lower file_extension))
      then []
      else
        let source_file_path := path_join root_files.1 file in
        [FileTarget.mk source_file_path device_name
           (relpath env source_file_path temp_destination) false true])
      root_files.2)
    (FileUtils.walk temp_destination tree).

(** [collect_from_docker_container]: the targets, the temporary directory
    it (re)created with its final content, if it got that far, and the
    events. *)
Definition collect_from_docker_container (env : Env)
    (container_identifier source_path device_name file_extension : string)
  : list FileTarget.t * option (string * list entry) * list event :=
  let resolving := get_container_info_log env container_identifier in
  match get_container_info env container_identifier with
  | None =>
      ([], None,
       resolving ++ [Error (MsgContainerNotFound container_identifier)])
  | Some container_info =>
      let resolved := resolved_id container_info in
      if negb (is_running container_info)
      then ([], None, resolving ++ [Error (MsgContainerNotRunning resolved)])
      else
        let probing :=
          resolving
          ++ path_exists_in_container_log env resolved source_path in
        if negb (path_exists_in_container env resolved source_path)
        then ([], None, probing ++ [Error (MsgContainerPathMissing source_path)])
        else
          let short_id := str_take 12 resolved in
          let temp_destination :=
            path_join (path_join DOCKER_TEMP_DIR device_name) short_id in
          let '(success, last_error, tree, evs) :=
            try_methods (methods env resolved source_path temp_destination)
                        "" [] in
          if negb success
          then ([], Some (temp_destination, tree),
                probing ++ evs ++ [Error (MsgAllMethodsFailed last_error)])
          else if negb (any_iterdir tree)
          then ([], Some (temp_destination, tree),
                probing ++ evs
                ++ [Error (MsgDestinationEmpty temp_destination)])
          else (collected_files env temp_destination device_name
                  file_extension tree,
                Some (temp_destination, tree), probing ++ evs)
  end.

Fixpoint entry_files (parent : string) (e : entry) : list (string * string) :=
  match e with
  | EFile n content => [(path_join parent n, content)]
  | EDir n children =>
      flat_map (entry_files (path_join parent n)) children
  end.

Fixpoint entry_dirs (parent : string) (e : entry) : list string :=
  match e with
  | EFile _ _ => []
  | EDir n children =>
      path_join parent n :: flat_map (entry_dirs (path_join parent n)) children
  end.

(** The effect of an extraction on the store: the temporary directory is
    emptied, then holds the extracted tree. *)
Definition store_extraction (extraction : option (string * list entry))
  : M unit :=
  match extraction with
  | None => ret tt
  | Some (temp_destination, tree) =>
      fs <- get_files ;;
      ds <- get_dirs ;;
      set_files
        (list_to_map (flat_map (entry_files temp_destination) tree)
         ∪ filter (fun kv : string * string =>
                     str_startswith kv.1 (temp_destination +:+ "/") = false)
                  fs) ;;;
      set_dirs
        (list_to_set (ancestors temp_destination)
         ∪ list_to_set (flat_map (entry_dirs temp_destination) tree)
         ∪ filter (fun d => below temp_destination d = false) ds)
  end.

End DockerOperations.

(** ** [core/collector.py] *)

Module RulesCollector.

Record CollectionResult := {
  total : nat;
  copied : list string;
  unchanged : nat;
  changed : nat;
  local_files : nat;
  docker_files : nat;
  cached_paths_used : nat;
  new_paths_found : nat
}.

(** [CollectionResult()] *)
Definition empty_result : CollectionResult :=
  {| total := 0; copied := []; unchanged := 0; changed := 0;
     local_files := 0; docker_files := 0; cached_paths_used := 0;
     new_paths_found := 0 |}.

(** [any(len(paths) > 0 for paths in verified_cache.values())] *)
Definition has_valid_cache (verified_cache : gmap string (list PathInfo.t))
  : bool :=
  existsb (fun kv : string * list PathInfo.t => (0 <? length kv.2)%nat)
          (map_to_list verified_cache).

Definition _decide_scan_strategy (env : Env) (force_rescan : bool)
    (path_cache : gmap string (list PathInfo.t))
  : bool * gmap string (list PathInfo.t) * list event :=
  let use_cache :=
    negb force_rescan && negb (bool_decide (path_cache = ∅)) in
  if use_cache then
    let '(verified_cache, evs) :=
      CacheManager.verify_cached_paths env path_cache in
    if has_valid_cache verified_cache
    then (true, verified_cache, evs)
    else (false, ∅, evs ++ [Warning MsgNoValidCache])
  else (false, ∅, []).

(** The loop over [SCAN_ORDER_PRIORITY] in [_search_device_paths], with
    its [break]. *)
Fixpoint search_tiers (env : Env) (patterns : list string)
    (tiers : list (string * list string)) : list string * list event :=
  match tiers with
  | [] => ([], [])
  | (description, search_paths) :: rest =>
      let '(matched_items, evs) :=
        FileOperations.search_rule_files env patterns search_paths in
      match matched_items with
      | [] => let '(found_items, evs') := search_tiers env patterns rest in
              (found_items, evs ++ evs')
      | _ :: _ => (matched_items, evs)
      end
  end.

Definition _search_device_paths (env : Env) (device_config : DeviceConfig.t)
  : list string * list event :=
  let patterns := DeviceConfig.relative_path device_config in
  let '(found_items, evs) :=
    search_tiers env patterns (SCAN_ORDER_PRIORITY env) in
  match found_items with
  | [] =>
      let '(matched_items, evs') :=
        FileOperations.search_rule_files env patterns ["/"] in
      (matched_items,
       evs ++ Warning (MsgNotInCommonPaths (DeviceConfig.name device_config))
           :: evs')
  | _ :: _ => (found_items, evs)
  end.

(** [new_path_cache[device_name].append(...)], for a key that the dict
    holds: [_scan_rule_files] sets [new_path_cache[device_name] = []] before
    it goes into a device, and every call below is for that device.  (On a
    key that the dict lacks the source raises [KeyError]; the properties
    that speak of these functions on their own assume the key.) *)
Definition cache_append (device_name : string) (path_info : PathInfo.t)
    (new_path_cache : gmap string (list PathInfo.t))
  : gmap string (list PathInfo.t) :=
  alter (fun paths => paths ++ [path_info]) device_name new_path_cache.

Fixpoint _process_cached_paths (env : Env) (device_name : string)
    (cached_paths : list PathInfo.t)
    (new_path_cache : gmap string (list PathInfo.t))
  : list FileTarget.t * gmap string (list PathInfo.t) :=
  match cached_paths with
  | [] => ([], new_path_cache)
  | path_info :: rest =>
      let source_path := PathInfo.path path_info in
      let destination_relative := PathInfo.dest_rel path_info in
      if path_exists env source_path then
        let '(cached_targets, cache') :=
          _process_cached_paths env device_name rest
            (cache_append device_name
               (PathInfo.mk source_path destination_relative) new_path_cache)
        in
        (FileTarget.mk source_path device_name destination_relative true false
           :: cached_targets, cache')
      else _process_cached_paths env device_name rest new_path_cache
  end.

(** [use_cache and device_name in verified_cache
     and verified_cache[device_name]] *)
Definition cache_usable (use_cache : bool)
    (verified_cache : gmap string (list PathInfo.t)) (device_name : string)
  : bool :=
  use_cache && match verified_cache !! device_name with
               | Some (_ :: _) => true
               | _ => false
               end.

Definition _process_local_device (env : Env) (device_name : string)
    (device_config : DeviceConfig.t) (use_cache : bool)
    (verified_cache new_path_cache : gmap string (list PathInfo.t))
  : list FileTarget.t * gmap string (list PathInfo.t) * list event :=
  let '(cached_targets, cache1) :=
    if cache_usable use_cache verified_cache device_name
    then _process_cached_paths env device_name
           (default [] (verified_cache !! device_name)) new_path_cache
    else ([], new_path_cache) in
  if negb (cache_usable use_cache verified_cache device_name) then
    let '(found_items, evs) := _search_device_paths env device_config in
    let '(new_targets, evs') :=
      FileOperations.process_found_items env found_items device_name
        (DeviceConfig.file_type device_config) in
    (cached_targets ++ new_targets,
     foldl (fun cache target =>
              cache_append device_name
                (PathInfo.mk (FileTarget.src target)
                             (FileTarget.dest_rel target)) cache)
           cache1 new_targets,
     evs ++ evs')
  else (cached_targets ++ [], cache1, []).

(** The loop of [_deduplicate_targets]. *)
Fixpoint dedup_loop (targets : list FileTarget.t)
    (seen_source_paths : gset string) (unique_targets : list FileTarget.t)
  : list FileTarget.t :=
  match targets with
  | [] => unique_targets
  | target :: rest =>
      if bool_decide (FileTarget.src target ∉ seen_source_paths)
      then dedup_loop rest ({[FileTarget.src target]} ∪ seen_source_paths)
                      (unique_targets ++ [target])
      else dedup_loop rest seen_source_paths unique_targets
  end.

Definition _deduplicate_targets (targets : list FileTarget.t)
  : list FileTarget.t :=
  dedup_loop targets ∅ [].

(** The loop over the devices in [_scan_rule_files]. *)
Fixpoint scan_devices (env : Env) (use_cache : bool)
    (verified_cache : gmap string (list PathInfo.t))
    (devices : list (string * DeviceConfig.t))
    (all_targets : list FileTarget.t)
    (new_path_cache : gmap string (list PathInfo.t))
  : M (list FileTarget.t * gmap string (list PathInfo.t)) :=
  match devices with
  | [] => ret (all_targets, new_path_cache)
  | (device_name, device_config) :: rest =>
      let new_path_cache := <[device_name := []]> new_path_cache in
      match DeviceConfig.type device_config with
      | Docker =>
          let '(docker_files, extraction, evs) :=
            DockerOperations.collect_from_docker_container env
              (DeviceConfig.container device_config)
              (DeviceConfig.path device_config)
              device_name
              (DeviceConfig.file_type device_config) in
          tell evs ;;;
          DockerOperations.store_extraction extraction ;;;
          scan_devices env use_cache verified_cache rest
            (all_targets ++ docker_files) new_path_cache
      | Local =>
          let '(device_targets, new_path_cache, evs) :=
            _process_local_device env device_name device_config use_cache
              verified_cache new_path_cache in
          tell evs ;;;
          scan_devices env use_cache verified_cache rest
            (all_targets ++ device_targets) new_path_cache
      end
  end.

Definition _scan_rule_files (env : Env)
    (devices : list (string * DeviceConfig.t)) (use_cache : bool)
    (verified_cache : gmap string (list PathInfo.t))
  : M (list FileTarget.t) :=
  r <- scan_devices env use_cache verified_cache devices [] ∅ ;;
  CacheManager.save_path_cache r.2 ;;;
  ret (_deduplicate_targets r.1).

Definition count_if (f : FileTarget.t -> bool) (targets : list FileTarget.t)
  : nat := length (List.filter f targets).

(** [collect_rules(force_rescan)] over the configured [devices]: the
    result, or [None] when an exception leaves it, from
    [ensure_directory_exists] at the start or from the copy phase. *)
Definition collect_rules (env : Env)
    (devices : list (string * DeviceConfig.t)) (force_rescan : bool)
  : M (option CollectionResult) :=
  made <- FileUtils.ensure_directory_exists OUTPUT_DIR ;;
  if negb made then ret None else
  made <- FileUtils.ensure_directory_exists DOCKER_TEMP_DIR ;;
  if negb made then ret None else
  old_hash_record <- CacheManager.load_hash_record ;;
  path_cache <- CacheManager.load_path_cache ;;
  decision <- logged (_decide_scan_strategy env force_rescan path_cache) ;;
  let '(use_cache, verified_cache) := decision in
  all_targets <- _scan_rule_files env devices use_cache verified_cache ;;
  match all_targets with
  | [] => tell [Warning MsgNoFilesFound] ;;; ret (Some empty_result)
  | _ :: _ =>
      let docker_files_count := count_if FileTarget.from_docker all_targets in
      let cached_targets_count := count_if FileTarget.cached all_targets in
      fs <- get_files ;;
      hashed <- logged (FileOperations.calculate_file_hashes env fs
                          all_targets old_hash_record) ;;
      let '(new_hash_record, changed_files, unchanged_count) := hashed in
      copied <- FileOperations.copy_changed_files changed_files ;;
      match copied with
      | None => ret None
      | Some copied_files =>
          CacheManager.save_hash_record new_hash_record ;;;
          ret (Some {| total := length all_targets;
                       copied := copied_files;
                       unchanged := unchanged_count;
                       changed := length changed_files;
                       local_files :=
                         (length all_targets - docker_files_count)%nat;
                       docker_files := docker_files_count;
                       cached_paths_used := cached_targets_count;
                       new_paths_found :=
                         (length all_targets - cached_targets_count)%nat |})
      end
  end.

End RulesCollector.

(** ** The scan, appliance by appliance *)

(** The targets one configured device contributes to [_scan_rule_files]. *)
Definition device_targets (env : Env) (use_cache : bool)
    (verified_cache : gmap string (list PathInfo.t))
    (device : string * DeviceConfig.t) : list FileTarget.t :=
  match DeviceConfig.type device.2 with
  | Docker =>
      (DockerOperations.collect_from_docker_container env
         (DeviceConfig.container device.2) (DeviceConfig.path device.2)
         device.1 (DeviceConfig.file_type device.2)).1.1
  | Local =>
      (RulesCollector._process_local_device env device.1 device.2 use_cache
         verified_cache ∅).1.1
  end.

(** ** Reading the events *)

(** The base-path lists probed, in order. *)
Definition probed (evs : list event) : list (list string) :=
  omap (fun e => match e with Probe _ base_paths => Some base_paths
                         | _ => None end) evs.

(** The extraction methods attempted, in order. *)
Definition attempted (evs : list event) : list string :=
  omap (fun e => match e with Attempt method => Some method | _ => None end)
       evs.



(** [w'] comes after [w]: same persisted hash record, a longer journal. *)
Definition keeps_hashes (w w' : World) : Prop :=
  hash_record_file w' = hash_record_file w
  ∧ ∃ evs, journal w' = journal w ++ evs.

(** A computation after which the world always comes after the one it
    started in. *)
Definition frames {A} (m : M A) : Prop := ∀ w, keeps_hashes w (m w).2.

(** ** The configured devices ([config/device_config.py]) *)

Definition default_devices : list (string * DeviceConfig.t) :=
  [("suricata",
    DeviceConfig.mk "suricata" Local ["**/suricata/rules/"] "rules" "" "");
   ("snort",
    DeviceConfig.mk "snort" Local
      ["**/snort/rules/"; "**/scripts/policy"; "**/scripts/site"]
      "rules" "" "");
   ("ModSecurity",
    DeviceConfig.mk "ModSecurity" Local ["**/crs4/rules"] "conf" "" "");
   ("zeek",
    DeviceConfig.mk "zeek" Local
      ["**/zeek/share/zeek/policy/protocols/ftp/detect-bruteforcing.zeek";
       "**/zeek/share/zeek/policy/protocols/http/detect-sqli.zeek";
       "**/zeek/share/zeek/policy/protocols/http/detect-webapps.zeek";
       "**/zeek/share/zeek/policy/protocols/ssh/detect-bruteforcing.zeek";
       "**/zeek/share/zeek/policy/protocols/ssl/heartbleed.zeek";
       "**/zeek/share/zeek/policy/protocols/ssl/weak-keys.zeek";
       "**/zeek/share/zeek/policy/protocols/smtp/blocklists.zeek";
       "**/zeek/share/zeek/policy/protocols/smtp/detect-suspicious-orig.zeek";
       "**/zeek/share/zeek/policy/frameworks/files/detect-MHR.zeek";
       "**/zeek/share/zeek/policy/frameworks/software/vulnerable.zeek"]
      "zeek" "" "");
   ("nuclei",
    DeviceConfig.mk "nuclei" Local ["**/nuclei-templates/"] "yaml" "" "");
   ("堡塔云waf",
    DeviceConfig.mk "堡塔云waf" Docker [] "json" "86e4e41a871c"
      "/etc/nginx/waf/rule");
   ("南墙uuwaf",
    DeviceConfig.mk "南墙uuwaf" Docker [] "w" "ca466ab891e4"
      "/uuwaf/waf/plugins/")].

(** ** [config/device_config.py]: [DeviceConfigManager] *)

Module DeviceConfigManager.


(** [devices[key] = config]: a key that is present keeps its place, a new
    one goes to the end. *)
Fixpoint dict_set (key : string) (config : DeviceConfig.t)
    (devices : list (string * DeviceConfig.t))
  : list (string * DeviceConfig.t) :=
  match devices with
  | [] => [(key, config)]
  | (k, c) :: rest =>
      if String.eqb k key then (key, config) :: rest
      else (k, c) :: dict_set key config rest
  end.

(** [get_device]: [None] stands for the [KeyError]. *)
Fixpoint get_device (devices : list (string * DeviceConfig.t))
    (device_name : string) : option DeviceConfig.t :=
  match devices with
  | [] => None
  | (k, c) :: rest =>
      if String.eqb k device_name then Some c else get_device rest device_name
  end.

Definition get_all_devices (devices : list (string * DeviceConfig.t))
  : list (string * DeviceConfig.t) := devices.

Definition add_device (config : DeviceConfig.t)
    (devices : list (string * DeviceConfig.t))
  : list (string * DeviceConfig.t) :=
  dict_set (DeviceConfig.name config) config devices.

(** [remove_device]: [del] when the key is present, nothing otherwise. *)
Definition remove_device (device_name : string)
    (devices : list (string * DeviceConfig.t))
  : list (string * DeviceConfig.t) :=
  List.filter (fun kv : string * DeviceConfig.t =>
                 negb (String.eqb kv.1 device_name)) devices.

End DeviceConfigManager.

(** ** [main.py] *)

Module Main.

(** [shutil.rmtree(directory)] when the directory exists: it goes, with
    every file and directory below it. *)
Definition rmtree (directory : string) : M unit :=
  fs <- get_files ;;
  ds <- get_dirs ;;
  set_files (filter (fun kv : string * string =>
                       str_startswith kv.1 (directory +:+ "/") = false) fs) ;;;
  set_dirs (filter (fun d => d ≠ directory ∧ below directory d = false) ds).

(** [clear_cache]: both cache files are removed if they are there, then the
    temporary directory. *)
Definition clear_cache : M unit :=
  CacheManager.set_hash_record_file None ;;;
  CacheManager.set_path_cache_file None ;;;
  rmtree DOCKER_TEMP_DIR.




End Main.

(** ** Reading the results *)

(** The path cache entry that the scan writes for a target. *)
Definition to_path_info (target : FileTarget.t) : PathInfo.t :=
  PathInfo.mk (FileTarget.src target) (FileTarget.dest_rel target).

(** The target that a cached entry gives back. *)
Definition cached_target (device_name : string) (path_info : PathInfo.t)
  : FileTarget.t :=
  FileTarget.mk (PathInfo.path path_info) device_name
    (PathInfo.dest_rel path_info) true false.

(** The names of the regular files of a tree, at any depth. *)
Fixpoint entry_file_names (e : entry) : list string :=
  match e with
  | EFile n _ => [n]
  | EDir _ children => flat_map entry_file_names children
  end.

(** The pattern that [search_files] hands to [glob]. *)
Definition full_pattern (base_path pattern : string) : string :=
  path_join base_path (str_lstrip_char "/" pattern).

(** The host on which a [glob] that raises finds nothing instead. *)
Definition forgiving_glob (env : Env) : Env := {|
  home := home env;
  glob := fun pattern => Some (default [] (glob env pattern));
  path_exists := path_exists env;
  isfile := isfile env;
  isdir := isdir env;
  abspath := abspath env;
  relpath := relpath env;
  listing := listing env;
  md5_hexdigest := md5_hexdigest env;
  subprocess_run := subprocess_run env;
  docker_cp_tree := docker_cp_tree env;
  docker_tar := docker_tar env
|}.

(** A computation that meets no fault when none is pending. *)
Definition unfaulted {A} (m : M A) : Prop :=
  ∀ w, faults w = [] → faults (m w).2 = [].

(** ** Sample hosts

    Concrete environments on which the definitions are run: a host with
    nothing installed, and a host with Zeek under [/opt] (and a copy in the
    home directory), Suricata rules under [/etc] and one WAF container. *)

Definition zeek_rule : string :=
  "/opt/zeek/share/zeek/policy/protocols/ssh/detect-bruteforcing.zeek".

Definition zeek_rule_home : string :=
  "/root/zeek/share/zeek/policy/protocols/ssh/detect-bruteforcing.zeek".

Definition zeek_pattern : string :=
  "**/zeek/share/zeek/policy/protocols/ssh/detect-bruteforcing.zeek".

(** A stand-in for MD5: never empty, and different for different contents. *)
Definition sample_digest (content : string) : string := "md5:" +:+ content.

Definition sample_relpath (p start : string) : string :=
  if String.eqb p start then "."
  else str_drop (String.length start + 1) p.

Definition bare_host : Env := {|
  home := "/root";
  glob := fun _ => Some [];
  path_exists := fun _ => false;
  isfile := fun _ => false;
  isdir := fun _ => false;
  abspath := fun p => p;
  relpath := sample_relpath;
  listing := fun _ => None;
  md5_hexdigest := sample_digest;
  subprocess_run := fun _ => inr "docker: command not found";
  docker_cp_tree := fun _ _ tree => tree;
  docker_tar := fun _ _ tree => (TarException, tree)
|}.

Definition sample_files : list string :=
  [zeek_rule; zeek_rule_home; "/opt/bro/site/local.zeek"; "/srv/policy.";
   "/etc/suricata/rules/local.rules"; "/etc/suricata/rules/README";
   "/etc/suricata/rules/emerging/scan.rules"].

Definition sample_container : string :=
  "86e4e41a871c5d0c3b9a7f6e2d1c0b9a8f7e6d5c4b3a29180716f5e4d3c2b1a0".

Definition sample_subprocess (command : list string)
  : (Z * string * string) + string :=
  match command with
  | ["docker"; "inspect"; format; container] =>
      if String.eqb format "--format={{.Id}}" then
        if String.eqb container "86e4e41a871c"
        then inl (0, sample_container +:+ String "010"%char "", "")
        else inl (1, "", "Error: No such object: " +:+ container)
      else if String.eqb container sample_container
      then inl (0, "running" +:+ String "010"%char "", "")
      else inl (1, "", "Error: No such object: " +:+ container)
  | ["docker"; "exec"; _; "test"; "-e"; path] =>
      if String.eqb path "/etc/nginx/waf/rule" then inl (0, "", "")
      else inl (1, "", "")
  | ["docker"; "cp"; _; _] =>
      inl (1, "", "Error response from daemon: not a directory")
  | _ => inl (1, "", "")
  end.

Definition sample_waf_tree : list entry :=
  [EFile "sqli.json" "{rules: 1}";
   EFile "NOTES.txt" "internal";
   EDir "custom" [EFile "xss.json" "{rules: 2}"]].

Definition sample_host : Env := {|
  home := "/root";
  glob := fun full_pattern =>
    if String.eqb full_pattern ("/opt/" +:+ zeek_pattern)
    then Some [zeek_rule]
    else if String.eqb full_pattern ("/root/" +:+ zeek_pattern)
    then Some [zeek_rule_home]
    else if String.eqb full_pattern "/etc/**/suricata/rules/"
    then Some ["/etc/suricata/rules/"]
    else Some [];
  path_exists := fun p =>
    bool_decide (p ∈ sample_files)
    || String.eqb p "/etc/suricata/rules/" || String.eqb p "/etc/suricata/rules";
  isfile := fun p => bool_decide (p ∈ sample_files);
  isdir := fun p =>
    String.eqb p "/etc/suricata/rules/" || String.eqb p "/etc/suricata/rules";
  abspath := fun p =>
    if String.eqb p "/etc/suricata/rules/" then "/etc/suricata/rules" else p;
  relpath := sample_relpath;
  listing := fun p =>
    if String.eqb p "/etc/suricata/rules"
    then Some [EFile "local.rules" "alert tcp any any";
               EFile "README" "read me";
               EDir "emerging" [EFile "scan.rules" "alert icmp"]]
    else None;
  md5_hexdigest := sample_digest;
  subprocess_run := sample_subprocess;
  docker_cp_tree := fun _ _ tree => tree;
  docker_tar := fun _ _ _ => (TarExit 0, sample_waf_tree)
|}.

(** The same host with a container whose [tar] stream times out. *)
Definition stuck_host : Env := {|
  home := home sample_host;
  glob := glob sample_host;
  path_exists := path_exists sample_host;
  isfile := isfile sample_host;
  isdir := isdir sample_host;
  abspath := abspath sample_host;
  relpath := relpath sample_host;
  listing := listing sample_host;
  md5_hexdigest := md5_hexdigest sample_host;
  subprocess_run := subprocess_run sample_host;
  docker_cp_tree := docker_cp_tree sample_host;
  docker_tar := fun _ _ tree => (TarTimeout, tree)
|}.

(** The directories that hold the given files. *)
Definition dirs_of (fs : gmap string string) : gset string :=
  list_to_set (flat_map (fun kv : string * string => ancestors (dirname kv.1))
                        (map_to_list fs)).

(** A store with the given files, the directories that hold them and the
    given persisted caches, no pending fault and an empty journal. *)
Definition quiet_world (fs : gmap string string)
    (hashes : option (gmap string string))
    (paths : option (gmap string (list PathInfo.t))) : World :=
  {| files := fs; dirs := dirs_of fs; hash_record_file := hashes;
     path_cache_file := paths; faults := []; journal := [] |}.

Definition sample_target (p : string) : FileTarget.t :=
  FileTarget.mk p "suricata" (basename p) false false.

(** Three discovered files: one as recorded, one modified since, one that
    cannot be read. *)
Definition sample_store : gmap string string :=
  {[ "/etc/suricata/rules/local.rules" := "alert tcp any any";
     "/etc/suricata/rules/emerging/scan.rules" := "alert icmp" ]}.

Definition sample_old_record : gmap string string :=
  {[ "/etc/suricata/rules/local.rules" := sample_digest "alert tcp any any";
     "/etc/suricata/rules/emerging/scan.rules" := sample_digest "alert udp";
     "/etc/suricata/rules/retired.rules" := sample_digest "drop" ]}.

Definition sample_targets : list FileTarget.t :=
  [sample_target "/etc/suricata/rules/local.rules";
   sample_target "/etc/suricata/rules/README";
   sample_target "/etc/suricata/rules/emerging/scan.rules"].

Definition zeek_device : DeviceConfig.t :=
  DeviceConfig.mk "zeek" Local [zeek_pattern] "zeek" "" "".

(** A path cache with one entry that still exists and one that is gone. *)
Definition sample_path_cache : gmap string (list PathInfo.t) :=
  {[ "zeek" := [PathInfo.mk zeek_rule "protocols/ssh/detect-bruteforcing.zeek"];
     "suricata" := [PathInfo.mk "/etc/suricata/rules/retired.rules"
                      "retired.rules"] ]}.

Definition waf_device : DeviceConfig.t :=
  DeviceConfig.mk "waf" Docker [] "json" "86e4e41a871c" "/etc/nginx/waf/rule".

Definition sample_container_info : DockerOperations.DockerContainerInfo :=
  {| DockerOperations.container_id := "86e4e41a871c";
     DockerOperations.is_running := true;
     DockerOperations.resolved_id := sample_container |}.

Definition sample_source : string := "/etc/suricata/rules/local.rules".

Definition sample_destination : string := "collected_rules/suricata/local.rules".


(** A bare host whose hash record still lists a rule collected earlier. *)
Definition stale_world : World :=
  quiet_world ∅
    (Some {[ "/etc/suricata/rules/retired.rules" := sample_digest "drop" ]})
    None.

(** The sample host before a run: the rules are readable, and the hash
    record of the previous run lists a rule that is no longer there. *)
Definition sample_world : World :=
  quiet_world (<[zeek_rule := "event ssh"]> sample_store)
    (Some sample_old_record) None.

(** The sample host once the directory of the sample destination is
    there. *)
Definition ready_world : World :=
  (FileUtils.ensure_directory_exists (dirname sample_destination)
     sample_world).2.

(** A store in which the temporary path of the sample destination is a
    directory. *)
Definition occupied_world : World :=
  {| files := {[ sample_source := "alert tcp any any" ]};
     dirs := dirs_of {[ sample_source := "alert tcp any any" ]}
             ∪ list_to_set (ancestors (sample_destination +:+ ".tmp"));
     hash_record_file := None;
     path_cache_file := None;
     faults := [];
     journal := [] |}.

(** A store in which a regular file has the name of the directory of the
    sample destination. *)
Definition blocked_world : World :=
  quiet_world {[ sample_source := "alert tcp any any";
                 "collected_rules/suricata" := "not a directory" ]}
    None None.


(** A host on which the only rule lies below a directory whose name goes
    on after the anchor token. *)
Definition versioned_rule : string :=
  "/opt/zeek/share/zeek/policy2/tuning.zeek".

Definition versioned_host : Env := {|
  home := "/root";
  glob := fun _ => Some [];
  path_exists := String.eqb versioned_rule;
  isfile := String.eqb versioned_rule;
  isdir := fun _ => false;
  abspath := fun p => p;
  relpath := sample_relpath;
  listing := fun _ => None;
  md5_hexdigest := sample_digest;
  subprocess_run := fun _ => inr "docker: command not found";
  docker_cp_tree := fun _ _ tree => tree;
  docker_tar := fun _ _ tree => (TarException, tree)
|}.

(** * Properties *)

(** ** Global de-duplication *)

Section Dedup.
Import RulesCollector.
Implicit Types (targets unique : list FileTarget.t) (seen : gset string).

Lemma dedup_loop_acc targets seen unique :
  dedup_loop targets seen unique = unique ++ dedup_loop targets seen [].
Proof.
  revert seen unique.
  induction targets as [|t targets IH]; intros seen unique; simpl.
  - by rewrite app_nil_r.
  - case_bool_decide.
    + rewrite (IH _ (unique ++ [t])), (IH _ [t]). by rewrite <- app_assoc.
    + apply IH.
Qed.

Lemma dedup_loop_cons t targets seen :
  dedup_loop (t :: targets) seen [] =
    if bool_decide (FileTarget.src t ∉ seen)
    then t :: dedup_loop targets ({[FileTarget.src t]} ∪ seen) []
    else dedup_loop targets seen [].
Proof.
  simpl. case_bool_decide; [|done]. by rewrite dedup_loop_acc.
Qed.

Lemma dedup_loop_elem targets seen t :
  t ∈ dedup_loop targets seen [] ↔
  ∃ pre post, targets = pre ++ t :: post
              ∧ (FileTarget.src t ∉ FileTarget.src <$> pre)
              ∧ (FileTarget.src t ∉ seen).
Proof.
  revert seen.
  induction targets as [|u targets IH]; intros seen.
  - simpl. split; [by intros ?%elem_of_nil|].
    intros (pre & post & Heq & _). by destruct pre.
  - rewrite dedup_loop_cons. case_bool_decide as Hu.
    + rewrite elem_of_cons, IH. split.
      * intros [->|(pre & post & -> & Hpre & Hseen)].
        { exists [], targets. split; [done|]. split; [|done].
          simpl. apply not_elem_of_nil. }
        exists (u :: pre), post. split; [done|].
        split; [|set_solver]. rewrite fmap_cons. set_solver.
      * intros (pre & post & Heq & Hpre & Hseen).
        destruct pre as [|v pre]; simplify_eq/=; [by left|].
        right. exists pre, post. split; [done|]. set_solver.
    + rewrite IH. split.
      * intros (pre & post & -> & Hpre & Hseen).
        exists (u :: pre), post. split; [done|]. split; [|done].
        rewrite fmap_cons. apply not_elem_of_cons. split; [|done].
        intros Heq. apply Hseen. by rewrite Heq.
      * intros (pre & post & Heq & Hpre & Hseen).
        destruct pre as [|v pre]; simplify_eq/=.
        { done. }
        exists pre, post. split; [done|]. set_solver.
Qed.

Lemma dedup_loop_NoDup targets seen :
  NoDup (FileTarget.src <$> dedup_loop targets seen []).
Proof.
  revert seen.
  induction targets as [|u targets IH]; intros seen.
  - simpl. constructor.
  - rewrite dedup_loop_cons. case_bool_decide; [|apply IH].
    rewrite fmap_cons. constructor; [|apply IH].
    intros (t & Heq & Ht)%list_elem_of_fmap.
    apply dedup_loop_elem in Ht as (_ & _ & _ & _ & Hseen).
    set_solver.
Qed.

Lemma dedup_loop_sublist targets seen :
  dedup_loop targets seen [] `sublist_of` targets.
Proof.
  revert seen.
  induction targets as [|u targets IH]; intros seen.
  - done.
  - rewrite dedup_loop_cons. case_bool_decide.
    + by apply sublist_skip.
    + by apply sublist_cons.
Qed.

Lemma dedup_loop_covers targets seen p :
  p ∈ FileTarget.src <$> targets → p ∉ seen →
  p ∈ FileTarget.src <$> dedup_loop targets seen [].
Proof.
  revert seen.
  induction targets as [|u targets IH]; intros seen Hin Hseen.
  - by apply elem_of_nil in Hin.
  - rewrite dedup_loop_cons. rewrite fmap_cons in Hin.
    destruct (decide (p = FileTarget.src u)) as [->|Hne].
    + rewrite bool_decide_eq_true_2 by done. rewrite fmap_cons. by left.
    + apply elem_of_cons in Hin as [?|Hin]; [done|].
      case_bool_decide.
      * rewrite fmap_cons. right. apply IH; [done|]. set_solver.
      * by apply IH.
Qed.

Lemma filter_src_absent (l : list FileTarget.t) p :
  p ∉ FileTarget.src <$> l → filter (λ t, FileTarget.src t = p) l = [].
Proof.
  induction l as [|u l IH]; [done|].
  rewrite fmap_cons, not_elem_of_cons. intros [Hne Hl].
  rewrite filter_cons. case_decide; [congruence|]. by apply IH.
Qed.

Lemma count_in_NoDup (l : list FileTarget.t) p :
  NoDup (FileTarget.src <$> l) → p ∈ FileTarget.src <$> l →
  length (filter (λ t, FileTarget.src t = p) l) = 1%nat.
Proof.
  induction l as [|u l IH]; intros Hnd Hin.
  - by apply elem_of_nil in Hin.
  - rewrite fmap_cons in Hnd, Hin. apply NoDup_cons in Hnd as [Hu Hnd].
    rewrite filter_cons. case_decide as Hp.
    + subst p. by rewrite filter_src_absent.
    + apply elem_of_cons in Hin as [?|Hin]; [done|]. by apply IH.
Qed.

End Dedup.

(** ** The string and path functions on concrete inputs *)

Example str_lower_example : str_lower "/Opt/Zeek/POLICY/a.Zeek" = "/opt/zeek/policy/a.zeek".
Proof. reflexivity. Qed.

Example str_find_example :
  str_find "/opt/zeek/share/zeek/policy/x" "policy" = 21
  ∧ str_find "/opt/zeek" "policy" = -1
  ∧ str_find "policy/policy" "policy" = 0.
Proof. repeat split; reflexivity. Qed.

Example str_slice_from_example :
  str_slice_from "policy/a.zeek" 7 = "a.zeek"
  ∧ str_slice_from "policy" 7 = ""
  ∧ str_slice_from "policy" (-2) = "cy".
Proof. repeat split; reflexivity. Qed.

Example str_endswith_example :
  str_endswith "local.rules" ".rules" = true
  ∧ str_endswith "local.rules" "." = false
  ∧ str_endswith "rules" ".rules" = false
  ∧ str_endswith "local.rules" "" = true.
Proof. repeat split; reflexivity. Qed.

Example str_strip_example :
  str_strip (" 86e4e41a871c" +:+ String "010"%char "") = "86e4e41a871c"
  ∧ str_first_line ("ab" +:+ String "010"%char "cd") = "ab"
  ∧ str_lstrip_char "/" "//etc/rules" = "etc/rules".
Proof. repeat split; reflexivity. Qed.

Example path_join_example :
  path_join "/etc" "**/suricata/rules/" = "/etc/**/suricata/rules/"
  ∧ path_join "/" "**/crs4/rules" = "/**/crs4/rules"
  ∧ path_join "collected_rules" "/abs" = "/abs"
  ∧ path_join "" "rel" = "rel".
Proof. repeat split; reflexivity. Qed.

Example basename_dirname_example :
  basename "/etc/suricata/rules/local.rules" = "local.rules"
  ∧ basename "/etc/suricata/rules/" = ""
  ∧ dirname "collected_rules/suricata/emerging/scan.rules"
    = "collected_rules/suricata/emerging"
  ∧ dirname "/local.rules" = "/"
  ∧ dirname "local.rules" = "".
Proof. repeat split; reflexivity. Qed.

Example walk_example :
  FileUtils.walk "/etc/suricata/rules"
    [EFile "local.rules" ""; EDir "emerging" [EFile "scan.rules" ""];
     EFile "README" ""]
  = [("/etc/suricata/rules", ["local.rules"; "README"]);
     ("/etc/suricata/rules/emerging", ["scan.rules"])].
Proof. reflexivity. Qed.

(** ** Strings *)

Section Strings.
Implicit Types (s a b sub : string) (c : ascii).

Lemma str_app_cons c a b : String c a +:+ b = String c (a +:+ b).
Proof. reflexivity. Qed.

Lemma str_length_app a b :
  String.length (a +:+ b) = (String.length a + String.length b)%nat.
Proof.
  induction a as [|c a IH]; [done|].
  rewrite str_app_cons. simpl. by rewrite IH.
Qed.

Lemma str_app_assoc a b s : (a +:+ b) +:+ s = a +:+ b +:+ s.
Proof.
  induction a as [|c a IH]; [done|]. rewrite !str_app_cons. by rewrite IH.
Qed.

Lemma str_lower_length s : String.length (str_lower s) = String.length s.
Proof. induction s as [|c s IH]; simpl; [done|]. by rewrite IH. Qed.

Lemma str_lower_app a b : str_lower (a +:+ b) = str_lower a +:+ str_lower b.
Proof.
  induction a as [|c a IH]; [done|].
  rewrite str_app_cons. simpl. by rewrite IH.
Qed.

Lemma str_drop_app a b : str_drop (String.length a) (a +:+ b) = b.
Proof.
  induction a as [|c a IH]; [by destruct b|]. by rewrite str_app_cons.
Qed.

Lemma str_drop_all n s : (String.length s ≤ n)%nat → str_drop n s = "".
Proof.
  revert n. induction s as [|c s IH]; intros [|n] Hn; simpl in *;
    try done; try lia.
  apply IH. lia.
Qed.

Lemma str_slice_from_app a b :
  str_slice_from (a +:+ b) (Z.of_nat (String.length a)) = b.
Proof.
  unfold str_slice_from. rewrite str_length_app.
  destruct (Z.ltb_spec (Z.of_nat (String.length a)) 0) as [?|_]; [lia|].
  rewrite Z.min_l by lia. rewrite Nat2Z.id. apply str_drop_app.
Qed.

Lemma str_slice_from_end s i :
  Z.of_nat (String.length s) ≤ i → str_slice_from s i = "".
Proof.
  intros Hi. unfold str_slice_from.
  destruct (Z.ltb_spec i 0) as [?|_]; [lia|].
  rewrite Z.min_r by lia. rewrite Nat2Z.id. by apply str_drop_all.
Qed.

(** On this platform normalising [os.sep] to ["/"] changes nothing. *)
Lemma str_replace_sep s : str_replace_char os_sep "/" s = s.
Proof.
  induction s as [|c s IH]; simpl; [done|].
  destruct (Ascii.eqb_spec c os_sep) as [->|_]; by rewrite IH.
Qed.

Lemma str_nonempty_true s : str_nonempty s = true ↔ s ≠ "".
Proof. by destruct s. Qed.

Lemma str_find_from_shift s sub i :
  str_find_from s sub i = -1 ∧ str_find_from s sub 0 = -1
  ∨ 0 ≤ str_find_from s sub 0
    ∧ str_find_from s sub i = i + str_find_from s sub 0.
Proof.
  revert i. induction s as [|c s IH]; intros i; cbn [str_find_from].
  - destruct (String.prefix sub ""); [right; lia|by left].
  - destruct (String.prefix sub (String c s)); [right; lia|].
    destruct (IH (i + 1)) as [[Hi Hz]|[Hz Hi]],
             (IH (0 + 1)) as [[H1 Hz']|[Hz' H1]]; rewrite Hi, H1; lia.
Qed.

(** [str_find] gives the lowest index at which [sub] starts, and [-1]
    exactly when it starts nowhere. *)
Lemma str_find_lowest s sub (i : nat) :
  str_find s sub = Z.of_nat i ↔
  (i ≤ String.length s)%nat
  ∧ String.prefix sub (str_drop i s) = true
  ∧ ∀ j, (j < i)%nat → String.prefix sub (str_drop j s) = false.
Proof.
  unfold str_find. revert i.
  induction s as [|c s IH]; intros i.
  - cbn [str_find_from]. destruct (String.prefix sub "") eqn:Hp.
    + split.
      * intros Hi. assert (i = 0%nat) as -> by lia.
        repeat split; [done..|]. intros j ?; lia.
      * intros (Hi & _ & _). simpl in Hi. lia.
    + split; [lia|]. intros (Hi & Hpre & _). simpl in Hi.
      assert (i = 0%nat) as -> by lia. cbn [str_drop] in Hpre. congruence.
  - cbn [str_find_from]. destruct (String.prefix sub (String c s)) eqn:Hp.
    + split.
      * intros Hi. assert (i = 0%nat) as -> by lia.
        repeat split; [simpl; lia|done|]. intros j ?; lia.
      * intros (_ & _ & Hlow). destruct i as [|i]; [done|].
        specialize (Hlow 0%nat ltac:(lia)). cbn [str_drop] in Hlow. congruence.
    + destruct (str_find_from_shift s sub (0 + 1)) as [[-> Hnone]|[Hpos ->]].
      * split; [lia|]. intros (Hi & Hpre & Hlow).
        destruct i as [|i]; [cbn [str_drop] in Hpre; congruence|].
        assert (str_find_from s sub 0 = Z.of_nat i); [|lia].
        apply IH. repeat split; [simpl in Hi; lia|done|].
        intros j Hj. apply (Hlow (S j)). lia.
      * split.
        -- intros Hi. destruct i as [|i]; [lia|].
           assert (str_find_from s sub 0 = Z.of_nat i) as Hs by lia.
           apply IH in Hs as (Hlen & Hpre & Hlow).
           repeat split; [simpl; lia|done|].
           intros [|j] Hj; [done|]. apply Hlow. lia.
        -- intros (Hi & Hpre & Hlow).
           destruct i as [|i]; [cbn [str_drop] in Hpre; congruence|].
           assert (str_find_from s sub 0 = Z.of_nat i); [|lia].
           apply IH. repeat split; [simpl in Hi; lia|done|].
           intros j Hj. apply (Hlow (S j)). lia.
Qed.

Lemma str_find_absent s sub :
  str_find s sub = -1 ↔
  ∀ j, (j ≤ String.length s)%nat → String.prefix sub (str_drop j s) = false.
Proof.
  unfold str_find. induction s as [|c s IH].
  - cbn [str_find_from]. destruct (String.prefix sub "") eqn:Hp.
    + split; [lia|]. intros H. specialize (H 0%nat ltac:(done)).
      cbn [str_drop] in H. congruence.
    + split; [|done]. intros _ [|j] Hj; [done|simpl in Hj; lia].
  - cbn [str_find_from]. destruct (String.prefix sub (String c s)) eqn:Hp.
    + split; [lia|]. intros H. specialize (H 0%nat ltac:(lia)).
      cbn [str_drop] in H. congruence.
    + destruct (str_find_from_shift s sub (0 + 1)) as [[-> Hnone]|[Hpos ->]].
      * split; [|done]. intros _ [|j] Hj; [done|].
        cbn [str_drop]. apply IH; [done|]. simpl in Hj. lia.
      * split; [lia|]. intros H.
        assert (str_find_from s sub 0 = -1); [|lia].
        apply IH. intros j Hj. apply (H (S j)). simpl. lia.
Qed.

End Strings.

(** ** Turning found items into targets *)

Section ProcessFoundItems.
Import FileOperations.
Context (env : Env) (device_name file_extension : string).
Implicit Types (targets : list FileTarget.t) (items : list string).

Lemma existsb_src targets p :
  existsb (λ t, String.eqb (FileTarget.src t) p) targets = true
  ↔ p ∈ FileTarget.src <$> targets.
Proof.
  rewrite existsb_exists, list_elem_of_fmap. split.
  - intros (t & Ht%list_elem_of_In & Heq%String.eqb_eq). eauto.
  - intros (t & -> & Ht%list_elem_of_In). exists t.
    by rewrite String.eqb_refl.
Qed.

Lemma NoDup_src_inj targets t u :
  NoDup (FileTarget.src <$> targets) → t ∈ targets → u ∈ targets →
  FileTarget.src t = FileTarget.src u → t = u.
Proof.
  induction targets as [|v targets IH]; intros Hnd Ht Hu Heq.
  - by apply elem_of_nil in Ht.
  - rewrite fmap_cons in Hnd. apply NoDup_cons in Hnd as [Hv Hnd].
    apply elem_of_cons in Ht as [->|Ht], Hu as [->|Hu]; [done| | |by apply IH].
    + destruct Hv. rewrite Heq. by apply list_elem_of_fmap_2.
    + destruct Hv. rewrite <- Heq. by apply list_elem_of_fmap_2.
Qed.

Lemma add_targets_extends fs targets :
  ∃ suffix, add_targets device_name fs targets = targets ++ suffix.
Proof.
  revert targets. induction fs as [|[p d] fs IH]; intros targets; simpl.
  - exists []. by rewrite app_nil_r.
  - destruct (existsb _ targets); [apply IH|].
    destruct (IH (targets ++ [FileTarget.mk p device_name d false false]))
      as [suffix ->].
    eexists. by rewrite <- app_assoc.
Qed.

Lemma add_targets_NoDup fs targets :
  NoDup (FileTarget.src <$> targets) →
  NoDup (FileTarget.src <$> add_targets device_name fs targets).
Proof.
  revert targets. induction fs as [|[p d] fs IH]; intros targets Hnd; simpl.
  - done.
  - destruct (existsb _ targets) eqn:Hex; [by apply IH|].
    apply IH. rewrite fmap_app. apply NoDup_app. split; [done|].
    split; [|apply NoDup_singleton].
    intros q Hq ->%list_elem_of_singleton.
    apply existsb_src in Hq. simpl in Hq. congruence.
Qed.

Lemma add_targets_new p d targets :
  p ∉ FileTarget.src <$> targets →
  add_targets device_name [(p, d)] targets
  = targets ++ [FileTarget.mk p device_name d false false].
Proof.
  intros Hp. simpl. destruct (existsb _ targets) eqn:Hex; [|done].
  by apply existsb_src in Hex.
Qed.

Lemma process_items_app items1 items2 acc :
  process_items env (items1 ++ items2) device_name file_extension acc
  = process_items env items2 device_name file_extension
      (process_items env items1 device_name file_extension acc).
Proof.
  revert acc. induction items1 as [|item items1 IH]; intros acc; simpl.
  - done.
  - destruct (item_files env item file_extension) as [fs evs]. apply IH.
Qed.

Lemma process_items_extends items acc :
  ∃ ts evs,
    process_items env items device_name file_extension acc
    = (acc.1 ++ ts, acc.2 ++ evs).
Proof.
  revert acc. induction items as [|item items IH]; intros [targets evs0]; simpl.
  - exists [], []. by rewrite !app_nil_r.
  - destruct (item_files env item file_extension) as [[fs|] evs].
    + destruct (add_targets_extends fs targets) as [suffix ->].
      destruct (IH (targets ++ suffix, evs0 ++ evs)) as (ts & evs' & ->).
      simpl. eexists _, _. by rewrite <- !app_assoc.
    + destruct (IH (targets, evs0 ++ evs)) as (ts & evs' & ->).
      simpl. eexists _, _. by rewrite <- !app_assoc.
Qed.

Lemma process_items_NoDup items acc :
  NoDup (FileTarget.src <$> acc.1) →
  NoDup (FileTarget.src <$>
           (process_items env items device_name file_extension acc).1).
Proof.
  revert acc. induction items as [|item items IH]; intros [targets evs0] Hnd;
    simpl in *.
  - done.
  - destruct (item_files env item file_extension) as [[fs|] evs];
      apply IH; simpl; [by apply add_targets_NoDup|done].
Qed.

(** What one more item does to the targets found so far. *)
Lemma process_found_items_snoc items item :
  process_found_items env (items ++ [item]) device_name file_extension
  = let acc := process_found_items env items device_name file_extension in
    let '(fs, evs) := item_files env item file_extension in
    (match fs with
     | Some fs => add_targets device_name fs acc.1
     | None => acc.1
     end, acc.2 ++ evs).
Proof.
  unfold process_found_items. rewrite process_items_app. simpl.
  by destruct (item_files env item file_extension).
Qed.

Lemma process_found_items_middle items1 item items2 :
  ∃ ts evs,
    process_found_items env (items1 ++ item :: items2)
      device_name file_extension
    = ((process_found_items env (items1 ++ [item])
          device_name file_extension).1 ++ ts,
       (process_found_items env (items1 ++ [item])
          device_name file_extension).2 ++ evs).
Proof.
  unfold process_found_items.
  rewrite (cons_middle item), app_assoc, process_items_app.
  apply process_items_extends.
Qed.

Lemma process_found_items_NoDup items :
  NoDup (FileTarget.src <$>
           (process_found_items env items device_name file_extension).1).
Proof. apply process_items_NoDup. simpl. constructor. Qed.

(** The three outcomes of the exact-file branch. *)

Lemma anchor_lower : str_lower ANCHOR_PATTERN = "policy".
Proof. reflexivity. Qed.

Lemma item_files_anchor item pre tok c rest :
  isfile env item = true →
  str_endswith (str_lower item) ("." +:+ str_lower file_extension) = true →
  item = pre +:+ tok +:+ String c rest →
  str_lower tok = "policy" →
  str_find (str_lower item) "policy" = Z.of_nat (String.length pre) →
  rest ≠ "" →
  item_files env item file_extension = (Some [(item, rest)], []).
Proof.
  intros Hfile Hext Hitem Htok Hfind Hrest. unfold item_files.
  rewrite Hfile, Hext, anchor_lower, Hfind. simpl andb. cbv iota.
  destruct (Z.eqb_spec (Z.of_nat (String.length pre)) (-1)) as [?|_]; [lia|].
  simpl negb. cbv iota.
  assert (str_slice_from item
            (Z.of_nat (String.length pre)
             + Z.of_nat (String.length ANCHOR_PATTERN) + 1) = rest) as ->.
  { assert (String.length tok = 6%nat) as Hlen
      by (by rewrite <- str_lower_length, Htok).
    rewrite Hitem.
    replace (pre +:+ tok +:+ String c rest)
      with ((pre +:+ tok +:+ String c "") +:+ rest)
      by (by rewrite !str_app_assoc).
    replace (Z.of_nat (String.length pre)
             + Z.of_nat (String.length ANCHOR_PATTERN) + 1)
      with (Z.of_nat (String.length (pre +:+ tok +:+ String c ""))).
    - apply str_slice_from_app.
    - rewrite !str_length_app, Hlen. simpl. lia. }
  rewrite str_replace_sep.
  by apply str_nonempty_true in Hrest as ->.
Qed.

Lemma item_files_anchor_end item pre tok tail :
  isfile env item = true →
  str_endswith (str_lower item) ("." +:+ str_lower file_extension) = true →
  item = pre +:+ tok +:+ tail →
  str_lower tok = "policy" →
  (String.length tail ≤ 1)%nat →
  str_find (str_lower item) "policy" = Z.of_nat (String.length pre) →
  item_files env item file_extension
  = (Some [], [Error (MsgNoRelativePath item)]).
Proof.
  intros Hfile Hext Hitem Htok Htail Hfind. unfold item_files.
  rewrite Hfile, Hext, anchor_lower, Hfind. simpl andb. cbv iota.
  destruct (Z.eqb_spec (Z.of_nat (String.length pre)) (-1)) as [?|_]; [lia|].
  simpl negb. cbv iota.
  rewrite str_slice_from_end; [done|].
  assert (String.length tok = 6%nat) as Hlen
    by (by rewrite <- str_lower_length, Htok).
  rewrite Hitem, !str_length_app, Hlen. simpl. lia.
Qed.

Lemma item_files_no_anchor item :
  isfile env item = true →
  str_endswith (str_lower item) ("." +:+ str_lower file_extension) = true →
  str_find (str_lower item) "policy" = -1 →
  item_files env item file_extension
  = (Some [(item, basename item)], [Warning (MsgAnchorMissing item)]).
Proof.
  intros Hfile Hext Hfind. unfold item_files.
  by rewrite Hfile, Hext, anchor_lower, Hfind.
Qed.

(** An item whose [files] is a single fresh pair becomes the one target
    with that source. *)
Lemma single_file_kept items1 item items2 d evs :
  item_files env item file_extension = (Some [(item, d)], evs) →
  item ∉ FileTarget.src <$>
           (process_found_items env items1 device_name file_extension).1 →
  let result := process_found_items env (items1 ++ item :: items2)
                  device_name file_extension in
  (∀ t, t ∈ result.1 ∧ FileTarget.src t = item
        ↔ t = FileTarget.mk item device_name d false false)
  ∧ ∀ e, e ∈ evs → e ∈ result.2.
Proof.
  intros Hfiles Hfresh result. subst result.
  pose proof (process_found_items_NoDup (items1 ++ item :: items2)) as Hnd.
  destruct (process_found_items_middle items1 item items2)
    as (ts & evs' & Hmid).
  rewrite process_found_items_snoc, Hfiles in Hmid.
  cbv beta iota zeta in Hmid. cbn [fst snd] in Hmid.
  rewrite add_targets_new in Hmid by done.
  rewrite Hmid in Hnd |- *. cbn [fst snd] in Hnd |- *.
  assert (FileTarget.mk item device_name d false false
          ∈ ((process_found_items env items1 device_name file_extension).1
             ++ [FileTarget.mk item device_name d false false]) ++ ts) as Hin.
  { apply elem_of_app. left. apply elem_of_app. right. by left. }
  split.
  - intros t. split.
    + intros [Ht Hsrc]. exact (NoDup_src_inj _ _ _ Hnd Ht Hin Hsrc).
    + by intros ->.
  - intros e He. apply elem_of_app. left. apply elem_of_app. by right.
Qed.

End ProcessFoundItems.

(** ** Exact-file matches *)

(** What the exact-file branch computes.  An exact-file match (a regular
    file carrying the appliance's extension) that no earlier match of the
    appliance has already contributed becomes exactly one target.  When the
    anchor token ["policy"], compared without regard to case, first occurs
    right after [pre], its destination-relative path is everything after the
    token and the one character [c] that follows it, whatever that character
    is; normalising to forward slashes leaves it as it is on this platform.
    When the token does not occur, the target's destination-relative path is
    the base filename, and a warning is logged. *)
Lemma anchor_relative_path (env : Env)
    (found_before found_after : list string)
    (item device_name file_extension : string) :
  isfile env item = true →
  str_endswith (str_lower item) ("." +:+ str_lower file_extension) = true →
  item ∉ FileTarget.src <$>
           (FileOperations.process_found_items env found_before
              device_name file_extension).1 →
  let result :=
    FileOperations.process_found_items env (found_before ++ item :: found_after)
      device_name file_extension in
  (∀ pre tok c rest,
      item = pre +:+ tok +:+ String c rest →
      str_lower tok = "policy" →
      str_find (str_lower item) "policy" = Z.of_nat (String.length pre) →
      rest ≠ "" →
      str_replace_char os_sep "/" rest = rest
      ∧ ∀ t, t ∈ result.1 ∧ FileTarget.src t = item
             ↔ t = FileTarget.mk item device_name rest false false)
  ∧ (str_find (str_lower item) "policy" = -1 →
     (∀ t, t ∈ result.1 ∧ FileTarget.src t = item
           ↔ t = FileTarget.mk item device_name (basename item) false false)
     ∧ Warning (MsgAnchorMissing item) ∈ result.2).
Proof.
  intros Hfile Hext Hfresh result. split.
  - intros pre tok c rest Hitem Htok Hfind Hrest.
    split; [apply str_replace_sep|].
    eapply single_file_kept; [|done].
    by eapply item_files_anchor.
  - intros Hfind.
    destruct (single_file_kept env device_name file_extension
                found_before item found_after (basename item)
                [Warning (MsgAnchorMissing item)]) as [Hone Hevs];
      [by apply item_files_no_anchor|done|].
    split; [done|]. apply Hevs. by left.
Qed.

(** The path of the specification's example, and a path without the
    anchor token. *)
Lemma anchor_relative_path_sample :
  FileTarget.mk zeek_rule "zeek" "protocols/ssh/detect-bruteforcing.zeek"
    false false
  ∈ (FileOperations.process_found_items sample_host [zeek_rule]
       "zeek" "zeek").1
  ∧ FileTarget.mk "/opt/bro/site/local.zeek" "zeek" "local.zeek" false false
    ∈ (FileOperations.process_found_items sample_host
         ["/opt/bro/site/local.zeek"] "zeek" "zeek").1.
Proof.
  split.
  - destruct (anchor_relative_path sample_host [] [] zeek_rule "zeek" "zeek"
                eq_refl eq_refl (not_elem_of_nil _)) as [Hanchor _].
    destruct (Hanchor "/opt/zeek/share/zeek/" "policy" "/"%char
                "protocols/ssh/detect-bruteforcing.zeek"
                eq_refl eq_refl eq_refl ltac:(discriminate)) as [_ Hone].
    exact (proj1 (proj2 (Hone _) eq_refl)).
  - destruct (anchor_relative_path sample_host [] []
                "/opt/bro/site/local.zeek" "zeek" "zeek"
                eq_refl eq_refl (not_elem_of_nil _)) as [_ Habsent].
    destruct (Habsent eq_refl) as [Hone _].
    exact (proj1 (proj2 (Hone _) eq_refl)).
Defined.

(** C5 (the code departs from it).  The code looks for ["policy"], not for
    ["policy/"], and then skips one character whatever it is, where its
    comments say that the character skipped is the path separator.  On the
    path of the specification's example that character is the separator, and
    the relative destination is what follows it.  On a path whose first
    ["policy"] goes on as ["policy2"] the character skipped is the ["2"]:
    the relative destination is ["/tuning.zeek"], which starts with the
    separator that was to be skipped, and [os.path.join] then binds the file
    for that absolute path, outside the output directory. *)
Theorem anchor_offset_skips_any_character :
  (FileOperations.process_found_items sample_host [zeek_rule] "zeek" "zeek").1
  = [FileTarget.mk zeek_rule "zeek" "protocols/ssh/detect-bruteforcing.zeek"
       false false]
  ∧ (FileOperations.process_found_items versioned_host [versioned_rule]
       "zeek" "zeek").1
    = [FileTarget.mk versioned_rule "zeek" "/tuning.zeek" false false]
  ∧ FileOperations.destination_of
      (FileTarget.mk versioned_rule "zeek" "/tuning.zeek" false false)
    = "/tuning.zeek"
  ∧ below OUTPUT_DIR "/tuning.zeek" = false.
Proof. repeat split; reflexivity. Qed.

Lemma process_items_targets_indep env items device_name file_extension
    (targets : list FileTarget.t) (evs1 evs2 : list event) :
  (FileOperations.process_items env items device_name file_extension
     (targets, evs1)).1
  = (FileOperations.process_items env items device_name file_extension
       (targets, evs2)).1.
Proof.
  revert targets evs1 evs2.
  induction items as [|item items IH]; intros targets evs1 evs2; simpl.
  - done.
  - destruct (FileOperations.item_files env item file_extension) as [fs evs].
    apply IH.
Qed.

(** C10.  An exact-file match in which the anchor token is followed by at
    most one character has an empty destination-relative path: it adds no
    target at all (the targets are those of the other matches) and an error
    is logged; whereas a match without the anchor token is kept, under its
    base filename. *)
Theorem empty_relative_path_dropped (env : Env)
    (found_before found_after : list string)
    (item device_name file_extension pre tok tail : string) :
  isfile env item = true →
  str_endswith (str_lower item) ("." +:+ str_lower file_extension) = true →
  item = pre +:+ tok +:+ tail →
  str_lower tok = "policy" →
  (String.length tail ≤ 1)%nat →
  str_find (str_lower item) "policy" = Z.of_nat (String.length pre) →
  let result :=
    FileOperations.process_found_items env (found_before ++ item :: found_after)
      device_name file_extension in
  result.1 = (FileOperations.process_found_items env
                (found_before ++ found_after) device_name file_extension).1
  ∧ Error (MsgNoRelativePath item) ∈ result.2
  ∧ ∀ other,
      isfile env other = true →
      str_endswith (str_lower other) ("." +:+ str_lower file_extension) = true →
      str_find (str_lower other) "policy" = -1 →
      other ∉ FileTarget.src <$>
                (FileOperations.process_found_items env found_before
                   device_name file_extension).1 →
      FileTarget.mk other device_name (basename other) false false
      ∈ (FileOperations.process_found_items env
           (found_before ++ other :: found_after)
           device_name file_extension).1.
Proof.
  intros Hfile Hext Hitem Htok Htail Hfind result. subst result.
  pose proof (item_files_anchor_end env file_extension item pre tok tail
                Hfile Hext Hitem Htok Htail Hfind) as Hfiles.
  split; [|split].
  3:{ intros other Hfile' Hext' Hfind' Hfresh.
      destruct (single_file_kept env device_name file_extension
                  found_before other found_after (basename other)
                  [Warning (MsgAnchorMissing other)]) as [Hone _];
        [by apply item_files_no_anchor|done|].
      exact (proj1 (proj2 (Hone _) eq_refl)). }
  all: unfold FileOperations.process_found_items.
  all: rewrite (cons_middle item), app_assoc, !process_items_app.
  all: destruct (FileOperations.process_items env found_before device_name
                   file_extension ([], [])) as [targets evs] eqn:Hbefore.
  all: cbn [FileOperations.process_items]; rewrite Hfiles.
  all: cbn [FileOperations.add_targets fst snd].
  - apply process_items_targets_indep.
  - destruct (process_items_extends env device_name file_extension found_after
                (targets, evs ++ [Error (MsgNoRelativePath item)]))
      as (ts & evs' & ->).
    cbn [fst snd]. apply elem_of_app. left. apply elem_of_app. right. by left.
Qed.


Lemma empty_relative_path_dropped_witness :
  (FileOperations.process_found_items sample_host
     ["/opt/bro/site/local.zeek"; "/srv/policy."] "zeek" "").1
  = (FileOperations.process_found_items sample_host
       ["/opt/bro/site/local.zeek"] "zeek" "").1
  ∧ Error (MsgNoRelativePath "/srv/policy.")
    ∈ (FileOperations.process_found_items sample_host
         ["/opt/bro/site/local.zeek"; "/srv/policy."] "zeek" "").2.
Proof.
  destruct (empty_relative_path_dropped sample_host
              ["/opt/bro/site/local.zeek"] [] "/srv/policy." "zeek" ""
              "/srv/" "policy" "."
              eq_refl eq_refl eq_refl eq_refl ltac:(simpl; lia) eq_refl)
    as (Htargets & Herror & _).
  split; [exact Htargets|exact Herror].
Defined.

(** ** The extension filter *)

(** C9 (the code departs from it).  With an empty extension, the files
    found by walking a matched directory are all kept, and
    [enumerate_directory_files] keeps a single file too; but the exact-file
    branch of [process_found_items] tests the name against ["."] followed by
    the empty extension, so a matched file whose name does not end in a dot
    falls through both branches and gives no target. *)
Theorem exact_file_lost_without_extension :
  (FileOperations.process_found_items sample_host [zeek_rule] "zeek" "").1 = []
  ∧ FileUtils.enumerate_directory_files sample_host zeek_rule ""
    = [(zeek_rule, "detect-bruteforcing.zeek")]
  ∧ FileTarget.src <$>
      (FileOperations.process_found_items sample_host ["/etc/suricata/rules"]
         "suricata" "").1
    = ["/etc/suricata/rules/local.rules"; "/etc/suricata/rules/README";
       "/etc/suricata/rules/emerging/scan.rules"].
Proof. repeat split; reflexivity. Qed.

(** ** Hashing and change classification *)

Section Hashing.
Import FileOperations.
Context (env : Env) (files old : gmap string string).
Hypothesis digest_nonempty : ∀ content, md5_hexdigest env content ≠ "".

(** The digest of the file at [p], when it can be read. *)
Let digest (p : string) : option string := md5_hexdigest env <$> files !! p.

Implicit Types (targets changed : list FileTarget.t)
  (new : gmap string string) (evs : list event).

Lemma hash_loop_cons t targets new changed n evs :
  hash_loop env files old (t :: targets) (new, changed, n, evs)
  = hash_loop env files old targets
      match digest (FileTarget.src t) with
      | Some h =>
          if decide (old !! FileTarget.src t = Some h)
          then (<[FileTarget.src t := h]> new, changed, S n, evs)
          else (<[FileTarget.src t := h]> new, changed ++ [t], n, evs)
      | None =>
          (new, changed, n, evs ++ [Error (MsgHashFailed (FileTarget.src t))])
      end.
Proof.
  cbn [hash_loop]. unfold FileUtils.calculate_file_hash, digest.
  destruct (files !! FileTarget.src t) as [content|]; cbn [fmap option_fmap option_map].
  - pose proof (digest_nonempty content) as Hne.
    apply str_nonempty_true in Hne as ->.
    rewrite app_nil_r. by case_bool_decide; case_decide.
  - done.
Qed.

Lemma hash_loop_record targets new changed n evs p :
  (hash_loop env files old targets (new, changed, n, evs)).1.1.1 !! p
  = if decide (p ∈ FileTarget.src <$> targets)
    then match digest p with Some h => Some h | None => new !! p end
    else new !! p.
Proof.
  revert new changed n evs.
  induction targets as [|t targets IH]; intros new changed n evs.
  - cbn [hash_loop fst snd]. rewrite fmap_nil.
    case_decide as Hin; [by apply elem_of_nil in Hin|done].
  - rewrite hash_loop_cons, fmap_cons.
    destruct (digest (FileTarget.src t)) as [h|] eqn:Hd;
      [destruct (decide (old !! FileTarget.src t = Some h))|];
      rewrite IH; repeat case_decide; try set_solver;
      try (destruct (decide (p = FileTarget.src t)) as [->|Hne];
           [rewrite ?Hd, ?lookup_insert_eq; try done; set_solver
           |rewrite ?lookup_insert_ne by done; try done; set_solver]).
Qed.

Lemma hash_loop_changed targets new changed n evs :
  (hash_loop env files old targets (new, changed, n, evs)).1.1.2
  = changed
    ++ filter (λ t, is_Some (digest (FileTarget.src t))
                    ∧ old !! FileTarget.src t ≠ digest (FileTarget.src t))
              targets.
Proof.
  revert new changed n evs.
  induction targets as [|t targets IH]; intros new changed n evs.
  - simpl. by rewrite app_nil_r.
  - rewrite hash_loop_cons, filter_cons.
    destruct (digest (FileTarget.src t)) as [h|] eqn:Hd;
      [destruct (decide (old !! FileTarget.src t = Some h)) as [Ho|Ho]|];
      rewrite IH; case_decide as Hc.
    + by destruct Hc.
    + done.
    + by rewrite <- app_assoc.
    + destruct Hc. by split.
    + by destruct Hc as [[? ?] _].
    + done.
Qed.

Lemma hash_loop_unchanged targets new changed n evs :
  (hash_loop env files old targets (new, changed, n, evs)).1.2
  = (n + length
           (filter (λ t, is_Some (digest (FileTarget.src t))
                         ∧ old !! FileTarget.src t
                           = digest (FileTarget.src t))
                   targets))%nat.
Proof.
  revert new changed n evs.
  induction targets as [|t targets IH]; intros new changed n evs.
  - simpl. lia.
  - rewrite hash_loop_cons, filter_cons.
    destruct (digest (FileTarget.src t)) as [h|] eqn:Hd;
      [destruct (decide (old !! FileTarget.src t = Some h)) as [Ho|Ho]|];
      rewrite IH; case_decide as Hc; simpl; try lia.
    + destruct Hc. by split.
    + by destruct Hc.
    + by destruct Hc as [[? ?] _].
Qed.

Lemma hash_loop_events targets new changed n evs :
  ∃ evs', (hash_loop env files old targets (new, changed, n, evs)).2
          = evs ++ evs'
          ∧ ∀ t, t ∈ targets → digest (FileTarget.src t) = None →
                 Error (MsgHashFailed (FileTarget.src t)) ∈ evs'.
Proof.
  revert new changed n evs.
  induction targets as [|t targets IH]; intros new changed n evs.
  - exists []. simpl. split; [by rewrite app_nil_r|].
    by intros t ?%elem_of_nil.
  - rewrite hash_loop_cons.
    destruct (digest (FileTarget.src t)) as [h|] eqn:Hd;
      [destruct (decide (old !! FileTarget.src t = Some h)) as [Ho|Ho]|].
    1: destruct (IH (<[FileTarget.src t := h]> new) changed (S n) evs)
         as (evs' & Heq & Hev).
    2: destruct (IH (<[FileTarget.src t := h]> new) (changed ++ [t]) n evs)
         as (evs' & Heq & Hev).
    1,2: exists evs'; (split; [done|]);
         intros u [->|Hu]%elem_of_cons Hnone; [congruence|by apply Hev].
    destruct (IH new changed n
                (evs ++ [Error (MsgHashFailed (FileTarget.src t))]))
      as (evs' & -> & Hev).
    exists (Error (MsgHashFailed (FileTarget.src t)) :: evs').
    split; [by rewrite <- app_assoc|].
    intros u [->|Hu]%elem_of_cons Hnone; [by left|right; by apply Hev].
Qed.

End Hashing.

(** C3.  The hashing phase never fails as a whole.  Among the targets
    whose file can be read, exactly those whose source path is absent from
    the previous record, or recorded with another digest, are classified as
    changed, in order; the others are counted as unchanged.  A target whose
    file cannot be read is in neither the changed list nor the new record,
    and an error is logged for it.  The new record holds, for every target
    that was hashed, its path with the digest just computed, and nothing
    else. *)
Theorem hashing_classifies_targets (env : Env) (files old : gmap string string)
    (targets : list FileTarget.t) :
  (∀ content, md5_hexdigest env content ≠ "") →
  let digest p := md5_hexdigest env <$> files !! p in
  let result := FileOperations.calculate_file_hashes env files targets old in
  let new_hash_record := result.1.1.1 in
  let changed_files := result.1.1.2 in
  let unchanged_count := result.1.2 in
  changed_files
  = filter (λ t, is_Some (digest (FileTarget.src t))
                 ∧ old !! FileTarget.src t ≠ digest (FileTarget.src t))
           targets
  ∧ unchanged_count
    = length (filter (λ t, is_Some (digest (FileTarget.src t))
                           ∧ old !! FileTarget.src t
                             = digest (FileTarget.src t))
                     targets)
  ∧ (∀ t, t ∈ targets → is_Some (digest (FileTarget.src t)) →
          (t ∈ changed_files
           ↔ old !! FileTarget.src t = None
             ∨ ∃ h, old !! FileTarget.src t = Some h
                    ∧ Some h ≠ digest (FileTarget.src t)))
  ∧ (∀ t, t ∈ targets → digest (FileTarget.src t) = None →
          (t ∉ changed_files)
          ∧ new_hash_record !! FileTarget.src t = None
          ∧ Error (MsgHashFailed (FileTarget.src t)) ∈ result.2)
  ∧ (∀ p, new_hash_record !! p
          = if decide (p ∈ FileTarget.src <$> targets) then digest p
            else None).
Proof.
  intros Hne digest result new_hash_record changed_files unchanged_count.
  assert (changed_files
          = filter (λ t, is_Some (digest (FileTarget.src t))
                         ∧ old !! FileTarget.src t ≠ digest (FileTarget.src t))
                   targets) as Hchanged
    by apply (hash_loop_changed env files old Hne targets ∅ [] 0%nat []).
  assert (∀ p, new_hash_record !! p
               = if decide (p ∈ FileTarget.src <$> targets) then digest p
                 else None) as Hrecord.
  { intros p. unfold new_hash_record, result, FileOperations.calculate_file_hashes.
    rewrite (hash_loop_record env files old Hne). rewrite lookup_empty.
    fold (digest p). by destruct (digest p). }
  split; [done|]. split.
  { apply (hash_loop_unchanged env files old Hne targets ∅ [] 0%nat []). }
  split; [|split; [|done]].
  - intros t Ht [h Hd]. rewrite Hchanged, list_elem_of_filter, Hd.
    destruct (old !! FileTarget.src t) as [h'|] eqn:Ho.
    + split.
      * intros [[_ Hdiff] _]. right. exists h'. split; [done|congruence].
      * intros [?|(h'' & [= <-] & Hdiff)]; [done|]. repeat split; eauto.
    + split; [by left|]. intros _. repeat split; eauto.
  - intros t Ht Hd. split; [|split].
    + rewrite Hchanged, list_elem_of_filter, Hd.
      intros [[[? ?] _] _]. done.
    + rewrite Hrecord, Hd. by case_decide.
    + destruct (hash_loop_events env files old Hne targets ∅ [] 0%nat [])
        as (evs' & Heq & Hev).
      unfold result, FileOperations.calculate_file_hashes. rewrite Heq.
      by apply Hev.
Qed.

Lemma sample_digest_nonempty content : md5_hexdigest sample_host content ≠ "".
Proof. done. Qed.

Lemma hashing_classifies_targets_witness :
  (FileOperations.calculate_file_hashes sample_host sample_store
     sample_targets sample_old_record).1.1.2
  = [sample_target "/etc/suricata/rules/emerging/scan.rules"]
  ∧ (FileOperations.calculate_file_hashes sample_host sample_store
       sample_targets sample_old_record).1.2 = 1%nat.
Proof.
  destruct (hashing_classifies_targets sample_host sample_store
              sample_old_record sample_targets sample_digest_nonempty)
    as (Hchanged & Hunchanged & _).
  split.
  - rewrite Hchanged. reflexivity.
  - rewrite Hunchanged. reflexivity.
Defined.

(** ** The tiered search *)

Section TieredSearch.
Import RulesCollector.
Context (env : Env) (patterns : list string).

(** The matches of one probe. *)
Let probe (base_paths : list string) : list string :=
  (FileOperations.search_rule_files env patterns base_paths).1.

Lemma probed_app evs1 evs2 : probed (evs1 ++ evs2) = probed evs1 ++ probed evs2.
Proof. apply omap_app. Qed.

Lemma search_patterns_no_probe base_path pats acc :
  probed acc.2 = [] →
  probed (FileUtils.search_patterns env base_path pats acc).2 = [].
Proof.
  revert acc. induction pats as [|pattern pats IH]; intros [found evs] Hacc;
    simpl in *; [done|].
  destruct (glob env _); apply IH; simpl; rewrite probed_app, Hacc; done.
Qed.

Lemma search_files_no_probe base_paths :
  probed (FileUtils.search_files env patterns base_paths).2 = [].
Proof.
  unfold FileUtils.search_files.
  assert (probed (([] : list string, [] : list event)).2 = []) as Hacc by done.
  revert Hacc. generalize (([] : list string), ([] : list event)).
  induction base_paths as [|base_path base_paths IH]; intros acc Hacc; simpl.
  - done.
  - apply IH. by apply search_patterns_no_probe.
Qed.

Lemma search_rule_files_probed base_paths :
  probed (FileOperations.search_rule_files env patterns base_paths).2
  = [base_paths].
Proof.
  unfold FileOperations.search_rule_files.
  pose proof (search_files_no_probe base_paths) as Hno.
  destruct (FileUtils.search_files env patterns base_paths) as [found errs].
  simpl in *. by rewrite Hno.
Qed.

Lemma search_tiers_miss (tiers : list (string * list string)) :
  Forall (λ base_paths, probe base_paths = []) tiers.*2 →
  (search_tiers env patterns tiers).1 = []
  ∧ probed (search_tiers env patterns tiers).2 = tiers.*2.
Proof.
  induction tiers as [|[description search_paths] tiers IH]; intros Hall.
  - done.
  - rewrite fmap_cons in Hall. apply Forall_cons in Hall as [Hmiss Hall].
    destruct (IH Hall) as [Hfound Hprobed].
    cbn [search_tiers]. unfold probe in Hmiss. simpl in Hmiss.
    pose proof (search_rule_files_probed search_paths) as Hone.
    destruct (FileOperations.search_rule_files env patterns search_paths)
      as [matched_items evs].
    simpl in Hmiss, Hone. subst matched_items.
    destruct (search_tiers env patterns tiers) as [found_items evs'].
    simpl in *. by rewrite probed_app, Hone, Hprobed.
Qed.

Lemma search_tiers_hit (tiers : list (string * list string))
    (before : list (list string)) (tier : list string)
    (after : list (list string)) :
  tiers.*2 = before ++ tier :: after →
  Forall (λ base_paths, probe base_paths = []) before →
  probe tier ≠ [] →
  (search_tiers env patterns tiers).1 = probe tier
  ∧ probed (search_tiers env patterns tiers).2 = before ++ [tier].
Proof.
  revert before.
  induction tiers as [|[description search_paths] tiers IH];
    intros before Htiers Hbefore Hhit.
  - by destruct before.
  - rewrite fmap_cons in Htiers. cbn [search_tiers].
    pose proof (search_rule_files_probed search_paths) as Hone.
    destruct before as [|b before]; simplify_eq/=.
    + unfold probe in Hhit |- *.
      destruct (FileOperations.search_rule_files env patterns tier)
        as [[|m matched_items] evs]; [done|]. done.
    + apply Forall_cons in Hbefore as [Hmiss Hbefore].
      destruct (IH before H0 Hbefore Hhit) as [Hfound Hprobed].
      unfold probe in Hmiss.
      destruct (FileOperations.search_rule_files env patterns b)
        as [matched_items evs].
      simpl in Hmiss, Hone. subst matched_items.
      destruct (search_tiers env patterns tiers) as [found_items evs'].
      simpl in *. by rewrite probed_app, Hone, Hprobed.
Qed.

End TieredSearch.

Lemma process_local_device_fresh env device_name device_config use_cache
    verified_cache new_path_cache :
  RulesCollector.cache_usable use_cache verified_cache device_name = false →
  (RulesCollector._process_local_device env device_name device_config
     use_cache verified_cache new_path_cache).1.1
  = (FileOperations.process_found_items env
       (RulesCollector._search_device_paths env device_config).1
       device_name (DeviceConfig.file_type device_config)).1.
Proof.
  intros Hfresh. unfold RulesCollector._process_local_device.
  rewrite Hfresh. simpl negb. cbv iota.
  destruct (RulesCollector._search_device_paths env device_config)
    as [found_items evs]. cbn [fst].
  by destruct (FileOperations.process_found_items env found_items device_name
                 (DeviceConfig.file_type device_config)).
Qed.

(** C1.  A local appliance without a usable path cache is searched tier by
    tier, in the configured order (common paths, home directory, program
    directories).  The first tier with a match ends the search: its matches
    alone are the found items and no later tier is probed.  When no tier has
    a match, one more probe rooted at ["/"] is made, and its matches, possibly
    none, are the found items. *)
Theorem tiered_search_first_match (env : Env) (device_config : DeviceConfig.t) :
  let patterns := DeviceConfig.relative_path device_config in
  let tiers := (SCAN_ORDER_PRIORITY env).*2 in
  let probe base_paths :=
    (FileOperations.search_rule_files env patterns base_paths).1 in
  let result := RulesCollector._search_device_paths env device_config in
  tiers = [COMMON_PATHS; [home env]; PROGRAM_PATHS]
  ∧ (∀ before tier after,
        tiers = before ++ tier :: after →
        Forall (λ base_paths, probe base_paths = []) before →
        probe tier ≠ [] →
        result.1 = probe tier ∧ probed result.2 = before ++ [tier])
  ∧ (Forall (λ base_paths, probe base_paths = []) tiers →
     result.1 = probe ["/"] ∧ probed result.2 = tiers ++ [["/"]])
  ∧ (∀ device_name use_cache verified_cache new_path_cache,
        RulesCollector.cache_usable use_cache verified_cache device_name
        = false →
        (RulesCollector._process_local_device env device_name device_config
           use_cache verified_cache new_path_cache).1.1
        = (FileOperations.process_found_items env result.1 device_name
             (DeviceConfig.file_type device_config)).1).
Proof.
  intros patterns tiers probe result. split; [done|]. split; [|split].
  - intros before tier after Htiers Hbefore Hhit.
    destruct (search_tiers_hit env patterns (SCAN_ORDER_PRIORITY env)
                before tier after Htiers Hbefore Hhit) as [Hfound Hprobed].
    unfold probe in *.
    unfold result, RulesCollector._search_device_paths. fold patterns.
    destruct (RulesCollector.search_tiers env patterns (SCAN_ORDER_PRIORITY env))
      as [[|m found_items] evs]; simpl in *; [by rewrite <- Hfound in Hhit|].
    done.
  - intros Hmiss.
    destruct (search_tiers_miss env patterns (SCAN_ORDER_PRIORITY env) Hmiss)
      as [Hfound Hprobed].
    unfold result, RulesCollector._search_device_paths. fold patterns.
    destruct (RulesCollector.search_tiers env patterns (SCAN_ORDER_PRIORITY env))
      as [found_items evs]; simpl in Hfound, Hprobed. subst found_items.
    pose proof (search_rule_files_probed env patterns ["/"]) as Hroot.
    unfold probe.
    destruct (FileOperations.search_rule_files env patterns ["/"])
      as [matched_items evs'].
    simpl in *. split; [done|].
    rewrite probed_app. simpl. by rewrite Hprobed, Hroot.
  - intros device_name use_cache verified_cache new_path_cache.
    apply process_local_device_fresh.
Qed.

(** On the sample host the rule is found in the first tier although the home
    directory has a copy; on the bare host every tier and then the root are
    probed. *)
Lemma tiered_search_first_match_witness :
  RulesCollector._search_device_paths sample_host zeek_device
  = ([zeek_rule], [Probe [zeek_pattern] COMMON_PATHS])
  ∧ (FileOperations.search_rule_files sample_host [zeek_pattern] ["/root"]).1
    = [zeek_rule_home]
  ∧ probed (RulesCollector._search_device_paths bare_host zeek_device).2
    = [COMMON_PATHS; ["/root"]; PROGRAM_PATHS; ["/"]].
Proof.
  destruct (tiered_search_first_match sample_host zeek_device)
    as (_ & Hhit & _).
  destruct (Hhit [] COMMON_PATHS [[home sample_host]; PROGRAM_PATHS]
              eq_refl (Forall_nil_2 _) ltac:(discriminate)) as [Hfound _].
  destruct (tiered_search_first_match bare_host zeek_device)
    as (_ & _ & Hmiss & _).
  destruct (Hmiss ltac:(repeat constructor)) as [_ Hprobed].
  split; [reflexivity|]. split; [reflexivity|exact Hprobed].
Defined.

(** ** The scan strategy *)

Section ScanStrategy.
Import RulesCollector.
Context (env : Env).
Implicit Types (path_cache : gmap string (list PathInfo.t)).

Lemma verify_lookup path_cache device :
  (CacheManager.verify_cached_paths env path_cache).1 !! device
  = List.filter (CacheManager.still_exists env) <$> path_cache !! device.
Proof. unfold CacheManager.verify_cached_paths. simpl. apply lookup_fmap. Qed.

Lemma has_valid_cache_true (verified_cache : gmap string (list PathInfo.t)) :
  has_valid_cache verified_cache = true
  ↔ ∃ device paths path_info,
      verified_cache !! device = Some paths ∧ path_info ∈ paths.
Proof.
  unfold has_valid_cache. rewrite existsb_exists. split.
  - intros ([device paths] & Hin%list_elem_of_In%elem_of_map_to_list & Hlen).
    simpl in Hlen. destruct paths as [|path_info paths]; [done|].
    exists device, (path_info :: paths), path_info. split; [done|by left].
  - intros (device & paths & path_info & Hlookup & Hin).
    exists (device, paths). split.
    + by apply list_elem_of_In, elem_of_map_to_list.
    + destruct paths; [by apply elem_of_nil in Hin|done].
Qed.

Lemma valid_entry_survives path_cache :
  (∃ device paths path_info,
      (CacheManager.verify_cached_paths env path_cache).1 !! device
      = Some paths ∧ path_info ∈ paths)
  ↔ ∃ device paths path_info,
      path_cache !! device = Some paths ∧ path_info ∈ paths
      ∧ path_exists env (PathInfo.path path_info) = true.
Proof.
  split.
  - intros (device & paths & path_info & Hlookup & Hin).
    rewrite verify_lookup in Hlookup.
    destruct (path_cache !! device) as [cached|] eqn:Hc; simplify_eq/=.
    apply list_elem_of_In, filter_In in Hin as [Hin Hex].
    exists device, cached, path_info. by rewrite list_elem_of_In.
  - intros (device & paths & path_info & Hlookup & Hin & Hex).
    exists device, (List.filter (CacheManager.still_exists env) paths),
           path_info.
    rewrite verify_lookup, Hlookup. split; [done|].
    apply list_elem_of_In, filter_In. by rewrite <- list_elem_of_In.
Qed.

End ScanStrategy.

(** C4.  The path cache is the basis of a run exactly when the run is not a
    forced rescan, the loaded cache is not empty and at least one cached
    entry of some appliance still exists.  The decision is one value for the
    whole run: either the whole verified cache is handed on, or nothing is
    and every local appliance is searched afresh. *)
Theorem cache_decision_is_global (env : Env) (force_rescan : bool)
    (path_cache : gmap string (list PathInfo.t)) :
  let decision :=
    (RulesCollector._decide_scan_strategy env force_rescan path_cache).1 in
  let use_cache := decision.1 in
  let verified_cache := decision.2 in
  (use_cache = true
   ↔ force_rescan = false
     ∧ path_cache ≠ ∅
     ∧ ∃ device paths path_info,
         path_cache !! device = Some paths ∧ path_info ∈ paths
         ∧ path_exists env (PathInfo.path path_info) = true)
  ∧ (use_cache = true →
     ∀ device, verified_cache !! device
               = List.filter (CacheManager.still_exists env)
                   <$> path_cache !! device)
  ∧ (use_cache = false →
     verified_cache = ∅
     ∧ ∀ device_name device_config new_path_cache,
         (RulesCollector._process_local_device env device_name device_config
            use_cache verified_cache new_path_cache).1.1
         = (FileOperations.process_found_items env
              (RulesCollector._search_device_paths env device_config).1
              device_name (DeviceConfig.file_type device_config)).1).
Proof.
  intros decision use_cache verified_cache.
  subst use_cache verified_cache decision.
  unfold RulesCollector._decide_scan_strategy.
  pose proof (has_valid_cache_true
                (CacheManager.verify_cached_paths env path_cache).1) as Hvalid.
  pose proof (valid_entry_survives env path_cache) as Hsurvive.
  pose proof (verify_lookup env path_cache) as Hlookup.
  destruct (CacheManager.verify_cached_paths env path_cache)
    as [verified evs] eqn:Hverify.
  cbn [fst snd] in *.
  assert (∀ device_name device_config new_path_cache,
            (RulesCollector._process_local_device env device_name
               device_config false ∅ new_path_cache).1.1
            = (FileOperations.process_found_items env
                 (RulesCollector._search_device_paths env device_config).1
                 device_name (DeviceConfig.file_type device_config)).1)
    as Hfresh by (intros; by apply process_local_device_fresh).
  destruct force_rescan; cbn [negb andb fst snd].
  { split; [|split]; [split; [done|by intros [? _]]|done|done]. }
  case_bool_decide as Hempty; cbn [negb fst snd].
  { split; [|split]; [split; [done|by intros (_ & ? & _)]|done|done]. }
  destruct (RulesCollector.has_valid_cache verified) eqn:Hhas; cbn [fst snd].
  - split; [|split]; [|done|done].
    split; [|done]. intros _. split; [done|]. split; [done|].
    by apply Hsurvive, Hvalid.
  - split; [|split]; [|done|done].
    split; [done|]. intros (_ & _ & Hentry).
    apply Hsurvive, Hvalid in Hentry. congruence.
Qed.

Lemma cache_decision_is_global_witness :
  (RulesCollector._decide_scan_strategy sample_host false sample_path_cache).1.1
  = true.
Proof.
  apply (cache_decision_is_global sample_host false sample_path_cache).
  split; [reflexivity|]. split; [discriminate|].
  exists "zeek",
    [PathInfo.mk zeek_rule "protocols/ssh/detect-bruteforcing.zeek"],
    (PathInfo.mk zeek_rule "protocols/ssh/detect-bruteforcing.zeek").
  split; [reflexivity|]. split; [by left|reflexivity].
Defined.

(** ** The scan over the devices *)

Section Scan.
Import RulesCollector.
Context (env : Env) (use_cache : bool)
  (verified_cache : gmap string (list PathInfo.t)).

Lemma process_cached_paths_targets device_name cached_paths
    (cache1 cache2 : gmap string (list PathInfo.t)) :
  (_process_cached_paths env device_name cached_paths cache1).1
  = (_process_cached_paths env device_name cached_paths cache2).1.
Proof.
  revert cache1 cache2.
  induction cached_paths as [|path_info cached_paths IH];
    intros cache1 cache2; simpl; [done|].
  destruct (path_exists env (PathInfo.path path_info)); [|apply IH].
  specialize (IH (cache_append device_name
                    (PathInfo.mk (PathInfo.path path_info)
                                 (PathInfo.dest_rel path_info)) cache1)
                 (cache_append device_name
                    (PathInfo.mk (PathInfo.path path_info)
                                 (PathInfo.dest_rel path_info)) cache2)).
  destruct (_process_cached_paths env device_name cached_paths
              (cache_append _ _ cache1)),
           (_process_cached_paths env device_name cached_paths
              (cache_append _ _ cache2)).
  simpl in *. by rewrite IH.
Qed.

Lemma process_local_device_targets device_name device_config
    (cache1 cache2 : gmap string (list PathInfo.t)) :
  (_process_local_device env device_name device_config use_cache
     verified_cache cache1).1.1
  = (_process_local_device env device_name device_config use_cache
       verified_cache cache2).1.1.
Proof.
  unfold _process_local_device.
  destruct (cache_usable use_cache verified_cache device_name); simpl.
  - pose proof (process_cached_paths_targets device_name
                  (default [] (verified_cache !! device_name)) cache1 cache2)
      as Hsame.
    destruct (_process_cached_paths env device_name _ cache1),
             (_process_cached_paths env device_name _ cache2).
    simpl in *. by rewrite Hsame.
  - destruct (_search_device_paths env device_config) as [found_items evs].
    by destruct (FileOperations.process_found_items env found_items
                   device_name (DeviceConfig.file_type device_config)).
Qed.

Lemma scan_devices_targets devices all_targets new_path_cache w :
  (scan_devices env use_cache verified_cache devices all_targets
     new_path_cache w).1.1
  = all_targets
    ++ flat_map (device_targets env use_cache verified_cache) devices.
Proof.
  revert all_targets new_path_cache w.
  induction devices as [|[device_name device_config] devices IH];
    intros all_targets new_path_cache w.
  - simpl. by rewrite app_nil_r.
  - cbn [scan_devices flat_map]. unfold device_targets at 1. cbn [fst snd].
    destruct (DeviceConfig.type device_config).
    + pose proof (process_local_device_targets device_name device_config
                    (<[device_name := []]> new_path_cache) ∅) as Hsame.
      destruct (_process_local_device env device_name device_config
                  use_cache verified_cache
                  (<[device_name := []]> new_path_cache))
        as [[device_targets' cache'] evs].
      unfold bind, tell. cbn [fst snd] in *.
      rewrite IH, <- Hsame. by rewrite app_assoc.
    + destruct (DockerOperations.collect_from_docker_container env _ _ _ _)
        as [[docker_files extraction] evs].
      unfold bind, tell. cbn [fst snd].
      destruct (DockerOperations.store_extraction extraction _) as [[] w'].
      rewrite IH. by rewrite app_assoc.
Qed.

Lemma scan_rule_files_targets devices w :
  (_scan_rule_files env devices use_cache verified_cache w).1
  = _deduplicate_targets
      (flat_map (device_targets env use_cache verified_cache) devices).
Proof.
  unfold _scan_rule_files, bind.
  pose proof (scan_devices_targets devices [] ∅ w) as Hscan.
  destruct (scan_devices env use_cache verified_cache devices [] ∅ w)
    as [[all_targets cache] w'].
  cbn [fst snd] in *.
  destruct (CacheManager.save_path_cache cache w') as [[] w''].
  unfold ret. cbn [fst]. by rewrite Hscan.
Qed.

End Scan.

(** C2.  The list handed to hashing and copy is the de-duplication of all
    appliances' targets, in discovery order.  It keeps exactly the first
    target seen for each distinct source path: no source path occurs twice in
    it, a target is kept if and only if no earlier target has its source
    path, and every discovered source path is represented by exactly one
    target (so two appliances that discover the same path contribute one
    target). *)
Theorem dedup_keeps_first_of_each_source (targets : list FileTarget.t) :
  let unique := RulesCollector._deduplicate_targets targets in
  NoDup (FileTarget.src <$> unique)
  ∧ unique `sublist_of` targets
  ∧ (∀ t, t ∈ unique ↔
          ∃ pre post, targets = pre ++ t :: post
                      ∧ (FileTarget.src t ∉ FileTarget.src <$> pre))
  ∧ (∀ p, p ∈ FileTarget.src <$> targets →
          length (filter (λ t, FileTarget.src t = p) unique) = 1%nat)
  ∧ (∀ env devices use_cache verified_cache w,
        (RulesCollector._scan_rule_files env devices use_cache verified_cache
           w).1
        = RulesCollector._deduplicate_targets
            (flat_map (device_targets env use_cache verified_cache) devices)).
Proof.
  unfold RulesCollector._deduplicate_targets. repeat split.
  - apply dedup_loop_NoDup.
  - apply dedup_loop_sublist.
  - intros (pre & post & ? & ? & _)%dedup_loop_elem. eauto.
  - intros (pre & post & ? & ?). apply dedup_loop_elem.
    exists pre, post. set_solver.
  - intros p Hp. apply count_in_NoDup; [apply dedup_loop_NoDup|].
    apply dedup_loop_covers; [done|set_solver].
  - intros. apply scan_rule_files_targets.
Qed.

(** Two appliances that find the same file. *)
Lemma dedup_keeps_first_of_each_source_witness :
  RulesCollector._deduplicate_targets
    [FileTarget.mk "/opt/shared/local.rules" "suricata" "local.rules" false false;
     FileTarget.mk "/opt/shared/local.rules" "snort" "local.rules" false false]
  = [FileTarget.mk "/opt/shared/local.rules" "suricata" "local.rules"
       false false]
  ∧ length
      (filter (λ t, FileTarget.src t = "/opt/shared/local.rules")
         (RulesCollector._deduplicate_targets
            [FileTarget.mk "/opt/shared/local.rules" "suricata" "local.rules"
               false false;
             FileTarget.mk "/opt/shared/local.rules" "snort" "local.rules"
               false false])) = 1%nat.
Proof.
  split; [reflexivity|].
  apply (dedup_keeps_first_of_each_source
           [FileTarget.mk "/opt/shared/local.rules" "suricata" "local.rules"
              false false;
            FileTarget.mk "/opt/shared/local.rules" "snort" "local.rules"
              false false]).
  rewrite !fmap_cons. by left.
Defined.

(** ** Container extraction *)

Section Extraction.
Import DockerOperations.
Context (env : Env).

Lemma attempted_app evs1 evs2 :
  attempted (evs1 ++ evs2) = attempted evs1 ++ attempted evs2.
Proof. apply omap_app. Qed.

Lemma attempted_cons e evs :
  attempted (e :: evs)
  = match e with
    | Attempt method => method :: attempted evs
    | _ => attempted evs
    end.
Proof. by destruct e. Qed.

Lemma run_docker_command_no_attempt command :
  attempted (run_docker_command_log env command) = [].
Proof.
  unfold run_docker_command_log. by destruct (subprocess_run env command).
Qed.

Lemma resolve_container_id_no_attempt container_identifier :
  attempted (resolve_container_id_log env container_identifier) = [].
Proof.
  unfold resolve_container_id_log.
  destruct (run_docker_command env _) as [[returncode stdout] stderr].
  rewrite attempted_app, run_docker_command_no_attempt.
  destruct (_ && _); [done|apply run_docker_command_no_attempt].
Qed.

Lemma get_container_info_no_attempt container_identifier :
  attempted (get_container_info_log env container_identifier) = [].
Proof.
  unfold get_container_info_log.
  rewrite attempted_app, resolve_container_id_no_attempt.
  destruct (resolve_container_id env _);
    [apply run_docker_command_no_attempt|done].
Qed.

Lemma path_exists_in_container_no_attempt container path :
  attempted (path_exists_in_container_log env container path) = [].
Proof. apply run_docker_command_no_attempt. Qed.

Lemma copy_directory_no_attempt container source_path destination tree :
  attempted (copy_directory_from_container env container source_path
               destination tree).2 = [].
Proof.
  unfold copy_directory_from_container.
  destruct (run_docker_command env _) as [[returncode stdout] stderr].
  cbv zeta.
  destruct (negb (returncode =? 0)); cbn [snd];
    [by rewrite attempted_app, run_docker_command_no_attempt|].
  destruct (negb (any_iterdir _)); cbn [snd];
    [by rewrite attempted_app, run_docker_command_no_attempt|].
  apply run_docker_command_no_attempt.
Qed.

Lemma copy_directory_success container source_path destination tree :
  (copy_directory_from_container env container source_path
     destination tree).1.1 = true →
  any_iterdir (copy_directory_from_container env container source_path
                 destination tree).1.2 = true.
Proof.
  unfold copy_directory_from_container.
  destruct (run_docker_command env _) as [[returncode stdout] stderr].
  cbv zeta.
  destruct (negb (returncode =? 0)); [done|].
  destruct (any_iterdir _) eqn:Hany; simpl; [by rewrite Hany|done].
Qed.

Lemma extract_tar_no_attempt container source_path destination tree :
  attempted (extract_directory_using_tar env container source_path
               destination tree).2 = [].
Proof.
  unfold extract_directory_using_tar.
  destruct (docker_tar env container source_path tree) as [[| | |rc] tree'];
    try done.
  by destruct (negb (rc =? 0)).
Qed.

End Extraction.

(** C6.  Once the container is resolved, running and holds the path, the
    two extraction methods are tried in order, directory copy first.  If the
    copy succeeds the stream method is not attempted.  If the copy fails the
    stream method is attempted on what the copy left behind; its success
    yields the enumerated files (none when the directory is still empty).
    If both fail the appliance has no targets, and the scan of the other
    devices gives what it would give without this appliance. *)
Theorem extraction_fallback (env : Env)
    (container_identifier source_path device_name file_extension : string)
    (info : DockerOperations.DockerContainerInfo) :
  DockerOperations.get_container_info env container_identifier = Some info →
  DockerOperations.is_running info = true →
  DockerOperations.path_exists_in_container env
    (DockerOperations.resolved_id info) source_path = true →
  let resolved := DockerOperations.resolved_id info in
  let temp_destination :=
    path_join (path_join DOCKER_TEMP_DIR device_name)
              (str_take 12 resolved) in
  let first :=
    DockerOperations.copy_directory_from_container env resolved source_path
      temp_destination [] in
  let second :=
    DockerOperations.extract_directory_using_tar env resolved source_path
      temp_destination first.1.2 in
  let result :=
    DockerOperations.collect_from_docker_container env container_identifier
      source_path device_name file_extension in
  (first.1.1 = true →
   attempted result.2 = ["docker cp 目录"]
   ∧ result.1.1 = DockerOperations.collected_files env temp_destination
                    device_name file_extension first.1.2)
  ∧ (first.1.1 = false → second.1.1 = true →
     attempted result.2 = ["docker cp 目录"; "tar 流复制"]
     ∧ result.1.1 = if DockerOperations.any_iterdir second.1.2
                    then DockerOperations.collected_files env temp_destination
                           device_name file_extension second.1.2
                    else [])
  ∧ (first.1.1 = false → second.1.1 = false →
     attempted result.2 = ["docker cp 目录"; "tar 流复制"]
     ∧ result.1.1 = []
     ∧ ∀ device_config devices_before devices_after use_cache verified_cache w,
         DeviceConfig.type device_config = Docker →
         DeviceConfig.container device_config = container_identifier →
         DeviceConfig.path device_config = source_path →
         DeviceConfig.file_type device_config = file_extension →
         (RulesCollector._scan_rule_files env
            (devices_before ++ (device_name, device_config) :: devices_after)
            use_cache verified_cache w).1
         = (RulesCollector._scan_rule_files env
              (devices_before ++ devices_after) use_cache verified_cache w).1).
Proof.
  intros Hinfo Hrunning Hpath resolved temp_destination first second result.
  pose proof (copy_directory_no_attempt env resolved source_path
                temp_destination []) as Hfirst_events.
  pose proof (copy_directory_success env resolved source_path
                temp_destination []) as Hfirst_any.
  pose proof (extract_tar_no_attempt env resolved source_path
                temp_destination first.1.2) as Hsecond_events.
  fold first in Hfirst_events, Hfirst_any. fold second in Hsecond_events.
  set (probing :=
         DockerOperations.get_container_info_log env container_identifier
         ++ DockerOperations.path_exists_in_container_log env resolved
              source_path).
  assert (attempted probing = []) as Hprobing.
  { unfold probing.
    by rewrite attempted_app, get_container_info_no_attempt,
         path_exists_in_container_no_attempt. }
  assert (result
          = let '(success, last_error, tree, evs) :=
              DockerOperations.try_methods
                (DockerOperations.methods env resolved source_path
                   temp_destination) "" [] in
            if negb success
            then ([], Some (temp_destination, tree),
                  probing ++ evs ++ [Error (MsgAllMethodsFailed last_error)])
            else if negb (DockerOperations.any_iterdir tree)
            then ([], Some (temp_destination, tree),
                  probing ++ evs
                  ++ [Error (MsgDestinationEmpty temp_destination)])
            else (DockerOperations.collected_files env temp_destination
                    device_name file_extension tree,
                  Some (temp_destination, tree), probing ++ evs)) as Hresult.
  { unfold result, DockerOperations.collect_from_docker_container.
    rewrite Hinfo, Hrunning. cbn [negb]. cbv zeta. by rewrite Hpath. }
  clearbody probing.
  unfold DockerOperations.methods in Hresult.
  cbn [DockerOperations.try_methods] in Hresult.
  fold first in Hresult.
  destruct first as [[ok1 tree1] evs1] eqn:Hfirst. cbn [fst snd] in *.
  fold second in Hresult.
  destruct second as [[ok2 tree2] evs2] eqn:Hsecond. cbn [fst snd] in *.
  destruct ok1.
  - rewrite Hfirst_any in Hresult by done. cbn [negb] in Hresult.
    split; [|split; [done|done]]. intros _. rewrite Hresult. cbn [fst snd].
    split; [|done].
    repeat (rewrite ?attempted_cons, ?attempted_app, ?Hfirst_events,
              ?Hprobing; cbv iota).
    done.
  - split; [done|].
    destruct ok2; (split; [done||intros _|done||intros _]).
    + intros _. rewrite Hresult. cbn [negb].
      destruct (DockerOperations.any_iterdir tree2); cbn [negb fst snd].
      * split; [|done].
        repeat (rewrite ?attempted_cons, ?attempted_app, ?Hfirst_events,
                  ?Hsecond_events, ?Hprobing; cbv iota).
        done.
      * split; [|done].
        repeat (rewrite ?attempted_cons, ?attempted_app, ?Hfirst_events,
                  ?Hsecond_events, ?Hprobing; cbv iota).
        done.
    + intros _. rewrite Hresult. cbn [negb fst snd].
      split; [|split; [done|]].
      * repeat (rewrite ?attempted_cons, ?attempted_app, ?Hfirst_events,
                  ?Hsecond_events, ?Hprobing; cbv iota).
        done.
      * intros device_config devices_before devices_after use_cache
          verified_cache w Htype Hcontainer Hsource Hext.
        rewrite !scan_rule_files_targets, !flat_map_app. cbn [flat_map].
        unfold device_targets at 2. cbn [fst snd].
        rewrite Htype, Hcontainer, Hsource, Hext. fold result.
        by rewrite Hresult.
Qed.

(** On the sample host the directory copy fails and the stream succeeds; on
    the host with the stuck container both fail. *)
Lemma extraction_fallback_witness :
  (attempted (DockerOperations.collect_from_docker_container sample_host
                "86e4e41a871c" "/etc/nginx/waf/rule" "waf" "json").2
   = ["docker cp 目录"; "tar 流复制"]
   ∧ FileTarget.dest_rel <$>
       (DockerOperations.collect_from_docker_container sample_host
          "86e4e41a871c" "/etc/nginx/waf/rule" "waf" "json").1.1
     = ["sqli.json"; "custom/xss.json"])
  ∧ (DockerOperations.collect_from_docker_container stuck_host
       "86e4e41a871c" "/etc/nginx/waf/rule" "waf" "json").1.1 = []
  ∧ (RulesCollector._scan_rule_files stuck_host
       [("zeek", zeek_device); ("waf", waf_device)] false ∅
       (quiet_world ∅ None None)).1
    = (RulesCollector._scan_rule_files stuck_host [("zeek", zeek_device)]
         false ∅ (quiet_world ∅ None None)).1.
Proof.
  destruct (extraction_fallback sample_host "86e4e41a871c"
              "/etc/nginx/waf/rule" "waf" "json" sample_container_info
              eq_refl eq_refl eq_refl) as (_ & Hsecond & _).
  destruct (Hsecond eq_refl eq_refl) as [Hattempts Htargets].
  destruct (extraction_fallback stuck_host "86e4e41a871c"
              "/etc/nginx/waf/rule" "waf" "json" sample_container_info
              eq_refl eq_refl eq_refl) as (_ & _ & Hboth).
  destruct (Hboth eq_refl eq_refl) as (_ & Hnone & Hscan).
  split; [split|split].
  - exact Hattempts.
  - rewrite Htargets. reflexivity.
  - exact Hnone.
  - exact (Hscan waf_device [("zeek", zeek_device)] [] false ∅
             (quiet_world ∅ None None) eq_refl eq_refl eq_refl eq_refl).
Defined.

(** ** The copy phase *)

Section Copy.
Implicit Types (w : World) (p source target destination : string).

Lemma temp_path_differs destination : destination +:+ ".tmp" ≠ destination.
Proof.
  intros Heq. apply (f_equal String.length) in Heq.
  rewrite str_length_app in Heq. simpl in Heq. lia.
Qed.






Lemma safe_copy_unfold source destination w :
  FileUtils.safe_copy source destination w
  = let temp_path := destination +:+ ".tmp" in
    let r1 := shutil_copy2 source temp_path w in
    if r1.1 then
      let r2 := os_replace temp_path destination r1.2 in
      if r2.1 then (true, r2.2)
      else
        let w3 := (tell [Error (MsgCopyFailed source destination)] r2.2).2 in
        if bool_decide (is_Some (files w3 !! temp_path))
           || is_directory (dirs w3) temp_path
        then (false, (os_remove temp_path w3).2)
        else (false, w3)
    else
      let w3 := (tell [Error (MsgCopyFailed source destination)] r1.2).2 in
      if bool_decide (is_Some (files w3 !! temp_path))
         || is_directory (dirs w3) temp_path
      then (false, (os_remove temp_path w3).2)
      else (false, w3).
Proof.
  unfold FileUtils.safe_copy, bind. cbv zeta.
  destruct (shutil_copy2 source (destination +:+ ".tmp") w) as [[] w1];
    cbn [fst snd].
  - destruct (os_replace (destination +:+ ".tmp") destination w1)
      as [[] w2]; cbn [fst snd]; [done|].
    unfold os_path_exists, bind, get_files, get_dirs, ret. cbn [fst snd].
    destruct (tell _ w2) as [[] w3]. cbn [fst snd].
    destruct (_ || _); [|done].
    by destruct (os_remove (destination +:+ ".tmp") w3).
  - unfold ret at 1. unfold os_path_exists, bind, get_files, get_dirs, ret.
    cbn [fst snd].
    destruct (tell _ w1) as [[] w3]. cbn [fst snd].
    destruct (_ || _); [|done].
    by destruct (os_remove (destination +:+ ".tmp") w3).
Qed.

End Copy.

Section SafeCopy.
Context (source destination : string) (w : World).
Let temp_path : string := destination +:+ ".tmp".



End SafeCopy.

(** [os.makedirs] leaves the files and the journal alone, and removes no
    directory. *)
Lemma os_makedirs_spec (path : string) (w : World) :
  let r := os_makedirs path w in
  files r.2 = files w
  ∧ journal r.2 = journal w
  ∧ dirs w ⊆ dirs r.2
  ∧ (r.1 = false → dirs r.2 = dirs w).
Proof.
  cbv [os_makedirs bind next_fault get_files get_dirs set_dirs ret].
  destruct (faults w) as [|[| |junk] rest]; cbn [fst snd files dirs journal];
    try done.
  all: destruct (_ || _); cbn [fst snd files dirs journal];
         repeat split; try done; set_solver.
Qed.





(** Where the temporary path is a directory, [shutil.copy2] writes into it
    and [os.replace] moves the directory: [safe_copy] answers [True], and
    the destination is a directory with the copy inside. *)
Lemma temporary_directory_is_renamed :
  let r := FileUtils.safe_copy sample_source sample_destination
             occupied_world in
  r.1 = true
  ∧ files r.2 !! sample_destination = None
  ∧ is_directory (dirs r.2) sample_destination = true
  ∧ files r.2 !! (sample_destination +:+ "/local.rules")
    = Some "alert tcp any any".
Proof. repeat split; by vm_compute. Qed.

(** Where a regular file has the name of a destination's directory,
    [os.makedirs] raises and the batch ends before any copy. *)
Lemma blocked_directory_ends_batch :
  let r := FileOperations.copy_changed_files
             [sample_target sample_source;
              sample_target "/etc/suricata/rules/emerging/scan.rules"]
             blocked_world in
  r.1 = None ∧ journal r.2 = [].
Proof. repeat split; by vm_compute. Qed.

(** ** Phases that leave the hash record alone *)

Section Frames.

Lemma keeps_hashes_refl w : keeps_hashes w w.
Proof. split; [done|]. exists []. by rewrite app_nil_r. Qed.

Lemma keeps_hashes_trans w1 w2 w3 :
  keeps_hashes w1 w2 → keeps_hashes w2 w3 → keeps_hashes w1 w3.
Proof.
  intros [Hh1 [evs1 Hj1]] [Hh2 [evs2 Hj2]]. split; [congruence|].
  exists (evs1 ++ evs2). by rewrite Hj2, Hj1, app_assoc.
Qed.

Lemma frames_ret {A} (a : A) : frames (ret a).
Proof. intros w. apply keeps_hashes_refl. Qed.

Lemma frames_bind {A B} (m : M A) (k : A → M B) :
  frames m → (∀ a, frames (k a)) → frames (bind m k).
Proof.
  intros Hm Hk w. unfold bind. specialize (Hm w).
  destruct (m w) as [a w1]. simpl in *.
  eapply keeps_hashes_trans; [done|apply Hk].
Qed.

Lemma frames_tell evs : frames (tell evs).
Proof. intros w. split; [done|]. by exists evs. Qed.

Lemma frames_logged {A} (r : A * list event) : frames (logged r).
Proof. apply frames_bind; [apply frames_tell|intros; apply frames_ret]. Qed.

Lemma frames_get_files : frames get_files.
Proof. intros w. apply keeps_hashes_refl. Qed.

Lemma frames_set_files fs : frames (set_files fs).
Proof. intros w. split; [done|]. exists []. simpl. by rewrite app_nil_r. Qed.

Lemma frames_get_dirs : frames get_dirs.
Proof. intros w. apply keeps_hashes_refl. Qed.

Lemma frames_set_dirs ds : frames (set_dirs ds).
Proof. intros w. split; [done|]. exists []. simpl. by rewrite app_nil_r. Qed.

Lemma frames_next_fault : frames next_fault.
Proof.
  intros w. unfold next_fault. destruct (faults w); [apply keeps_hashes_refl|].
  split; [done|]. exists []. simpl. by rewrite app_nil_r.
Qed.

Lemma frames_set_path_cache_file r :
  frames (CacheManager.set_path_cache_file r).
Proof. intros w. split; [done|]. exists []. simpl. by rewrite app_nil_r. Qed.

End Frames.

Ltac frames :=
  repeat first
    [ apply frames_ret | apply frames_tell | apply frames_logged
    | apply frames_get_files | apply frames_set_files
    | apply frames_get_dirs | apply frames_set_dirs
    | apply frames_next_fault | apply frames_set_path_cache_file
    | apply frames_bind; [|intros ?]
    | progress cbv zeta
    | match goal with
      | |- frames (if ?b then _ else _) => destruct b
      | |- frames (match ?x with _ => _ end) => destruct x
      end ].

Section FramedPhases.

Lemma frames_os_makedirs path : frames (os_makedirs path).
Proof. unfold os_makedirs. frames. Qed.

Lemma frames_shutil_copy2 source target : frames (shutil_copy2 source target).
Proof. unfold shutil_copy2, returned. frames. Qed.

Lemma frames_os_replace source target : frames (os_replace source target).
Proof. unfold os_replace, returned. frames. Qed.

Lemma frames_os_remove target : frames (os_remove target).
Proof. unfold os_remove, returned. frames. Qed.

Lemma frames_safe_copy source destination :
  frames (FileUtils.safe_copy source destination).
Proof.
  unfold FileUtils.safe_copy, os_path_exists.
  repeat first [ apply frames_shutil_copy2 | apply frames_os_replace
               | apply frames_os_remove | progress frames ].
Qed.

Lemma frames_copy_loop changed_files copied_files :
  frames (FileOperations.copy_loop changed_files copied_files).
Proof.
  revert copied_files.
  induction changed_files as [|target changed_files IH]; intros copied_files;
    cbn [FileOperations.copy_loop].
  - apply frames_ret.
  - apply frames_bind; [apply frames_os_makedirs|intros [|]].
    + apply frames_bind; [apply frames_safe_copy|intros ok; apply IH].
    + apply frames_ret.
Qed.

Lemma frames_store_extraction extraction :
  frames (DockerOperations.store_extraction extraction).
Proof. unfold DockerOperations.store_extraction. frames. Qed.

Lemma frames_save_path_cache path_cache :
  frames (CacheManager.save_path_cache path_cache).
Proof. unfold CacheManager.save_path_cache. frames. Qed.

Lemma frames_scan_devices env use_cache verified_cache devices all_targets
    new_path_cache :
  frames (RulesCollector.scan_devices env use_cache verified_cache devices
            all_targets new_path_cache).
Proof.
  revert all_targets new_path_cache.
  induction devices as [|[device_name device_config] devices IH];
    intros all_targets new_path_cache; cbn [RulesCollector.scan_devices].
  - apply frames_ret.
  - destruct (DeviceConfig.type device_config).
    + destruct (RulesCollector._process_local_device _ _ _ _ _ _)
        as [[device_targets' cache'] evs].
      apply frames_bind; [apply frames_tell|intros _; apply IH].
    + destruct (DockerOperations.collect_from_docker_container _ _ _ _ _)
        as [[docker_files extraction] evs].
      apply frames_bind; [apply frames_tell|intros _].
      apply frames_bind; [apply frames_store_extraction|intros _; apply IH].
Qed.

Lemma frames_scan_rule_files env devices use_cache verified_cache :
  frames (RulesCollector._scan_rule_files env devices use_cache
            verified_cache).
Proof.
  unfold RulesCollector._scan_rule_files.
  apply frames_bind; [apply frames_scan_devices|intros r].
  apply frames_bind; [apply frames_save_path_cache|intros _; apply frames_ret].
Qed.

End FramedPhases.

(** ** The whole run *)

Section Run.
Import RulesCollector.
Context (env : Env) (devices : list (string * DeviceConfig.t))
  (force_rescan : bool) (w : World).

Lemma collect_rules_unfold :
  let made_output := os_makedirs OUTPUT_DIR w in
  let made_temp := os_makedirs DOCKER_TEMP_DIR made_output.2 in
  let w0 := made_temp.2 in
  let old_hash_record := default ∅ (hash_record_file w0) in
  let path_cache := default ∅ (path_cache_file w0) in
  let decided := _decide_scan_strategy env force_rescan path_cache in
  let scanned :=
    _scan_rule_files env devices decided.1.1 decided.1.2
      (tell decided.2 w0).2 in
  let hashed :=
    FileOperations.calculate_file_hashes env (files scanned.2) scanned.1
      old_hash_record in
  let copied :=
    FileOperations.copy_changed_files hashed.1.1.2 (tell hashed.2 scanned.2).2 in
  collect_rules env devices force_rescan w
  = if negb made_output.1 then (None, made_output.2)
    else if negb made_temp.1 then (None, made_temp.2)
    else match scanned.1 with
         | [] =>
             (Some empty_result, (tell [Warning MsgNoFilesFound] scanned.2).2)
         | _ :: _ =>
             match copied.1 with
             | None => (None, copied.2)
             | Some copied_files =>
                 (Some {| total := length scanned.1;
                          copied := copied_files;
                          unchanged := hashed.1.2;
                          changed := length hashed.1.1.2;
                          local_files :=
                            (length scanned.1
                             - count_if FileTarget.from_docker scanned.1)%nat;
                          docker_files :=
                            count_if FileTarget.from_docker scanned.1;
                          cached_paths_used :=
                            count_if FileTarget.cached scanned.1;
                          new_paths_found :=
                            (length scanned.1
                             - count_if FileTarget.cached scanned.1)%nat |},
                  (CacheManager.save_hash_record hashed.1.1.1 copied.2).2)
             end
         end.
Proof.
  cbv zeta.
  unfold collect_rules, FileUtils.ensure_directory_exists.
  unfold bind at 1.
  destruct (os_makedirs OUTPUT_DIR w) as [[|] w01]; cbn [fst snd negb];
    [|done].
  unfold bind at 1.
  destruct (os_makedirs DOCKER_TEMP_DIR w01) as [[|] w0]; cbn [fst snd negb];
    [|done].
  unfold bind, CacheManager.load_hash_record, CacheManager.load_path_cache,
    logged, bind, ret, get_files.
  destruct (_decide_scan_strategy env force_rescan
              (default ∅ (path_cache_file w0)))
    as [[use_cache verified_cache] evs].
  cbn [fst snd].
  destruct (tell evs w0) as [[] w1]. cbn [fst snd].
  destruct (_scan_rule_files env devices use_cache verified_cache w1)
    as [[|target all_targets] w2]; cbn [fst snd].
  - by destruct (tell [Warning MsgNoFilesFound] w2) as [[] w3].
  - destruct (FileOperations.calculate_file_hashes env (files w2)
                (target :: all_targets) (default ∅ (hash_record_file w0)))
      as [[[new_hash_record changed_files] unchanged_count] evs'].
    cbn [fst snd].
    destruct (tell evs' w2) as [[] w3]. cbn [fst snd].
    destruct (FileOperations.copy_changed_files changed_files w3)
      as [[copied_files|] w4]; cbn [fst snd]; [|done].
    by destruct (CacheManager.save_hash_record new_hash_record w4)
      as [[] w5].
Qed.

(** The two [os.makedirs] at the start of a run touch neither cache. *)
Lemma run_start_caches :
  let w0 := (os_makedirs DOCKER_TEMP_DIR (os_makedirs OUTPUT_DIR w).2).2 in
  hash_record_file w0 = hash_record_file w
  ∧ path_cache_file w0 = path_cache_file w
  ∧ journal w0 = journal w
  ∧ files w0 = files w
  ∧ keeps_hashes w (os_makedirs OUTPUT_DIR w).2
  ∧ keeps_hashes w w0.
Proof.
  cbv zeta.
  assert (∀ path w1,
            hash_record_file (os_makedirs path w1).2 = hash_record_file w1
            ∧ path_cache_file (os_makedirs path w1).2 = path_cache_file w1)
    as Hcaches.
  { intros path w1.
    cbv [os_makedirs bind next_fault get_files get_dirs set_dirs ret].
    destruct (faults w1) as [|[| |junk] rest]; cbn [fst snd]; try done.
    all: by destruct (_ || _). }
  destruct (Hcaches OUTPUT_DIR w) as [Hh1 Hp1].
  destruct (Hcaches DOCKER_TEMP_DIR (os_makedirs OUTPUT_DIR w).2) as [Hh2 Hp2].
  destruct (os_makedirs_spec OUTPUT_DIR w) as (Hf1 & Hj1 & _).
  destruct (os_makedirs_spec DOCKER_TEMP_DIR (os_makedirs OUTPUT_DIR w).2)
    as (Hf2 & Hj2 & _).
  cbv zeta in *.
  split_and!; try congruence.
  - apply frames_os_makedirs.
  - eapply keeps_hashes_trans; apply frames_os_makedirs.
Qed.

End Run.

Lemma save_hash_record_spec (hash_record : gmap string string) (w : World) :
  let w' := (CacheManager.save_hash_record hash_record w).2 in
  hash_record_file w' = Some hash_record ∧ journal w' = journal w
  ∨ journal w' = journal w ++ [Error MsgSaveHashFailed].
Proof.
  cbv [CacheManager.save_hash_record CacheManager.set_hash_record_file bind
       next_fault tell ret].
  destruct (faults w) as [|[| |junk] rest]; cbn [fst snd hash_record_file journal];
    auto.
Qed.

(** C8, as the code has it.  A run that finds at least one target and
    that no exception ends builds its hash record from nothing, from the
    digests it computes over the store as the scan leaves it, and hands the
    whole of it to be written over the persisted file: unless that write
    fails (which is logged), the persisted record afterwards holds exactly
    the digests of this run's targets that could be hashed, so a path that
    is not among this run's targets is gone from it.  A run that finds no
    target returns before the hashing phase, and a run that an exception
    ends never reaches the write: both leave the persisted record as it
    was. *)
Theorem hash_record_rewritten_when_targets_found (env : Env)
    (devices : list (string * DeviceConfig.t)) (force_rescan : bool)
    (w : World) :
  (∀ content, md5_hexdigest env content ≠ "") →
  let decided :=
    RulesCollector._decide_scan_strategy env force_rescan
      (default ∅ (path_cache_file w)) in
  let started :=
    (os_makedirs DOCKER_TEMP_DIR (os_makedirs OUTPUT_DIR w).2).2 in
  let scanned :=
    RulesCollector._scan_rule_files env devices decided.1.1 decided.1.2
      (tell decided.2 started).2 in
  let all_targets := scanned.1 in
  let r := RulesCollector.collect_rules env devices force_rescan w in
  all_targets
  = RulesCollector._deduplicate_targets
      (flat_map (device_targets env decided.1.1 decided.1.2) devices)
  ∧ (∀ result, r.1 = Some result →
               RulesCollector.total result = length all_targets)
  ∧ (r.1 = None → hash_record_file r.2 = hash_record_file w)
  ∧ (all_targets = [] → hash_record_file r.2 = hash_record_file w)
  ∧ (all_targets ≠ [] → r.1 ≠ None →
     ∃ evs : list event,
       journal r.2 = journal w ++ evs
       ∧ (Error MsgSaveHashFailed ∈ evs
          ∨ ∃ new_hash_record,
              hash_record_file r.2 = Some new_hash_record
              ∧ ∀ p, new_hash_record !! p
                     = if decide (p ∈ FileTarget.src <$> all_targets)
                       then md5_hexdigest env <$> files scanned.2 !! p
                       else None)).
Proof.
  intros Hne decided started scanned all_targets r.
  pose proof (collect_rules_unfold env devices force_rescan w) as Hrun.
  destruct (run_start_caches w)
    as (Hhashes & Hpaths & Hjournal0 & _ & Hstart1 & Hstart).
  cbv zeta in Hrun, Hhashes, Hpaths, Hjournal0, Hstart.
  fold started in Hrun, Hhashes, Hpaths, Hjournal0, Hstart.
  rewrite Hpaths, Hhashes in Hrun.
  fold decided in Hrun. fold scanned in Hrun. fold all_targets in Hrun.
  fold r in Hrun.
  assert (keeps_hashes w scanned.2) as Hscanned.
  { eapply keeps_hashes_trans; [exact Hstart|].
    eapply keeps_hashes_trans; [apply (frames_tell decided.2 started)|].
    apply frames_scan_rule_files. }
  split; [apply scan_rule_files_targets|].
  set (hashed := FileOperations.calculate_file_hashes env (files scanned.2)
                   all_targets (default ∅ (hash_record_file w))) in *.
  set (copied := FileOperations.copy_changed_files hashed.1.1.2
                   (tell hashed.2 scanned.2).2) in *.
  assert (keeps_hashes w copied.2) as Hcopied.
  { eapply keeps_hashes_trans; [done|].
    eapply keeps_hashes_trans; [apply (frames_tell hashed.2 scanned.2)|].
    apply frames_copy_loop. }
  destruct (os_makedirs OUTPUT_DIR w) as [made_output w01] eqn:Hmade_output.
  cbn [fst snd] in *.
  destruct made_output; cbn [negb] in Hrun;
    [|rewrite Hrun; cbn [fst snd];
      split_and!; [done|intros _; apply Hstart1|intros _; apply Hstart1|done]].
  destruct (os_makedirs DOCKER_TEMP_DIR w01) as [made_temp w02]
    eqn:Hmade_temp.
  cbn [fst snd] in *. subst started.
  destruct made_temp; cbn [negb] in Hrun;
    [|rewrite Hrun; cbn [fst snd];
      split_and!; [done|intros _; apply Hstart|intros _; apply Hstart|done]].
  clearbody scanned. subst all_targets.
  destruct (scanned.1) as [|target targets] eqn:Htargets.
  - rewrite Hrun. cbn [fst snd tell hash_record_file].
    split_and!; [by intros result [= <-]|done|intros _; apply Hscanned|done].
  - destruct (copied.1) as [copied_files|] eqn:Hcopied_files.
    + rewrite Hrun. cbn [fst snd].
      split_and!; [by intros result [= <-]|done|done|].
      intros _ _. destruct Hcopied as [_ [evs Hjournal]].
      destruct (save_hash_record_spec hashed.1.1.1 copied.2)
        as [[Hsaved Hquiet]|Hfailed]; cbv zeta in *.
      * exists evs. split.
        { etransitivity; [exact Hquiet|exact Hjournal]. }
        right. exists hashed.1.1.1. split; [exact Hsaved|]. intros p.
        unfold hashed, FileOperations.calculate_file_hashes.
        rewrite (hash_loop_record env (files scanned.2) _ Hne), lookup_empty.
        by destruct (md5_hexdigest env <$> files scanned.2 !! p).
      * exists (evs ++ [Error MsgSaveHashFailed]). split.
        { transitivity (journal copied.2 ++ [Error MsgSaveHashFailed]);
            [exact Hfailed|]. by rewrite Hjournal, app_assoc. }
        left. apply elem_of_app. right. by left.
    + rewrite Hrun. cbn [fst snd].
      split_and!; [done|intros _; apply Hcopied|done|done].
Qed.

(** On the sample host the previous record lists a rule that is no longer
    found; after the run the persisted record does not. *)
Lemma hash_record_rewritten_when_targets_found_witness :
  ∃ new_hash_record,
    hash_record_file
      (RulesCollector.collect_rules sample_host default_devices false
         sample_world).2 = Some new_hash_record
    ∧ sample_old_record !! "/etc/suricata/rules/retired.rules"
      = Some (sample_digest "drop")
    ∧ new_hash_record !! "/etc/suricata/rules/retired.rules" = None.
Proof.
  destruct (hash_record_rewritten_when_targets_found sample_host
              default_devices false sample_world sample_digest_nonempty)
    as (_ & _ & _ & _ & Hfound).
  destruct (Hfound ltac:(vm_compute; discriminate)
              ltac:(vm_compute; discriminate))
    as (evs & Hjournal & [Hfailed|(new_hash_record & Hsaved & Hrecord)]).
  - vm_compute in Hjournal. subst evs.
    repeat (apply elem_of_cons in Hfailed as [Hfailed|Hfailed];
            [discriminate|]).
    by apply elem_of_nil in Hfailed.
  - exists new_hash_record. split; [exact Hsaved|]. split; [reflexivity|].
    rewrite Hrecord. reflexivity.
Defined.

(** C8, as stated, fails: on a host where nothing is found the run returns
    before hashing, and the persisted record keeps a path that is not among
    this run's targets. *)
Lemma stale_record_survives_empty_run :
  let r := RulesCollector.collect_rules bare_host default_devices false
             stale_world in
  RulesCollector.total <$> r.1 = Some 0%nat
  ∧ hash_record_file r.2 = hash_record_file stale_world
  ∧ default ∅ (hash_record_file r.2) !! "/etc/suricata/rules/retired.rules"
    = Some (sample_digest "drop").
Proof. repeat split; reflexivity. Qed.

(** ** Searching the file system *)

Section SearchFiles.

Context (env : Env).

Lemma add_matches_elem matches found_paths p :
  p ∈ FileUtils.add_matches env matches found_paths
  ↔ p ∈ found_paths
    ∨ ∃ m, m ∈ matches ∧ path_exists env m = true ∧ p = abspath env m.
Proof.
  revert found_paths.
  induction matches as [|m matches IH]; intros found_paths; simpl.
  - split; [auto|]. intros [?|(m & Hm & _)]; [done|]. by apply elem_of_nil in Hm.
  - destruct (path_exists env m) eqn:Hex; [case_bool_decide as Hin|];
      rewrite IH; clear IH.
    + split.
      * intros [?|(m' & ? & ? & ?)]; [auto|]. right. exists m'.
        split_and!; [by apply elem_of_cons; right|done..].
      * intros [?|(m' & [->|?]%elem_of_cons & ? & ->)]; [auto|auto|].
        right. by exists m'.
    + rewrite elem_of_app, list_elem_of_singleton. split.
      * intros [[?| ->]|(m' & ? & ? & ?)]; [auto|..].
        -- right. exists m. split_and!; [apply elem_of_cons; by left|done..].
        -- right. exists m'. split_and!; [by apply elem_of_cons; right|done..].
      * intros [?|(m' & [->|?]%elem_of_cons & ? & ->)]; [auto|auto|].
        right. by exists m'.
    + split.
      * intros [?|(m' & ? & ? & ?)]; [auto|]. right. exists m'.
        split_and!; [by apply elem_of_cons; right|done..].
      * intros [?|(m' & [->|?]%elem_of_cons & Hex' & ->)]; [auto|congruence|].
        right. by exists m'.
Qed.

Lemma add_matches_NoDup matches found_paths :
  NoDup found_paths → NoDup (FileUtils.add_matches env matches found_paths).
Proof.
  revert found_paths.
  induction matches as [|m matches IH]; intros found_paths Hnd; simpl; [done|].
  destruct (path_exists env m); [case_bool_decide as Hin|]; apply IH; try done.
  apply NoDup_app. split_and!; [done| |apply NoDup_singleton].
  intros x Hx ->%list_elem_of_singleton. done.
Qed.

(** What one pattern below one base path contributes. *)
Let hits (base_path pattern : string) (p : string) : Prop :=
  ∃ ms m, glob env (full_pattern base_path pattern) = Some ms
          ∧ m ∈ ms ∧ path_exists env m = true ∧ p = abspath env m.

Let glob_errors (base_path : string) (patterns : list string) : list event :=
  flat_map (λ pattern,
              match glob env (full_pattern base_path pattern) with
              | Some _ => []
              | None => [Error (MsgGlobFailed (full_pattern base_path pattern))]
              end) patterns.

Lemma search_patterns_spec base_path patterns acc :
  let r := FileUtils.search_patterns env base_path patterns acc in
  (∀ p, p ∈ r.1 ↔ p ∈ acc.1 ∨ ∃ pattern, pattern ∈ patterns
                                          ∧ hits base_path pattern p)
  ∧ (NoDup acc.1 → NoDup r.1)
  ∧ r.2 = acc.2 ++ glob_errors base_path patterns.
Proof.
  revert acc.
  induction patterns as [|pattern patterns IH]; intros [found evs]; simpl.
  - split_and!; [|done|by rewrite app_nil_r].
    intros p. split; [auto|]. intros [?|(? & Hin & _)]; [done|].
    by apply elem_of_nil in Hin.
  - fold (full_pattern base_path pattern).
    destruct (glob env (full_pattern base_path pattern)) as [ms|] eqn:Hglob.
    + specialize (IH (FileUtils.add_matches env ms found, evs ++ [])).
      destruct IH as (IHin & IHnd & IHevs). simpl in *.
      split_and!.
      * intros p. rewrite IHin, add_matches_elem. split.
        -- intros [[?|(m & ? & ? & ?)]|(pat & ? & ?)]; [auto|..].
           ++ right. exists pattern. split; [apply elem_of_cons; by left|].
              by exists ms, m.
           ++ right. exists pat. split; [by apply elem_of_cons; right|done].
        -- intros [?|(pat & [->|?]%elem_of_cons & Hhit)]; [auto|..].
           ++ destruct Hhit as (ms' & m & Hg & ? & ? & ?).
              left. right. exists m. rewrite Hglob in Hg. by simplify_eq.
           ++ right. by exists pat.
      * intros Hnd. by apply IHnd, add_matches_NoDup.
      * by rewrite IHevs, app_nil_r.
    + specialize (IH (FileUtils.add_matches env [] found,
                      evs ++ [Error (MsgGlobFailed
                                       (full_pattern base_path pattern))])).
      destruct IH as (IHin & IHnd & IHevs). simpl in *.
      split_and!.
      * intros p. rewrite IHin. split.
        -- intros [?|(pat & ? & ?)]; [auto|].
           right. exists pat. split; [by apply elem_of_cons; right|done].
        -- intros [?|(pat & [->|?]%elem_of_cons & Hhit)]; [auto|..].
           ++ destruct Hhit as (ms' & m & Hg & _). congruence.
           ++ right. by exists pat.
      * done.
      * by rewrite IHevs, <- app_assoc.
Qed.

Lemma search_bases_spec patterns base_paths acc :
  let r := FileUtils.search_bases env patterns base_paths acc in
  (∀ p, p ∈ r.1 ↔ p ∈ acc.1
                  ∨ ∃ base_path pattern,
                      base_path ∈ base_paths ∧ pattern ∈ patterns
                      ∧ hits base_path pattern p)
  ∧ (NoDup acc.1 → NoDup r.1)
  ∧ r.2 = acc.2 ++ flat_map (λ base_path, glob_errors base_path patterns)
                            base_paths.
Proof.
  revert acc.
  induction base_paths as [|base_path base_paths IH]; intros acc; simpl.
  - split_and!; [|done|by rewrite app_nil_r].
    intros p. split; [auto|]. intros [?|(? & ? & Hin & _)]; [done|].
    by apply elem_of_nil in Hin.
  - destruct (IH (FileUtils.search_patterns env base_path patterns acc))
      as (IHin & IHnd & IHevs).
    destruct (search_patterns_spec base_path patterns acc)
      as (Hin & Hnd & Hevs).
    simpl in *. split_and!.
    + intros p. rewrite IHin, Hin. split.
      * intros [[?|(pat & ? & ?)]|(b & pat & ? & ? & ?)]; [auto|..].
        -- right. exists base_path, pat.
           split_and!; [apply elem_of_cons; by left|done..].
        -- right. exists b, pat.
           split_and!; [by apply elem_of_cons; right|done..].
      * intros [?|(b & pat & [->|?]%elem_of_cons & ? & ?)]; [auto|..].
        -- left. right. by exists pat.
        -- right. by exists b, pat.
    + auto.
    + by rewrite IHevs, Hevs, <- app_assoc.
Qed.

Lemma add_matches_forgiving matches found_paths :
  FileUtils.add_matches (forgiving_glob env) matches found_paths
  = FileUtils.add_matches env matches found_paths.
Proof.
  revert found_paths.
  induction matches as [|m matches IH]; intros found_paths; simpl; [done|].
  by rewrite !IH.
Qed.

Lemma search_patterns_forgiving base_path patterns found evs evs' :
  (FileUtils.search_patterns (forgiving_glob env) base_path patterns
     (found, evs)).1
  = (FileUtils.search_patterns env base_path patterns (found, evs')).1
  ∧ (FileUtils.search_patterns (forgiving_glob env) base_path patterns
       (found, evs)).2 = evs.
Proof.
  revert found evs evs'.
  induction patterns as [|pattern patterns IH]; intros found evs evs'; simpl;
    [done|].
  destruct (glob env _) as [ms|]; simpl.
  - rewrite add_matches_forgiving.
    destruct (IH (FileUtils.add_matches env ms found) (evs ++ [])
                (evs' ++ [])) as [-> ->].
    split; [done|apply app_nil_r].
  - destruct (IH found (evs ++ []) (evs' ++ [Error (MsgGlobFailed
       (path_join base_path (str_lstrip_char "/" pattern)))])) as [-> ->].
    split; [done|apply app_nil_r].
Qed.

Lemma search_bases_forgiving patterns base_paths found evs evs' :
  (FileUtils.search_bases (forgiving_glob env) patterns base_paths
     (found, evs)).1
  = (FileUtils.search_bases env patterns base_paths (found, evs')).1
  ∧ (FileUtils.search_bases (forgiving_glob env) patterns base_paths
       (found, evs)).2 = evs.
Proof.
  revert found evs evs'.
  induction base_paths as [|base_path base_paths IH]; intros found evs evs';
    simpl; [done|].
  destruct (search_patterns_forgiving base_path patterns found evs evs')
    as [H1 H2].
  destruct (FileUtils.search_patterns (forgiving_glob env) base_path patterns
              (found, evs)) as [f1 e1].
  destruct (FileUtils.search_patterns env base_path patterns (found, evs'))
    as [f2 e2].
  simpl in *. subst. apply IH.
Qed.

Lemma search_tiers_NoDup patterns tiers :
  NoDup (RulesCollector.search_tiers env patterns tiers).1.
Proof.
  induction tiers as [|[description search_paths] tiers IH]; simpl;
    [apply NoDup_nil_2|].
  unfold FileOperations.search_rule_files.
  pose proof (search_bases_spec patterns search_paths ([], []))
    as (_ & Hnd & _).
  specialize (Hnd (NoDup_nil_2)). unfold FileUtils.search_files.
  destruct (FileUtils.search_bases env patterns search_paths ([], []))
    as [[|m ms] evs]; simpl in *.
  - by destruct (RulesCollector.search_tiers env patterns tiers).
  - done.
Qed.

End SearchFiles.

(** X1. [search_files] returns, without repetition, exactly the absolute
    paths of the existing matches of some pattern below some base path; the
    items that [_search_device_paths] hands on are therefore pairwise
    different too. *)
Theorem search_files_exact (env : Env) (patterns base_paths : list string) :
  let found_paths := (FileUtils.search_files env patterns base_paths).1 in
  NoDup found_paths
  ∧ (∀ p, p ∈ found_paths
          ↔ ∃ base_path pattern matches m,
              base_path ∈ base_paths ∧ pattern ∈ patterns
              ∧ glob env (full_pattern base_path pattern) = Some matches
              ∧ m ∈ matches ∧ path_exists env m = true
              ∧ p = abspath env m)
  ∧ ∀ device_config,
      NoDup (RulesCollector._search_device_paths env device_config).1.
Proof.
  intros found_paths. subst found_paths. unfold FileUtils.search_files.
  destruct (search_bases_spec env patterns base_paths ([], []))
    as (Hin & Hnd & _).
  split_and!.
  - apply Hnd, NoDup_nil_2.
  - intros p. rewrite Hin. simpl. split.
    + intros [Hp|(b & pat & ? & ? & ms & m & ? & ? & ? & ?)];
        [by apply elem_of_nil in Hp|].
      by exists b, pat, ms, m.
    + intros (b & pat & ms & m & ? & ? & ? & ? & ? & ?).
      right. exists b, pat. split_and!; [done..|]. by exists ms, m.
  - intros device_config. unfold RulesCollector._search_device_paths.
    pose proof (search_tiers_NoDup env
                  (DeviceConfig.relative_path device_config)
                  (SCAN_ORDER_PRIORITY env)) as Hnd'.
    destruct (RulesCollector.search_tiers env _ _) as [[|m ms] evs];
      simpl in *; [|done].
    unfold FileOperations.search_rule_files, FileUtils.search_files.
    pose proof (search_bases_spec env
                  (DeviceConfig.relative_path device_config) ["/"] ([], []))
      as (_ & Hnd'' & _).
    destruct (FileUtils.search_bases env _ ["/"] ([], [])) as [ms' evs'].
    apply Hnd'', NoDup_nil_2.
Qed.

(** X2. A [glob] call that raises costs one logged error and nothing else:
    the search goes on, and finds what it would find if that call had
    matched nothing. *)
Theorem search_files_survives_glob_errors (env : Env)
    (patterns base_paths : list string) :
  (FileUtils.search_files env patterns base_paths).1
  = (FileUtils.search_files (forgiving_glob env) patterns base_paths).1
  ∧ (FileUtils.search_files (forgiving_glob env) patterns base_paths).2 = []
  ∧ (FileUtils.search_files env patterns base_paths).2
    = flat_map (λ base_path,
        flat_map (λ pattern,
          match glob env (full_pattern base_path pattern) with
          | Some _ => []
          | None => [Error (MsgGlobFailed (full_pattern base_path pattern))]
          end) patterns) base_paths.
Proof.
  unfold FileUtils.search_files.
  destruct (search_bases_forgiving env patterns base_paths [] [] [])
    as [H1 H2].
  destruct (search_bases_spec env patterns base_paths ([], []))
    as (_ & _ & Hevs).
  split_and!; [done|done|]. by rewrite Hevs.
Qed.

(** ** Walking a directory *)

Section Enumerate.

Context (env : Env).

Lemma entry_nested_ind (P : entry → Prop) :
  (∀ n content, P (EFile n content)) →
  (∀ n children, Forall P children → P (EDir n children)) →
  ∀ e, P e.
Proof.
  intros Hfile Hdir. fix IH 1. intros [n content|n children].
  - apply Hfile.
  - apply Hdir. induction children as [|c children IHc]; constructor.
    + apply IH.
    + apply IHc.
Qed.

Lemma str_drop_add a b k :
  str_drop (String.length a + k) (a +:+ b) = str_drop k b.
Proof. induction a as [|c a IH]; [done|]. rewrite str_app_cons. apply IH. Qed.

Lemma str_endswith_app a b suffix :
  str_endswith b suffix = true → str_endswith (a +:+ b) suffix = true.
Proof.
  unfold str_endswith. rewrite str_length_app.
  intros [Hle Heq]%andb_true_iff. apply Nat.leb_le in Hle.
  apply andb_true_iff. split; [apply Nat.leb_le; lia|].
  replace (String.length a + String.length b - String.length suffix)%nat
    with (String.length a + (String.length b - String.length suffix))%nat
    by lia.
  by rewrite str_drop_add.
Qed.

Lemma str_endswith_path_join a b suffix :
  str_endswith (str_lower b) suffix = true →
  str_endswith (str_lower (path_join a b)) suffix = true.
Proof.
  intros Hb. unfold path_join.
  destruct (str_startswith b "/"); [done|].
  destruct (negb (str_nonempty a) || str_endswith a "/");
    rewrite !str_lower_app; repeat apply str_endswith_app; done.
Qed.

Lemma extension_ok_path_join file_extension a b :
  FileUtils.extension_ok file_extension b = true →
  FileUtils.extension_ok file_extension (path_join a b) = true.
Proof.
  unfold FileUtils.extension_ok.
  intros [Hext|Hend]%orb_true_iff; apply orb_true_iff; [by left|right].
  by apply str_endswith_path_join.
Qed.

Lemma enumerate_root_ok directory_path file_extension root sd :
  sd ∈ FileUtils.enumerate_root env directory_path file_extension root →
  FileUtils.extension_ok file_extension sd.2 = true.
Proof.
  destruct root as [root_dir names]. unfold FileUtils.enumerate_root.
  intros Hin%list_elem_of_In%in_flat_map. destruct Hin as (name & _ & Hin).
  destruct (FileUtils.extension_ok file_extension name) eqn:Hok; [|done].
  destruct Hin as [<-|[]]. simpl.
  destruct (String.eqb _ "."); [done|by apply extension_ok_path_join].
Qed.

Lemma enumerate_root_length directory_path file_extension root :
  length (FileUtils.enumerate_root env directory_path file_extension root)
  = length (filter (λ name, FileUtils.extension_ok file_extension name = true)
              root.2).
Proof.
  destruct root as [root_dir names]. unfold FileUtils.enumerate_root. simpl.
  induction names as [|name names IH]; [done|].
  simpl. rewrite filter_cons, length_app, IH.
  destruct (FileUtils.extension_ok file_extension name); by case_decide.
Qed.

Lemma enumerate_roots_length directory_path file_extension roots :
  length (flat_map (FileUtils.enumerate_root env directory_path file_extension)
            roots)
  = length (filter (λ name, FileUtils.extension_ok file_extension name = true)
              (flat_map snd roots)).
Proof.
  induction roots as [|root roots IH]; [done|].
  simpl. rewrite filter_app, !length_app, IH.
  by rewrite enumerate_root_length.
Qed.

Let names_below (e : entry) : list string :=
  match e with
  | EFile _ _ => []
  | EDir _ children => flat_map entry_file_names children
  end.

Lemma walk_children_names root_dir children :
  Forall (λ c, ∀ parent,
            flat_map snd (FileUtils.walk_entry parent c) ≡ₚ names_below c)
         children →
  FileUtils.file_names children
    ++ flat_map snd (flat_map (FileUtils.walk_entry root_dir) children)
  ≡ₚ flat_map entry_file_names children.
Proof.
  induction 1 as [|c children Hc _ IH]; [done|].
  cbn [flat_map FileUtils.file_names]. fold (FileUtils.file_names children).
  rewrite flat_map_app. specialize (Hc root_dir).
  rewrite <- app_assoc,
    (Permutation_app_swap_app (FileUtils.file_names children)),
    IH, app_assoc.
  apply Permutation_app_tail. rewrite Hc.
  destruct c; [done|]. by rewrite app_nil_l.
Qed.

Lemma walk_entry_names e parent :
  flat_map snd (FileUtils.walk_entry parent e) ≡ₚ names_below e.
Proof.
  revert parent.
  induction e as [n content|n children IH] using entry_nested_ind;
    intros parent; [done|].
  cbn [FileUtils.walk_entry flat_map snd]. by apply walk_children_names.
Qed.

Lemma walk_names top children :
  flat_map snd (FileUtils.walk top children)
  ≡ₚ flat_map entry_file_names children.
Proof.
  unfold FileUtils.walk. cbn [flat_map snd].
  apply walk_children_names, Forall_forall. intros c _.
  apply walk_entry_names.
Qed.

End Enumerate.

(** X3. Walking a directory gives one pair for each regular file of the
    listed tree, at any depth, whose name passes the extension test, and
    nothing when the directory cannot be listed; whatever is returned, for a
    file or for a directory, has a destination that passes the test. *)
Theorem enumerate_directory_files_filtered (env : Env)
    (directory_path file_extension : string) :
  let result :=
    FileUtils.enumerate_directory_files env directory_path file_extension in
  (∀ sd, sd ∈ result → FileUtils.extension_ok file_extension sd.2 = true)
  ∧ (isfile env directory_path = false →
     length result
     = length (filter (λ name,
                         FileUtils.extension_ok file_extension name = true)
                 (flat_map entry_file_names
                    (default [] (listing env directory_path))))).
Proof.
  intros result. subst result. unfold FileUtils.enumerate_directory_files.
  split.
  - intros sd. destruct (isfile env directory_path).
    + destruct (FileUtils.extension_ok file_extension
                  (basename directory_path)) eqn:Hok.
      * by intros ->%list_elem_of_singleton.
      * by intros ?%elem_of_nil.
    + intros Hin%list_elem_of_In%in_flat_map.
      destruct Hin as (root & _ & Hin%list_elem_of_In).
      by eapply enumerate_root_ok.
  - intros ->. rewrite enumerate_roots_length. unfold FileUtils.os_walk.
    destruct (listing env directory_path) as [children|]; [|done].
    simpl default. by rewrite walk_names.
Qed.

(** ** From found items to targets *)

Section FoundItems.

Import FileOperations.

Context (env : Env) (device_name file_extension : string).

(** A target as [process_found_items] makes them. *)
Let fresh (t : FileTarget.t) : Prop :=
  FileTarget.device t = device_name
  ∧ FileTarget.cached t = false ∧ FileTarget.from_docker t = false.

Lemma add_targets_sound fs targets t :
  t ∈ add_targets device_name fs targets →
  t ∈ targets
  ∨ (FileTarget.src t, FileTarget.dest_rel t) ∈ fs ∧ fresh t.
Proof.
  revert targets.
  induction fs as [|[p d] fs IH]; intros targets; simpl; [auto|].
  destruct (existsb _ targets); intros [Hin|[Hin Hfresh]]%IH; auto.
  - right. split; [by apply elem_of_cons; right|done].
  - apply elem_of_app in Hin as [?| ->%list_elem_of_singleton]; [auto|].
    right. split; [apply elem_of_cons; by left|done].
  - right. split; [by apply elem_of_cons; right|done].
Qed.

Lemma add_targets_keeps fs targets t :
  t ∈ targets → t ∈ add_targets device_name fs targets.
Proof.
  intros Hin. destruct (add_targets_extends device_name fs targets)
    as [suffix ->].
  apply elem_of_app. by left.
Qed.

Lemma add_targets_covers fs targets p d :
  (p, d) ∈ fs → p ∈ FileTarget.src <$> add_targets device_name fs targets.
Proof.
  revert targets.
  induction fs as [|[p' d'] fs IH]; intros targets Hin;
    [by apply elem_of_nil in Hin|].
  apply elem_of_cons in Hin as [[= <- <-]|Hin]; simpl.
  - destruct (existsb _ targets) eqn:Hex.
    + apply existsb_src in Hex.
      apply list_elem_of_fmap in Hex as (t & -> & Ht).
      apply list_elem_of_fmap. exists t. split; [done|].
      by apply add_targets_keeps.
    + apply list_elem_of_fmap.
      exists (FileTarget.mk p device_name d false false). split; [done|].
      apply add_targets_keeps, elem_of_app. right. by left.
  - destruct (existsb _ targets); by apply IH.
Qed.

Lemma process_items_sound items acc t :
  t ∈ (process_items env items device_name file_extension acc).1 →
  t ∈ acc.1
  ∨ ∃ item fs, item ∈ items
               ∧ (item_files env item file_extension).1 = Some fs
               ∧ (FileTarget.src t, FileTarget.dest_rel t) ∈ fs ∧ fresh t.
Proof.
  revert acc.
  induction items as [|item items IH]; intros [targets evs]; simpl; [auto|].
  destruct (item_files env item file_extension) as [[fs|] evs'] eqn:Hitem;
    intros [Hin|(item' & fs' & ? & ? & ? & ?)]%IH; simpl in *.
  - apply add_targets_sound in Hin as [?|[? ?]]; [auto|].
    right. exists item, fs. rewrite Hitem.
    split_and!; [apply elem_of_cons; by left|done..].
  - right. exists item', fs'. split_and!; [by apply elem_of_cons; right|done..].
  - auto.
  - right. exists item', fs'. split_and!; [by apply elem_of_cons; right|done..].
Qed.

Lemma process_items_keeps items acc t :
  t ∈ acc.1 → t ∈ (process_items env items device_name file_extension acc).1.
Proof.
  intros Hin.
  destruct (process_items_extends env device_name file_extension items acc)
    as (ts & evs & ->).
  apply elem_of_app. by left.
Qed.

Lemma process_items_covers items acc item fs p d :
  item ∈ items → (item_files env item file_extension).1 = Some fs →
  (p, d) ∈ fs →
  p ∈ FileTarget.src <$>
        (process_items env items device_name file_extension acc).1.
Proof.
  revert acc.
  induction items as [|item' items IH]; intros [targets evs] Hitem Hfs Hin;
    [by apply elem_of_nil in Hitem|].
  apply elem_of_cons in Hitem as [<-|Hitem]; simpl.
  - destruct (item_files env item file_extension) as [files evs'].
    simpl in Hfs. subst files.
    pose proof (add_targets_covers fs targets p d Hin) as Hp.
    apply list_elem_of_fmap in Hp as (t & -> & Ht).
    apply list_elem_of_fmap. exists t. split; [done|].
    by apply process_items_keeps.
  - destruct (item_files env item' file_extension) as [files evs'].
    by apply IH.
Qed.

Lemma process_items_skip item items acc :
  item_files env item file_extension = (None, []) →
  process_items env (item :: items) device_name file_extension acc
  = process_items env items device_name file_extension acc.
Proof.
  intros Hitem. destruct acc as [targets evs]. simpl. rewrite Hitem. simpl.
  by rewrite app_nil_r.
Qed.

End FoundItems.

(** X4. The targets of [process_found_items] have pairwise different
    sources, which are exactly the sources of the files that the found
    items give; each carries the device name and is marked neither cached
    nor from a container. *)
Theorem process_found_items_sources (env : Env) (found_items : list string)
    (device_name file_extension : string) :
  let targets :=
    (FileOperations.process_found_items env found_items device_name
       file_extension).1 in
  NoDup (FileTarget.src <$> targets)
  ∧ (∀ t, t ∈ targets →
          FileTarget.device t = device_name
          ∧ FileTarget.cached t = false ∧ FileTarget.from_docker t = false)
  ∧ (∀ p, p ∈ FileTarget.src <$> targets
          ↔ ∃ item fs d,
              item ∈ found_items
              ∧ (FileOperations.item_files env item file_extension).1 = Some fs
              ∧ (p, d) ∈ fs).
Proof.
  intros targets. subst targets. unfold FileOperations.process_found_items.
  split_and!.
  - apply process_found_items_NoDup.
  - intros t [Hin|(item & fs & _ & _ & _ & Hfresh)]%process_items_sound;
      [by apply elem_of_nil in Hin|done].
  - intros p. split.
    + intros (t & -> & Hin)%list_elem_of_fmap.
      apply process_items_sound in Hin
        as [Hin|(item & fs & ? & ? & ? & _)]; [by apply elem_of_nil in Hin|].
      by exists item, fs, (FileTarget.dest_rel t).
    + intros (item & fs & d & ? & ? & ?). by eapply process_items_covers.
Qed.

(** X5. A found item that is neither a regular file with the device's
    extension nor a directory is passed over in silence: the targets and
    the events are those of the list without it. *)
Theorem unusable_item_skipped (env : Env) (found_before found_after : list string)
    (item device_name file_extension : string) :
  isfile env item
  && str_endswith (str_lower item) ("." +:+ str_lower file_extension) = false →
  isdir env item = false →
  FileOperations.process_found_items env (found_before ++ item :: found_after)
    device_name file_extension
  = FileOperations.process_found_items env (found_before ++ found_after)
      device_name file_extension.
Proof.
  intros Hfile Hdir. unfold FileOperations.process_found_items.
  rewrite !process_items_app. apply process_items_skip.
  unfold FileOperations.item_files. by rewrite Hfile, Hdir.
Qed.

Lemma unusable_item_skipped_witness :
  FileOperations.process_found_items sample_host
    ["/etc/suricata/rules/README"; "/etc/suricata/rules"] "suricata" "rules"
  = FileOperations.process_found_items sample_host
      ["/etc/suricata/rules"] "suricata" "rules".
Proof.
  exact (unusable_item_skipped sample_host [] ["/etc/suricata/rules"]
           "/etc/suricata/rules/README" "suricata" "rules" eq_refl eq_refl).
Defined.

(** ** Where a target is copied to *)

Lemma str_prefix_app p s : String.prefix p (p +:+ s) = true.
Proof.
  induction p as [|c p IH]; [by destruct s|].
  rewrite str_app_cons. simpl. destruct (ascii_dec c c); [done|congruence].
Qed.

Lemma path_join_absolute a b : str_startswith b "/" = true → path_join a b = b.
Proof. intros Hb. unfold path_join. by rewrite Hb. Qed.

Lemma path_join_relative a b :
  str_startswith b "/" = false →
  path_join a b = a +:+ b ∨ path_join a b = a +:+ "/" +:+ b.
Proof.
  intros Hb. unfold path_join. rewrite Hb.
  destruct (negb (str_nonempty a) || str_endswith a "/"); auto.
Qed.

(** X6. A target whose device name and relative destination do not begin
    with a separator is copied below the output directory. *)
Theorem destination_below_output_dir (target : FileTarget.t) :
  str_startswith (FileTarget.device target) "/" = false →
  str_startswith (FileTarget.dest_rel target) "/" = false →
  below OUTPUT_DIR (FileOperations.destination_of target) = true.
Proof.
  intros Hdevice Hdest. unfold FileOperations.destination_of, below.
  assert (path_join OUTPUT_DIR (FileTarget.device target)
          = (OUTPUT_DIR +:+ "/") +:+ FileTarget.device target) as ->.
  { unfold path_join. by rewrite Hdevice. }
  destruct (path_join_relative
              ((OUTPUT_DIR +:+ "/") +:+ FileTarget.device target)
              (FileTarget.dest_rel target) Hdest) as [-> | ->];
    unfold str_startswith; rewrite str_app_assoc; apply str_prefix_app.
Qed.

Lemma destination_below_output_dir_witness :
  below OUTPUT_DIR
    (FileOperations.destination_of
       (sample_target "/etc/suricata/rules/local.rules")) = true.
Proof.
  exact (destination_below_output_dir
           (sample_target "/etc/suricata/rules/local.rules")
           eq_refl eq_refl).
Defined.

(** X7. When the anchor token is followed by one more character and then
    a separator, the relative destination starts with that separator:
    [os.path.join] then drops the output directory, and the file is bound
    for the absolute path that follows the anchor. *)
Theorem anchor_destination_leaves_output_dir (env : Env)
    (found_before found_after : list string)
    (item device_name file_extension pre tok : string) (c : ascii)
    (rest : string) :
  isfile env item = true →
  str_endswith (str_lower item) ("." +:+ str_lower file_extension) = true →
  item ∉ FileTarget.src <$>
           (FileOperations.process_found_items env found_before
              device_name file_extension).1 →
  item = pre +:+ tok +:+ String c ("/" +:+ rest) →
  str_lower tok = "policy" →
  str_find (str_lower item) "policy" = Z.of_nat (String.length pre) →
  let target := FileTarget.mk item device_name ("/" +:+ rest) false false in
  target ∈ (FileOperations.process_found_items env
              (found_before ++ item :: found_after)
              device_name file_extension).1
  ∧ FileOperations.destination_of target = "/" +:+ rest
  ∧ below OUTPUT_DIR (FileOperations.destination_of target) = false.
Proof.
  intros Hfile Hext Hfresh Hitem Htok Hfind target.
  assert (FileOperations.destination_of target = "/" +:+ rest) as Hdest.
  { unfold FileOperations.destination_of. apply path_join_absolute.
    apply (str_prefix_app "/" rest). }
  split_and!; [|done|rewrite Hdest; reflexivity].
  pose proof (item_files_anchor env file_extension item pre tok c
                ("/" +:+ rest) Hfile Hext Hitem Htok Hfind
                ltac:(discriminate)) as Hfiles.
  destruct (single_file_kept env device_name file_extension found_before item
              found_after _ _ Hfiles Hfresh) as [Hone _].
  by apply Hone.
Qed.

Lemma anchor_destination_leaves_output_dir_witness :
  FileTarget.mk versioned_rule "zeek" "/tuning.zeek" false false
  ∈ (FileOperations.process_found_items versioned_host [versioned_rule]
       "zeek" "zeek").1
  ∧ FileOperations.destination_of
      (FileTarget.mk versioned_rule "zeek" "/tuning.zeek" false false)
    = "/tuning.zeek".
Proof.
  destruct (anchor_destination_leaves_output_dir versioned_host [] []
              versioned_rule "zeek" "zeek" "/opt/zeek/share/zeek/" "policy"
              "2"%char "tuning.zeek" eq_refl eq_refl (not_elem_of_nil _)
              eq_refl eq_refl eq_refl) as (Hin & Hdest & _).
  exact (conj Hin Hdest).
Defined.

(** ** Hashing, pass after pass *)

Section Filters.

Context {A : Type} (P Q : A → Prop) `{!∀ x, Decision (P x)}
  `{!∀ x, Decision (Q x)}.

Lemma filter_none (l : list A) : (∀ x, x ∈ l → ¬ P x) → filter P l = [].
Proof.
  induction l as [|x l IH]; intros Hl; [done|].
  rewrite filter_cons. case_decide as HP.
  - destruct (Hl x); [by left|done].
  - apply IH. intros y Hy. apply Hl. by right.
Qed.

Lemma filter_agree (l : list A) :
  (∀ x, x ∈ l → P x ↔ Q x) → filter P l = filter Q l.
Proof.
  induction l as [|x l IH]; intros Hl; [done|].
  rewrite !filter_cons, IH by (intros y Hy; apply Hl; by right).
  pose proof (Hl x ltac:(by left)) as Hx.
  repeat case_decide; tauto.
Qed.

Lemma filter_split_length (l : list A) :
  (∀ x, x ∈ l → ¬ (P x ∧ Q x)) →
  (length (filter P l) + length (filter Q l)
   + length (filter (λ x, ¬ P x ∧ ¬ Q x) l) = length l)%nat.
Proof.
  induction l as [|x l IH]; intros Hl; [done|].
  rewrite !filter_cons. specialize (IH (λ y Hy, Hl y ltac:(by right))).
  pose proof (Hl x ltac:(by left)) as Hx.
  repeat case_decide; simpl; try lia; tauto.
Qed.

End Filters.

Section HashingPasses.

Import FileOperations.

Context (env : Env) (files old : gmap string string).
Hypothesis digest_nonempty : ∀ content, md5_hexdigest env content ≠ "".

Let digest (p : string) : option string := md5_hexdigest env <$> files !! p.

Lemma hash_loop_events_exact targets new changed n evs :
  (hash_loop env files old targets (new, changed, n, evs)).2
  = evs ++ ((λ t, Error (MsgHashFailed (FileTarget.src t)))
              <$> filter (λ t, files !! FileTarget.src t = None) targets).
Proof.
  revert new changed n evs.
  induction targets as [|t targets IH]; intros new changed n evs.
  - simpl. by rewrite app_nil_r.
  - rewrite (hash_loop_cons env files old digest_nonempty), filter_cons.
    destruct (files !! FileTarget.src t) as [content|] eqn:Hfile; simpl.
    + destruct (decide _); apply IH.
    + by rewrite IH, <- app_assoc.
Qed.

Lemma calculate_file_hashes_record targets p :
  (calculate_file_hashes env files targets old).1.1.1 !! p
  = if decide (p ∈ FileTarget.src <$> targets) then digest p else None.
Proof.
  unfold calculate_file_hashes.
  rewrite (hash_loop_record env files old digest_nonempty), lookup_empty.
  fold (digest p). by destruct (digest p).
Qed.

End HashingPasses.

(** X8. Hashing accounts for every target: each one is reported changed,
    counted unchanged, or cannot be read; the unreadable ones are those,
    and only those, for which an error is logged, in the order of the
    targets. *)
Theorem hashing_accounts_for_every_target (env : Env)
    (files old : gmap string string) (targets : list FileTarget.t) :
  (∀ content, md5_hexdigest env content ≠ "") →
  let result := FileOperations.calculate_file_hashes env files targets old in
  let unreadable :=
    filter (λ t, files !! FileTarget.src t = None) targets in
  (length result.1.1.2 + result.1.2 + length unreadable = length targets)%nat
  ∧ result.2 = (λ t, Error (MsgHashFailed (FileTarget.src t))) <$> unreadable.
Proof.
  intros Hne result unreadable. subst result unreadable.
  unfold FileOperations.calculate_file_hashes.
  rewrite (hash_loop_changed env files old Hne),
    (hash_loop_unchanged env files old Hne),
    (hash_loop_events_exact env files old Hne).
  split; [|done]. simpl.
  pose proof (filter_split_length
    (λ t, is_Some (md5_hexdigest env <$> files !! FileTarget.src t)
          ∧ old !! FileTarget.src t
            ≠ md5_hexdigest env <$> files !! FileTarget.src t)
    (λ t, is_Some (md5_hexdigest env <$> files !! FileTarget.src t)
          ∧ old !! FileTarget.src t
            = md5_hexdigest env <$> files !! FileTarget.src t) targets
    ltac:(intros t _; tauto)) as Hsplit.
  etransitivity; [|exact Hsplit]. do 2 f_equal. apply filter_agree.
  intros t _.
  rewrite fmap_is_Some, <- not_eq_None_Some.
  destruct (decide (files !! FileTarget.src t = None)); [tauto|].
  split; [done|]. intros [H1 H2].
  destruct (decide (old !! FileTarget.src t
                    = md5_hexdigest env <$> files !! FileTarget.src t)); tauto.
Qed.

Lemma hashing_accounts_for_every_target_witness :
  let result :=
    FileOperations.calculate_file_hashes sample_host sample_store
      sample_targets sample_old_record in
  (length result.1.1.2 + result.1.2 + 1 = 3)%nat
  ∧ result.2 = [Error (MsgHashFailed "/etc/suricata/rules/README")].
Proof.
  exact (hashing_accounts_for_every_target sample_host sample_store
           sample_old_record sample_targets sample_digest_nonempty).
Defined.

(** X9. Hashing settles: a second pass over the same files, given the
    record that the first pass produced, reports nothing changed, counts
    every readable target as unchanged, and produces the same record and
    the same errors. *)
Theorem hashing_settles (env : Env) (files old : gmap string string)
    (targets : list FileTarget.t) :
  (∀ content, md5_hexdigest env content ≠ "") →
  let first := FileOperations.calculate_file_hashes env files targets old in
  let second :=
    FileOperations.calculate_file_hashes env files targets first.1.1.1 in
  second.1.1.1 = first.1.1.1
  ∧ second.1.1.2 = []
  ∧ second.1.2
    = length (filter (λ t, is_Some (files !! FileTarget.src t)) targets)
  ∧ second.2 = first.2.
Proof.
  intros Hne first second.
  assert (∀ t, t ∈ targets →
               is_Some (md5_hexdigest env <$> files !! FileTarget.src t) →
               first.1.1.1 !! FileTarget.src t
               = md5_hexdigest env <$> files !! FileTarget.src t) as Hfirst.
  { intros t Ht _. unfold first.
    rewrite (calculate_file_hashes_record env files old Hne).
    rewrite decide_True; [done|]. apply list_elem_of_fmap. by exists t. }
  split_and!.
  - apply map_eq. intros p. unfold second, first.
    by rewrite !calculate_file_hashes_record.
  - unfold second, FileOperations.calculate_file_hashes.
    rewrite (hash_loop_changed env files _ Hne). simpl.
    apply filter_none. intros t Ht [Hsome Hdiff]. by apply Hdiff, Hfirst.
  - unfold second, FileOperations.calculate_file_hashes.
    rewrite (hash_loop_unchanged env files _ Hne). simpl.
    f_equal. apply filter_agree. intros t Ht. rewrite fmap_is_Some.
    split; [tauto|]. intros Hsome. split; [done|].
    apply Hfirst; [done|]. by rewrite fmap_is_Some.
  - unfold second, first, FileOperations.calculate_file_hashes.
    by rewrite !(hash_loop_events_exact env files _ Hne).
Qed.

Lemma hashing_settles_witness :
  let first :=
    FileOperations.calculate_file_hashes sample_host sample_store
      sample_targets sample_old_record in
  (FileOperations.calculate_file_hashes sample_host sample_store
     sample_targets first.1.1.1).1.1.2 = []
  ∧ (FileOperations.calculate_file_hashes sample_host sample_store
       sample_targets first.1.1.1).1.2 = 2%nat.
Proof.
  destruct (hashing_settles sample_host sample_store sample_old_record
              sample_targets sample_digest_nonempty) as (_ & H2 & H3 & _).
  exact (conj H2 H3).
Defined.

(** ** Deduplication as a fixed point *)

Lemma dedup_loop_fixed targets seen :
  NoDup (FileTarget.src <$> targets) →
  (∀ t, t ∈ targets → FileTarget.src t ∉ seen) →
  RulesCollector.dedup_loop targets seen [] = targets.
Proof.
  revert seen.
  induction targets as [|t targets IH]; intros seen Hnd Hseen; [done|].
  rewrite dedup_loop_cons. rewrite fmap_cons in Hnd.
  apply NoDup_cons in Hnd as [Hfresh Hnd].
  rewrite bool_decide_eq_true_2 by (apply Hseen; by left).
  f_equal. apply IH; [done|]. intros u Hu.
  apply not_elem_of_union. split; [|apply Hseen; by right].
  intros Heq%elem_of_singleton. apply Hfresh, list_elem_of_fmap. by exists u.
Qed.

(** X10. Deduplication changes nothing, not even the order, exactly when
    no source path is repeated; in particular a second application has no
    effect. *)
Theorem dedup_is_a_fixed_point (targets : list FileTarget.t) :
  (RulesCollector._deduplicate_targets targets = targets
   ↔ NoDup (FileTarget.src <$> targets))
  ∧ RulesCollector._deduplicate_targets
      (RulesCollector._deduplicate_targets targets)
    = RulesCollector._deduplicate_targets targets.
Proof.
  assert (∀ l, NoDup (FileTarget.src <$> l) →
               RulesCollector._deduplicate_targets l = l) as Hfixed.
  { intros l Hnd. apply dedup_loop_fixed; [done|]. intros t _.
    apply not_elem_of_empty. }
  split; [split|].
  - intros <-. apply dedup_loop_NoDup.
  - apply Hfixed.
  - apply Hfixed, dedup_loop_NoDup.
Qed.

(** ** The cache files *)

Section CacheFiles.

Context (env : Env).

Lemma list_filter_all {A} (f : A → bool) (l : list A) :
  List.filter f l = l ↔ Forall (λ x, f x = true) l.
Proof.
  induction l as [|x l IH]; simpl; [by split; [constructor|]|].
  destruct (f x) eqn:Hx.
  - rewrite Forall_cons. split.
    + intros [= Hl]. split; [done|]. by apply IH.
    + intros [_ Hl]. f_equal. by apply IH.
  - split.
    + intros Heq. pose proof (List.filter_length_le f l) as Hle.
      rewrite Heq in Hle. simpl in Hle. lia.
    + intros [Hx' _]%Forall_cons. congruence.
Qed.

Lemma list_filter_twice {A} (f : A → bool) (l : list A) :
  List.filter f (List.filter f l) = List.filter f l.
Proof.
  apply list_filter_all, Forall_forall. intros x Hx%list_elem_of_In.
  by apply List.filter_In in Hx as [_ Hx].
Qed.

Lemma stale_warnings_none paths :
  flat_map (λ path_info,
              if CacheManager.still_exists env path_info then []
              else [Warning (MsgCachePathStale (PathInfo.path path_info))])
           paths = []
  ↔ Forall (λ path_info, CacheManager.still_exists env path_info = true) paths.
Proof.
  induction paths as [|path_info paths IH]; simpl; [by split; [constructor|]|].
  rewrite Forall_cons.
  destruct (CacheManager.still_exists env path_info); simpl.
  - rewrite IH. tauto.
  - split; [done|]. by intros [? _].
Qed.

Lemma flat_map_nil {A B} (f : A → list B) (l : list A) :
  flat_map f l = [] ↔ Forall (λ x, f x = []) l.
Proof.
  induction l as [|x l IH]; simpl; [by split; [constructor|]|].
  rewrite Forall_cons, <- IH. split.
  - by intros [? ?]%app_eq_nil.
  - by intros [-> ->].
Qed.

Lemma verify_quiet path_cache :
  (CacheManager.verify_cached_paths env path_cache).2 = []
  ↔ (CacheManager.verify_cached_paths env path_cache).1 = path_cache.
Proof.
  unfold CacheManager.verify_cached_paths. simpl.
  rewrite flat_map_nil, Forall_forall. split.
  - intros Hquiet. apply map_eq. intros device. rewrite lookup_fmap.
    destruct (path_cache !! device) as [paths|] eqn:Hdevice; [|done].
    simpl. f_equal. apply list_filter_all, stale_warnings_none.
    by apply (Hquiet (device, paths)), elem_of_map_to_list.
  - intros Hsame [device paths] Hin%elem_of_map_to_list. simpl.
    apply stale_warnings_none, list_filter_all.
    apply (f_equal (λ m, m !! device)) in Hsame.
    rewrite lookup_fmap, Hin in Hsame. simpl in Hsame. congruence.
Qed.

End CacheFiles.

(** X11. Verification keeps the key of every device, also of one whose
    entries are all gone; it logs nothing exactly when it drops nothing;
    and once verified, a cache passes verification unchanged and without a
    warning. *)
Theorem verify_cached_paths_settles (env : Env)
    (path_cache : gmap string (list PathInfo.t)) :
  let verified := (CacheManager.verify_cached_paths env path_cache).1 in
  dom verified = dom path_cache
  ∧ ((CacheManager.verify_cached_paths env path_cache).2 = []
     ↔ verified = path_cache)
  ∧ CacheManager.verify_cached_paths env verified = (verified, []).
Proof.
  intros verified. split_and!.
  - apply dom_fmap_L.
  - apply verify_quiet.
  - assert ((CacheManager.verify_cached_paths env verified).1 = verified)
      as Hsame.
    { unfold verified, CacheManager.verify_cached_paths. simpl.
      apply map_eq. intros device. rewrite !lookup_fmap.
      destruct (path_cache !! device); [|done]. simpl.
      by rewrite list_filter_twice. }
    pose proof (proj2 (verify_quiet env verified) Hsame) as Hquiet.
    destruct (CacheManager.verify_cached_paths env verified). simpl in *.
    by subst.
Qed.

(** ** The path cache that a scan writes *)

Section PathCache.

Import RulesCollector.

Context (env : Env).

Lemma to_path_info_cached device_name path_info :
  to_path_info (cached_target device_name path_info) = path_info.
Proof. by destruct path_info. Qed.

Lemma alter_append_twice (device_name : string) (l1 l2 : list PathInfo.t)
    (cache : gmap string (list PathInfo.t)) :
  alter (λ paths, paths ++ l2) device_name
    (alter (λ paths, paths ++ l1) device_name cache)
  = alter (λ paths, paths ++ l1 ++ l2) device_name cache.
Proof.
  rewrite alter_alter_eq. apply alter_ext. intros paths _. simpl.
  by rewrite app_assoc.
Qed.

Lemma alter_append_nil (device_name : string)
    (cache : gmap string (list PathInfo.t)) :
  alter (λ paths, paths ++ []) device_name cache = cache.
Proof. apply alter_id. intros paths _. apply app_nil_r. Qed.

Lemma process_cached_paths_spec device_name cached_paths cache :
  _process_cached_paths env device_name cached_paths cache
  = (cached_target device_name
       <$> List.filter (CacheManager.still_exists env) cached_paths,
     alter (λ paths,
              paths ++ List.filter (CacheManager.still_exists env) cached_paths)
           device_name cache).
Proof.
  revert cache.
  induction cached_paths as [|path_info cached_paths IH]; intros cache; simpl.
  - by rewrite alter_append_nil.
  - change (path_exists env (PathInfo.path path_info))
      with (CacheManager.still_exists env path_info).
    destruct (CacheManager.still_exists env path_info); [|apply IH].
    rewrite IH. unfold cache_append. rewrite alter_append_twice.
    by destruct path_info.
Qed.

Lemma foldl_cache_append device_name (new_targets : list FileTarget.t) cache :
  foldl (λ cache target,
           cache_append device_name
             (PathInfo.mk (FileTarget.src target) (FileTarget.dest_rel target))
             cache)
        cache new_targets
  = alter (λ paths, paths ++ (to_path_info <$> new_targets)) device_name cache.
Proof.
  revert cache.
  induction new_targets as [|t new_targets IH]; intros cache; simpl.
  - by rewrite alter_append_nil.
  - rewrite IH. unfold cache_append. by rewrite alter_append_twice.
Qed.

Lemma process_local_device_cache device_name device_config use_cache
    verified_cache cache :
  let r := _process_local_device env device_name device_config use_cache
             verified_cache cache in
  r.1.2 = alter (λ paths, paths ++ (to_path_info <$> r.1.1)) device_name cache.
Proof.
  unfold _process_local_device.
  destruct (cache_usable use_cache verified_cache device_name); simpl.
  - rewrite process_cached_paths_spec. simpl.
    rewrite app_nil_r, <- list_fmap_compose.
    apply alter_ext. intros paths _. f_equal. symmetry.
    etransitivity; [|apply list_fmap_id].
    apply list_fmap_ext. intros i path_info _. simpl.
    by rewrite to_path_info_cached.
  - destruct (_search_device_paths env device_config) as [found_items evs].
    destruct (FileOperations.process_found_items env found_items
                device_name (DeviceConfig.file_type device_config))
      as [new_targets evs'].
    simpl. apply foldl_cache_append.
Qed.

(** What the scan records for a device. *)
Let recorded (use_cache : bool)
    (verified_cache : gmap string (list PathInfo.t))
    (device : string * DeviceConfig.t) : string * list PathInfo.t :=
  (device.1,
   match DeviceConfig.type device.2 with
   | Local => to_path_info <$> device_targets env use_cache verified_cache device
   | Docker => []
   end).

Lemma scan_devices_cache use_cache verified_cache devices all_targets cache w :
  NoDup devices.*1 →
  (scan_devices env use_cache verified_cache devices all_targets cache w).1.2
  = list_to_map (recorded use_cache verified_cache <$> devices) ∪ cache.
Proof.
  revert all_targets cache w.
  induction devices as [|[device_name device_config] devices IH];
    intros all_targets cache w Hnd.
  - simpl. by rewrite (left_id_L ∅ (∪)).
  - rewrite fmap_cons in Hnd. apply NoDup_cons in Hnd as [Hfresh Hnd].
    assert ((list_to_map (recorded use_cache verified_cache <$> devices)
               : gmap string (list PathInfo.t)) !! device_name = None)
      as Hnone.
    { apply not_elem_of_list_to_map_1. rewrite <- list_fmap_compose.
      assert (fst ∘ recorded use_cache verified_cache <$> devices
              = devices.*1) as ->; [|done].
      apply list_fmap_ext. by intros i [name config] _. }
    cbn [scan_devices fmap list_fmap list_to_map foldr].
    destruct (DeviceConfig.type device_config) eqn:Htype.
    + pose proof (process_local_device_cache device_name device_config
                    use_cache verified_cache (<[device_name := []]> cache))
        as Hcache.
      pose proof (process_local_device_targets env use_cache verified_cache
                    device_name device_config
                    (<[device_name := []]> cache) ∅) as Hsame.
      destruct (_process_local_device env device_name device_config
                  use_cache verified_cache (<[device_name := []]> cache))
        as [[device_targets' cache'] evs].
      unfold bind, tell. cbn [fst snd] in *.
      assert ((recorded use_cache verified_cache
                 (device_name, device_config)).2
              = to_path_info <$> device_targets') as ->.
      { unfold recorded, device_targets. cbn [fst snd].
        by rewrite Htype, Hsame. }
      rewrite IH by done. rewrite Hcache, alter_insert_eq.
      cbn [uncurry fst snd app]. rewrite <- insert_union_l.
      symmetry. by apply insert_union_r.
    + destruct (DockerOperations.collect_from_docker_container env _ _ _ _)
        as [[docker_files extraction] evs].
      unfold bind, tell. cbn [fst snd].
      destruct (DockerOperations.store_extraction extraction _) as [[] w'].
      assert ((recorded use_cache verified_cache
                 (device_name, device_config)).2 = []) as ->.
      { unfold recorded. cbn [fst snd]. by rewrite Htype. }
      rewrite IH by done. cbn [uncurry fst snd].
      rewrite <- insert_union_l. symmetry. by apply insert_union_r.
Qed.

Lemma store_extraction_faults extraction w :
  faults (DockerOperations.store_extraction extraction w).2 = faults w.
Proof. by destruct extraction as [[temp_destination tree]|]. Qed.

Lemma scan_devices_faults use_cache verified_cache devices all_targets cache w :
  faults (scan_devices env use_cache verified_cache devices all_targets
            cache w).2 = faults w.
Proof.
  revert all_targets cache w.
  induction devices as [|[device_name device_config] devices IH];
    intros all_targets cache w; [done|].
  cbn [scan_devices].
  destruct (DeviceConfig.type device_config).
  - destruct (_process_local_device env device_name device_config
                use_cache verified_cache (<[device_name := []]> cache))
      as [[device_targets' cache'] evs].
    unfold bind, tell. cbn [fst snd]. by rewrite IH.
  - destruct (DockerOperations.collect_from_docker_container env _ _ _ _)
      as [[docker_files extraction] evs].
    unfold bind, tell. cbn [fst snd].
    pose proof (store_extraction_faults extraction
                  {| files := files w;
                     dirs := dirs w;
                     hash_record_file := hash_record_file w;
                     path_cache_file := path_cache_file w;
                     faults := faults w;
                     journal := journal w ++ evs |}) as Hstore.
    destruct (DockerOperations.store_extraction extraction _) as [[] w'].
    rewrite IH. exact Hstore.
Qed.

End PathCache.



(** X14. While a scan goes through a local device, that device's list in
    the new path cache grows by one entry per target returned, in order,
    whether the targets come from the old cache or from a search; the
    lists of the other devices are left alone. *)
Theorem local_device_records_its_targets (env : Env) (device_name : string)
    (device_config : DeviceConfig.t) (use_cache : bool)
    (verified_cache new_path_cache : gmap string (list PathInfo.t))
    (recorded : list PathInfo.t) :
  new_path_cache !! device_name = Some recorded →
  let result :=
    RulesCollector._process_local_device env device_name device_config
      use_cache verified_cache new_path_cache in
  result.1.2
  = <[device_name := recorded ++ (to_path_info <$> result.1.1)]> new_path_cache.
Proof.
  intros Hrecorded result. unfold result.
  rewrite process_local_device_cache.
  apply map_eq. intros device.
  destruct (decide (device = device_name)) as [->|Hother].
  - by rewrite lookup_alter_eq, lookup_insert_eq, Hrecorded.
  - by rewrite lookup_alter_ne, lookup_insert_ne.
Qed.

Lemma local_device_records_its_targets_witness :
  (RulesCollector._process_local_device sample_host "zeek" zeek_device false
     ∅ {[ "zeek" := [] ]}).1.2
  = <[ "zeek" :=
         [] ++ (to_path_info
                  <$> (RulesCollector._process_local_device sample_host "zeek"
                         zeek_device false ∅ {[ "zeek" := [] ]}).1.1) ]>
      {[ "zeek" := [] ]}.
Proof.
  exact (local_device_records_its_targets sample_host "zeek" zeek_device false
           ∅ {[ "zeek" := [] ]} [] eq_refl).
Defined.

(** X15. The path cache that a scan hands to [save_path_cache] has one key
    per configured device and nothing else: a local device maps to the
    entries of the targets found for it in this scan, before
    de-duplication, and a Docker device to the empty list.  When the write
    goes through, this is the content of the cache file afterwards. *)
Theorem scan_regenerates_path_cache (env : Env)
    (devices : list (string * DeviceConfig.t)) (use_cache : bool)
    (verified_cache : gmap string (list PathInfo.t)) (w : World) :
  NoDup devices.*1 →
  default NoFault (head (faults w)) = NoFault →
  path_cache_file
    (RulesCollector._scan_rule_files env devices use_cache verified_cache w).2
  = Some (list_to_map
            ((λ device : string * DeviceConfig.t,
                (device.1,
                 match DeviceConfig.type device.2 with
                 | Local =>
                     to_path_info
                       <$> device_targets env use_cache verified_cache device
                 | Docker => []
                 end)) <$> devices)).
Proof.
  intros Hnd Hfault. unfold RulesCollector._scan_rule_files, bind.
  pose proof (scan_devices_cache env use_cache verified_cache devices [] ∅ w
                Hnd) as Hcache.
  pose proof (scan_devices_faults env use_cache verified_cache devices [] ∅ w)
    as Hfaults.
  destruct (RulesCollector.scan_devices env use_cache verified_cache devices
              [] ∅ w) as [[all_targets cache] w'].
  cbn [fst snd] in *. rewrite (right_id_L ∅ (∪)) in Hcache. subst cache.
  unfold CacheManager.save_path_cache, next_fault, bind.
  rewrite Hfaults.
  destruct (faults w) as [|[| |junk] pending]; simpl in *; done.
Qed.

Lemma scan_regenerates_path_cache_witness :
  path_cache_file
    (RulesCollector._scan_rule_files sample_host
       [("zeek", zeek_device); ("waf", waf_device)] false ∅
       (quiet_world ∅ None None)).2
  = Some {[ "zeek" :=
              [PathInfo.mk zeek_rule "protocols/ssh/detect-bruteforcing.zeek"];
            "waf" := [] ]}.
Proof.
  etransitivity.
  - exact (scan_regenerates_path_cache sample_host
             [("zeek", zeek_device); ("waf", waf_device)] false ∅
             (quiet_world ∅ None None)
             ltac:(repeat constructor; set_solver) eq_refl).
  - vm_compute. reflexivity.
Defined.

(** ** A whole run *)

Section RunResult.

Import RulesCollector.

Context (env : Env).

Lemma count_if_le f (targets : list FileTarget.t) :
  (count_if f targets ≤ length targets)%nat.
Proof. apply List.filter_length_le. Qed.

Lemma hash_loop_bound files old targets new changed n evs :
  let r := FileOperations.hash_loop env files old targets
             (new, changed, n, evs) in
  (length r.1.1.2 + r.1.2 ≤ length changed + n + length targets)%nat.
Proof.
  revert new changed n evs.
  induction targets as [|t targets IH]; intros new changed n evs;
    cbn [FileOperations.hash_loop]; [simpl; lia|].
  unfold FileUtils.calculate_file_hash.
  destruct (files !! FileTarget.src t) as [content|];
    [destruct (str_nonempty _); [case_bool_decide|]|];
    (etransitivity; [apply IH|]); rewrite ?length_app; simpl; lia.
Qed.

Lemma hash_loop_first_run files targets new changed n evs :
  (FileOperations.hash_loop env files ∅ targets (new, changed, n, evs)).1.2
  = n.
Proof.
  revert new changed n evs.
  induction targets as [|t targets IH]; intros new changed n evs;
    cbn [FileOperations.hash_loop]; [done|].
  unfold FileUtils.calculate_file_hash.
  destruct (files !! FileTarget.src t) as [content|];
    [destruct (str_nonempty _); [case_bool_decide as Hold|]|]; try apply IH.
  by rewrite lookup_empty in Hold.
Qed.

Lemma copy_loop_sublist changed_files copied_files w copied :
  (FileOperations.copy_loop changed_files copied_files w).1 = Some copied →
  ∃ l, copied = copied_files ++ l
       ∧ l `sublist_of` (FileOperations.destination_of <$> changed_files).
Proof.
  revert copied_files w.
  induction changed_files as [|target changed_files IH];
    intros copied_files w; cbn [FileOperations.copy_loop].
  - intros [= <-]. exists []. split; [by rewrite app_nil_r|done].
  - unfold bind, FileUtils.ensure_directory_exists, ret.
    destruct (os_makedirs _ w) as [[|] w0]; [|done].
    destruct (FileUtils.safe_copy _ _ w0) as [[] w'].
    + intros Hcopied.
      destruct (IH (copied_files
                      ++ [FileOperations.destination_of target]) w' Hcopied)
        as (l & Heq & Hsub).
      exists (FileOperations.destination_of target :: l).
      split; [by rewrite Heq, <- app_assoc|]. by apply sublist_skip.
    + intros Hcopied.
      destruct (IH copied_files w' Hcopied) as (l & Heq & Hsub).
      exists l. split; [done|]. by apply sublist_cons.
Qed.

(** What a run returns, when it returns. *)
Lemma collect_rules_result (devices : list (string * DeviceConfig.t))
    (force_rescan : bool) (w : World) (result : CollectionResult) :
  (collect_rules env devices force_rescan w).1 = Some result →
  let w0 := (os_makedirs DOCKER_TEMP_DIR (os_makedirs OUTPUT_DIR w).2).2 in
  let old_hash_record := default ∅ (hash_record_file w) in
  let path_cache := default ∅ (path_cache_file w) in
  let decided := _decide_scan_strategy env force_rescan path_cache in
  let scanned :=
    _scan_rule_files env devices decided.1.1 decided.1.2
      (tell decided.2 w0).2 in
  let hashed :=
    FileOperations.calculate_file_hashes env (files scanned.2) scanned.1
      old_hash_record in
  let copied_files :=
    (FileOperations.copy_changed_files hashed.1.1.2
       (tell hashed.2 scanned.2).2).1 in
  match scanned.1 with
  | [] => result = empty_result
  | _ :: _ =>
      copied_files = Some (copied result)
      ∧ result
        = {| total := length scanned.1;
             copied := copied result;
             unchanged := hashed.1.2;
             changed := length hashed.1.1.2;
             local_files :=
               (length scanned.1
                - count_if FileTarget.from_docker scanned.1)%nat;
             docker_files := count_if FileTarget.from_docker scanned.1;
             cached_paths_used := count_if FileTarget.cached scanned.1;
             new_paths_found :=
               (length scanned.1 - count_if FileTarget.cached scanned.1)%nat |}
  end.
Proof.
  rewrite collect_rules_unfold. cbv zeta.
  destruct (run_start_caches w) as (-> & -> & _).
  destruct (negb (os_makedirs OUTPUT_DIR w).1); [done|].
  destruct (negb (os_makedirs DOCKER_TEMP_DIR _).1); [done|].
  destruct (_scan_rule_files env devices _ _ _).1 as [|target all_targets];
    cbn [fst]; [by intros [= <-]|].
  destruct (FileOperations.copy_changed_files _ _).1 as [copied_files|];
    cbn [fst]; [|done].
  by intros [= <-].
Qed.

Lemma decide_without_path_cache force_rescan :
  _decide_scan_strategy env force_rescan ∅ = (false, ∅, []).
Proof.
  unfold _decide_scan_strategy.
  rewrite (bool_decide_eq_true_2 (∅ = ∅)) by done.
  by rewrite andb_false_r.
Qed.

Lemma collect_rules_without_path_cache
    (devices : list (string * DeviceConfig.t)) (w : World) :
  default ∅ (path_cache_file w) = ∅ →
  collect_rules env devices false w = collect_rules env devices true w.
Proof.
  intros Hnone. rewrite !collect_rules_unfold. cbv zeta.
  destruct (run_start_caches w) as (_ & -> & _).
  by rewrite Hnone, !decide_without_path_cache.
Qed.

End RunResult.

(** X16. The counts that a run reports fit together: local and Docker
    files add up to the total, and so do cached and new paths; changed and
    unchanged files together never exceed it; and the copied paths are
    destinations of changed files, in order, so there are at most as many. *)
Theorem run_statistics_add_up (env : Env)
    (devices : list (string * DeviceConfig.t)) (force_rescan : bool)
    (w : World) (r : RulesCollector.CollectionResult) :
  (RulesCollector.collect_rules env devices force_rescan w).1 = Some r →
  (RulesCollector.local_files r + RulesCollector.docker_files r
   = RulesCollector.total r)%nat
  ∧ (RulesCollector.cached_paths_used r + RulesCollector.new_paths_found r
     = RulesCollector.total r)%nat
  ∧ (RulesCollector.changed r + RulesCollector.unchanged r
     ≤ RulesCollector.total r)%nat
  ∧ (length (RulesCollector.copied r) ≤ RulesCollector.changed r)%nat
  ∧ (RulesCollector.total r = 0%nat → r = RulesCollector.empty_result).
Proof.
  intros Hrun. apply collect_rules_result in Hrun. cbv zeta in Hrun.
  set (old_hash_record := default ∅ (hash_record_file w)) in *.
  set (decided := RulesCollector._decide_scan_strategy env force_rescan _)
    in *.
  set (scanned := RulesCollector._scan_rule_files env devices _ _ _) in *.
  destruct scanned.1 as [|target all_targets] eqn:Hscanned;
    [by subst r; repeat split|].
  set (targets := target :: all_targets) in *.
  set (hashed := FileOperations.calculate_file_hashes env _ _ _) in *.
  destruct Hrun as [Hcopied Hresult].
  pose proof (count_if_le FileTarget.from_docker targets).
  pose proof (count_if_le FileTarget.cached targets).
  pose proof (hash_loop_bound env (files scanned.2) old_hash_record targets
                ∅ [] 0%nat []) as Hbound.
  destruct (copy_loop_sublist hashed.1.1.2 []
              (tell hashed.2 scanned.2).2 _ Hcopied) as (l & Hl & Hsub).
  apply sublist_length in Hsub. rewrite length_fmap in Hsub.
  rewrite app_nil_l in Hl.
  change (length hashed.1.1.2 + hashed.1.2 ≤ 0 + 0 + length targets)%nat
    in Hbound.
  rewrite Hresult.
  cbn [RulesCollector.total RulesCollector.copied RulesCollector.unchanged
       RulesCollector.changed RulesCollector.local_files
       RulesCollector.docker_files RulesCollector.cached_paths_used
       RulesCollector.new_paths_found].
  rewrite Hl.
  split_and!; try lia. intros Hzero. by subst targets.
Qed.

(** On the sample host the run finds the rule of one appliance and copies
    it. *)
Lemma run_statistics_add_up_witness :
  ∃ r, (RulesCollector.collect_rules sample_host default_devices false
          sample_world).1 = Some r
       ∧ (RulesCollector.local_files r + RulesCollector.docker_files r
          = RulesCollector.total r)%nat
       ∧ (length (RulesCollector.copied r) ≤ RulesCollector.changed r)%nat.
Proof.
  eexists. split; [vm_compute; reflexivity|].
  destruct (run_statistics_add_up sample_host default_devices false
              sample_world _ ltac:(vm_compute; reflexivity))
    as (Hkinds & _ & _ & Hcopied & _).
  exact (conj Hkinds Hcopied).
Defined.

(** ** Runs without faults *)

Section Unfaulted.

Lemma unfaulted_ret {A} (a : A) : unfaulted (ret a).
Proof. by intros w. Qed.

Lemma unfaulted_bind {A B} (m : M A) (k : A → M B) :
  unfaulted m → (∀ a, unfaulted (k a)) → unfaulted (bind m k).
Proof.
  intros Hm Hk w Hw. unfold bind. specialize (Hm w Hw).
  destruct (m w) as [a w1]. by apply Hk.
Qed.

Lemma unfaulted_tell evs : unfaulted (tell evs).
Proof. by intros w. Qed.

Lemma unfaulted_logged {A} (r : A * list event) : unfaulted (logged r).
Proof.
  apply unfaulted_bind; [apply unfaulted_tell|intros; apply unfaulted_ret].
Qed.

Lemma unfaulted_get_files : unfaulted get_files.
Proof. by intros w. Qed.

Lemma unfaulted_set_files fs : unfaulted (set_files fs).
Proof. by intros w. Qed.

Lemma unfaulted_get_dirs : unfaulted get_dirs.
Proof. by intros w. Qed.

Lemma unfaulted_set_dirs ds : unfaulted (set_dirs ds).
Proof. by intros w. Qed.

Lemma unfaulted_next_fault : unfaulted next_fault.
Proof. intros w Hw. unfold next_fault. by rewrite Hw. Qed.

Lemma unfaulted_set_hash_record_file r :
  unfaulted (CacheManager.set_hash_record_file r).
Proof. by intros w. Qed.

Lemma unfaulted_set_path_cache_file r :
  unfaulted (CacheManager.set_path_cache_file r).
Proof. by intros w. Qed.

Lemma unfaulted_load_hash_record : unfaulted CacheManager.load_hash_record.
Proof. by intros w. Qed.

Lemma unfaulted_load_path_cache : unfaulted CacheManager.load_path_cache.
Proof. by intros w. Qed.

End Unfaulted.

Ltac unfaulted :=
  repeat first
    [ apply unfaulted_ret | apply unfaulted_tell | apply unfaulted_logged
    | apply unfaulted_get_files | apply unfaulted_set_files
    | apply unfaulted_get_dirs | apply unfaulted_set_dirs
    | apply unfaulted_next_fault | apply unfaulted_set_hash_record_file
    | apply unfaulted_set_path_cache_file
    | apply unfaulted_load_hash_record | apply unfaulted_load_path_cache
    | apply unfaulted_bind; [|intros ?]
    | progress cbv zeta
    | match goal with
      | |- unfaulted (if ?b then _ else _) => destruct b
      | |- unfaulted (match ?x with _ => _ end) => destruct x
      end ].

Section UnfaultedPhases.






End UnfaultedPhases.

(** ** [main.py] *)

Section MainProgram.

Lemma rmtree_files directory w p :
  files (Main.rmtree directory w).2 !! p
  = if below directory p then None else files w !! p.
Proof.
  unfold Main.rmtree, bind, get_files, get_dirs, set_files, set_dirs.
  cbn [fst snd files].
  unfold below. destruct (str_startswith p (directory +:+ "/")) eqn:Hbelow.
  - apply map_lookup_filter_None. right. intros content _. simpl. congruence.
  - destruct (files w !! p) as [content|] eqn:Hfile.
    + by apply map_lookup_filter_Some.
    + apply map_lookup_filter_None. by left.
Qed.








End MainProgram.

(** X17. Clearing the cache forgets both cache files and removes what is
    below the temporary directory; the collected copies and every other
    stored file stay.  The run that follows behaves as a forced one, and
    reports no file as unchanged. *)
Theorem clear_cache_forgets (env : Env)
    (devices : list (string * DeviceConfig.t)) (w : World) :
  let w' := (Main.clear_cache w).2 in
  hash_record_file w' = None
  ∧ path_cache_file w' = None
  ∧ (∀ p, files w' !! p
          = if below DOCKER_TEMP_DIR p then None else files w !! p)
  ∧ RulesCollector.collect_rules env devices false w'
    = RulesCollector.collect_rules env devices true w'
  ∧ ∀ force_rescan r,
      (RulesCollector.collect_rules env devices force_rescan w').1 = Some r →
      RulesCollector.unchanged r = 0%nat.
Proof.
  intros w'.
  assert (hash_record_file w' = None) as Hhashes by done.
  assert (path_cache_file w' = None) as Hpaths by done.
  split_and!; [done|done| | |].
  - intros p. unfold w', Main.clear_cache, bind,
      CacheManager.set_hash_record_file, CacheManager.set_path_cache_file.
    by rewrite rmtree_files.
  - apply collect_rules_without_path_cache. by rewrite Hpaths.
  - intros force_rescan r Hrun.
    apply collect_rules_result in Hrun. cbv zeta in Hrun.
    rewrite Hhashes in Hrun. simpl default in Hrun.
    destruct (RulesCollector._scan_rule_files env devices _ _ _).1;
      [by subst r|].
    destruct Hrun as [_ ->]. cbn [RulesCollector.unchanged].
    apply hash_loop_first_run.
Qed.



(** ** Containers *)

Section Containers.

Import DockerOperations.

Context (env : Env).

Lemma linebreak_is_space c :
  ascii_is_linebreak c = true → ascii_is_space c = true.
Proof.
  unfold ascii_is_linebreak, ascii_is_space.
  generalize (nat_of_ascii c). intros n.
  rewrite !orb_true_iff, !andb_true_iff, !Nat.leb_le, !Nat.eqb_eq. lia.
Qed.

(** A string that starts with a character that is no white space. *)
Let solid (s : string) : Prop :=
  ∃ c rest, s = String c rest ∧ ascii_is_space c = false.

Lemma str_lstrip_solid s : str_lstrip s = "" ∨ solid (str_lstrip s).
Proof.
  induction s as [|c s IH]; simpl; [by left|].
  destruct (ascii_is_space c) eqn:Hc; [done|]. right. by exists c, s.
Qed.

Lemma str_rstrip_solid s : solid s → solid (str_rstrip s).
Proof.
  intros (c & rest & -> & Hc). simpl. rewrite Hc.
  destruct (str_rstrip rest) as [|d rest']; by eexists _, _.
Qed.

Lemma str_strip_solid s : str_strip s = "" ∨ solid (str_strip s).
Proof.
  unfold str_strip. destruct (str_lstrip_solid s) as [-> |Hsolid]; [by left|].
  right. by apply str_rstrip_solid.
Qed.

Lemma str_strip_of_solid s : solid s → solid (str_strip s).
Proof.
  intros (c & rest & -> & Hc). unfold str_strip.
  apply str_rstrip_solid. simpl. rewrite Hc. by exists c, rest.
Qed.

Lemma str_first_line_solid s : solid s → solid (str_first_line s).
Proof.
  intros (c & rest & -> & Hc). simpl.
  destruct (ascii_is_linebreak c) eqn:Hbreak.
  - apply linebreak_is_space in Hbreak. congruence.
  - by eexists _, _.
Qed.

Lemma str_nonempty_strip_solid s :
  str_nonempty (str_strip s) = true → solid (str_strip s).
Proof.
  destruct (str_strip_solid s) as [-> |Hsolid]; [done|done].
Qed.

Lemma resolve_container_id_solid container_identifier resolved :
  resolve_container_id env container_identifier = Some resolved →
  solid resolved.
Proof.
  unfold resolve_container_id.
  destruct (run_docker_command env _) as [[returncode stdout] stderr].
  destruct ((returncode =? 0) && str_nonempty (str_strip stdout)) eqn:Hfirst.
  - apply andb_true_iff in Hfirst as [_ Hout]. intros [= <-].
    by apply str_nonempty_strip_solid.
  - destruct (run_docker_command env _) as [[returncode' stdout'] stderr'].
    destruct ((returncode' =? 0) && str_nonempty (str_strip stdout'))
      eqn:Hsecond; [|done].
    apply andb_true_iff in Hsecond as [_ Hout]. intros [= <-].
    by apply str_strip_of_solid, str_first_line_solid,
      str_nonempty_strip_solid.
Qed.

Lemma collected_files_fresh temp_destination device_name file_extension tree t :
  t ∈ collected_files env temp_destination device_name file_extension tree →
  FileTarget.device t = device_name
  ∧ FileTarget.cached t = false ∧ FileTarget.from_docker t = true.
Proof.
  unfold collected_files.
  intros Hin%list_elem_of_In%in_flat_map.
  destruct Hin as ([root names] & _ & Hin%in_flat_map).
  destruct Hin as (name & _ & Hin).
  destruct (str_nonempty file_extension && _); [done|].
  by destruct Hin as [<-|[]].
Qed.

Lemma collected_root_length temp_destination device_name file_extension
    (root : string) (names : list string) :
  length
    (flat_map (λ file,
       if str_nonempty file_extension
          && negb (str_endswith (str_lower file)
                     ("." +:+ str_lower file_extension))
       then []
       else [FileTarget.mk (path_join root file) device_name
               (relpath env (path_join root file) temp_destination)
               false true])
       names)
  = length (filter (λ name,
                      FileUtils.extension_ok file_extension name = true)
              names).
Proof.
  induction names as [|name names IH]; [done|].
  cbn [flat_map]. rewrite filter_cons, length_app, IH.
  unfold FileUtils.extension_ok.
  destruct (str_nonempty file_extension);
    destruct (str_endswith (str_lower name) _); simpl;
    first [done|by case_decide].
Qed.

Lemma collected_files_length temp_destination device_name file_extension
    tree :
  length (collected_files env temp_destination device_name file_extension tree)
  = length (filter (λ name,
                      FileUtils.extension_ok file_extension name = true)
              (flat_map entry_file_names tree)).
Proof.
  unfold collected_files.
  rewrite <- (walk_names temp_destination tree).
  generalize (FileUtils.walk temp_destination tree). intros roots.
  induction roots as [|[root names] roots IH]; [done|].
  cbn [flat_map fst snd]. rewrite filter_app, !length_app, IH. f_equal.
  apply collected_root_length.
Qed.

End Containers.

(** X19. A container id, once resolved, is not empty and does not start
    with white space, whichever of the two Docker commands produced it. *)
Theorem resolved_container_id_is_not_blank (env : Env)
    (container_identifier resolved : string) :
  DockerOperations.resolve_container_id env container_identifier
  = Some resolved →
  resolved ≠ ""
  ∧ str_lstrip resolved = resolved
  ∧ ∀ info,
      DockerOperations.get_container_info env container_identifier = Some info →
      DockerOperations.resolved_id info = resolved
      ∧ DockerOperations.container_id info = container_identifier.
Proof.
  intros Hresolved.
  destruct (resolve_container_id_solid env _ _ Hresolved)
    as (c & rest & -> & Hc).
  split_and!; [done|by simpl; rewrite Hc|].
  intros info. unfold DockerOperations.get_container_info.
  rewrite Hresolved.
  destruct (DockerOperations.run_docker_command env _)
    as [[returncode stdout] stderr].
  by intros [= <-].
Qed.

Lemma resolved_container_id_is_not_blank_witness :
  sample_container ≠ "" ∧ str_lstrip sample_container = sample_container.
Proof.
  destruct (resolved_container_id_is_not_blank sample_host "86e4e41a871c"
              sample_container eq_refl) as (Hne & Hstrip & _).
  exact (conj Hne Hstrip).
Defined.



(** X21. Every target taken from a container carries the device name and
    is marked as coming from Docker and not from the cache; after a
    successful extraction there is one target for each regular file of the
    extracted tree whose name passes the extension test, so with an empty
    extension every file of the tree is collected. *)
Theorem docker_targets_are_marked (env : Env)
    (container_identifier source_path device_name file_extension : string) :
  let result :=
    DockerOperations.collect_from_docker_container env container_identifier
      source_path device_name file_extension in
  (∀ t, t ∈ result.1.1 →
        FileTarget.device t = device_name
        ∧ FileTarget.cached t = false ∧ FileTarget.from_docker t = true)
  ∧ (∀ temp_destination tree,
        length (DockerOperations.collected_files env temp_destination
                  device_name file_extension tree)
        = length (filter (λ name,
                            FileUtils.extension_ok file_extension name = true)
                    (flat_map entry_file_names tree)))
  ∧ (result.1.1 ≠ [] →
     ∃ temp_destination tree,
       result.1.2 = Some (temp_destination, tree)
       ∧ result.1.1
         = DockerOperations.collected_files env temp_destination device_name
             file_extension tree).
Proof.
  intros result. subst result.
  unfold DockerOperations.collect_from_docker_container.
  split_and!.
  - intros t.
    destruct (DockerOperations.get_container_info env _) as [info|];
      [|by intros ?%elem_of_nil].
    destruct (negb (DockerOperations.is_running info));
      [by intros ?%elem_of_nil|].
    destruct (negb (DockerOperations.path_exists_in_container env _ _));
      [by intros ?%elem_of_nil|].
    destruct (DockerOperations.try_methods _ _ _)
      as [[[success last_error] tree] evs].
    destruct (negb success); [by intros ?%elem_of_nil|].
    destruct (negb (DockerOperations.any_iterdir tree));
      [by intros ?%elem_of_nil|].
    apply collected_files_fresh.
  - intros temp_destination tree. apply collected_files_length.
  - destruct (DockerOperations.get_container_info env _) as [info|];
      [|done].
    destruct (negb (DockerOperations.is_running info)); [done|].
    destruct (negb (DockerOperations.path_exists_in_container env _ _));
      [done|].
    destruct (DockerOperations.try_methods _ _ _)
      as [[[success last_error] tree] evs].
    destruct (negb success); [done|].
    destruct (negb (DockerOperations.any_iterdir tree)); [done|].
    intros _. by eexists _, _.
Qed.

(** ** Copies that go through *)

Section CopyGoesThrough.

Lemma str_has_sep_app a b :
  str_has_sep (a +:+ b) = str_has_sep a || str_has_sep b.
Proof.
  induction a as [|c a IH]; [done|].
  rewrite str_app_cons. cbn [str_has_sep]. by rewrite IH, orb_assoc.
Qed.

Lemma basename_no_sep s : str_has_sep s = false → basename s = s.
Proof.
  destruct s as [|c s]; [done|]. cbn [str_has_sep basename].
  by intros ->.
Qed.

Lemma basename_app p s :
  str_has_sep s = false → basename (p +:+ s) = basename p +:+ s.
Proof.
  intros Hs. induction p as [|c p IH]; [by apply basename_no_sep|].
  rewrite str_app_cons. cbn [basename].
  rewrite str_has_sep_app, Hs, orb_false_r.
  by destruct (Ascii.eqb c os_sep || str_has_sep p).
Qed.

Lemma basename_length p : (String.length (basename p) ≤ String.length p)%nat.
Proof.
  induction p as [|c p IH]; [done|]. cbn [basename].
  destruct (_ || _); simpl in *; lia.
Qed.

Lemma str_take_app n a b :
  (n ≤ String.length a)%nat → str_take n (a +:+ b) = str_take n a.
Proof.
  revert n. induction a as [|c a IH]; intros [|n] Hn; simpl in *;
    try done; try lia.
  f_equal. apply IH. lia.
Qed.

(** The temporary file of a copy lies in the directory of its
    destination. *)
Lemma dirname_temp destination :
  dirname (destination +:+ ".tmp") = dirname destination.
Proof.
  unfold dirname. rewrite basename_app by done.
  rewrite !str_length_app.
  pose proof (basename_length destination).
  replace (String.length destination + String.length ".tmp"
           - (String.length (basename destination) + String.length ".tmp"))%nat
    with (String.length destination
          - String.length (basename destination))%nat by lia.
  rewrite str_take_app by lia. done.
Qed.

Lemma is_directory_mono (ds ds' : gset string) p :
  ds ⊆ ds' → is_directory ds' p = false → is_directory ds p = false.
Proof.
  unfold is_directory. intros Hsub [-> Hin]%orb_false_elim. cbn [orb].
  apply bool_decide_eq_false in Hin. apply bool_decide_eq_false. set_solver.
Qed.

Lemma ancestors_self p : p ≠ "" → p ∈ ancestors p.
Proof.
  intros Hp%str_nonempty_true. unfold ancestors. rewrite Hp.
  apply elem_of_app. right. by left.
Qed.

Lemma parent_exists_made (ds : gset string) p :
  dirname p ≠ "" →
  parent_exists (ds ∪ list_to_set (ancestors (dirname p))) p = true.
Proof.
  intros Hp. unfold parent_exists, is_directory.
  rewrite (bool_decide_eq_true_2 (dirname p ∈ _)); [by rewrite !orb_true_r|].
  apply elem_of_union_r, elem_of_list_to_set. by apply ancestors_self.
Qed.

Lemma parent_exists_mono (ds ds' : gset string) p :
  ds ⊆ ds' → parent_exists ds p = true → parent_exists ds' p = true.
Proof.
  unfold parent_exists, is_directory. intros Hsub.
  destruct (negb (str_nonempty (dirname p))); [done|]. cbn [orb].
  destruct (is_root (dirname p)); [done|]. cbn [orb].
  intros Hin%bool_decide_eq_true. apply bool_decide_eq_true. set_solver.
Qed.

(** [os.makedirs] goes through when no fault is due, the path is not empty
    and no regular file is in the way. *)
Lemma os_makedirs_live path w :
  default NoFault (head (faults w)) = NoFault →
  path ≠ "" →
  (∀ a, a ∈ ancestors path → files w !! a = None) →
  let r := os_makedirs path w in
  r.1 = true
  ∧ files r.2 = files w
  ∧ dirs r.2 = dirs w ∪ list_to_set (ancestors path)
  ∧ faults r.2 = tail (faults w)
  ∧ journal r.2 = journal w.
Proof.
  intros Hfault Hpath%str_nonempty_true Hfree.
  assert (existsb (λ a, bool_decide (is_Some (files w !! a)))
                  (ancestors path) = false) as Hnone.
  { apply not_true_is_false. intros (a & Ha & Hfile)%existsb_exists.
    apply bool_decide_eq_true in Hfile.
    rewrite Hfree in Hfile by by apply list_elem_of_In. by destruct Hfile. }
  cbv [os_makedirs bind next_fault get_files get_dirs set_dirs ret].
  destruct (faults w) as [|f rest] eqn:Hf; [|simpl in Hfault; subst f];
    cbn [fst snd files dirs journal faults]; rewrite Hpath, Hnone;
    cbn [negb orb fst snd files dirs journal faults]; rewrite ?Hf; done.
Qed.

Lemma shutil_copy2_live source target w content :
  files w !! source = Some content → source ≠ target →
  is_directory (dirs w) target = false →
  parent_exists (dirs w) target = true →
  default NoFault (head (faults w)) = NoFault →
  let r := shutil_copy2 source target w in
  r.1 = true
  ∧ files r.2 = <[target := content]> (files w)
  ∧ dirs r.2 = dirs w
  ∧ faults r.2 = tail (faults w)
  ∧ journal r.2 = journal w ++ [Sys (SysCopy2 source target) true].
Proof.
  intros Hsrc Hdiff Hdir Hparent Hfault.
  cbv [shutil_copy2 bind next_fault get_files get_dirs set_files returned
       tell ret].
  destruct (faults w) as [|f rest] eqn:Hf; [|simpl in Hfault; subst f];
    cbn [fst snd files dirs journal faults];
    rewrite Hdir; cbv iota; rewrite ?Hdir, Hparent;
    rewrite bool_decide_eq_false_2 by done; rewrite Hsrc;
    cbn [negb orb fst snd files dirs journal faults]; rewrite ?Hf; done.
Qed.

Lemma os_replace_live source target w content :
  files w !! source = Some content →
  is_directory (dirs w) source = false →
  is_directory (dirs w) target = false →
  parent_exists (dirs w) target = true →
  default NoFault (head (faults w)) = NoFault →
  let r := os_replace source target w in
  r.1 = true
  ∧ files r.2 = <[target := content]> (delete source (files w))
  ∧ dirs r.2 = dirs w
  ∧ faults r.2 = tail (faults w)
  ∧ journal r.2 = journal w ++ [Sys (SysReplace source target) true].
Proof.
  intros Hsrc Hfile Hdir Hparent Hfault.
  apply orb_false_elim in Hfile as [_ Hfile].
  cbv [os_replace bind next_fault get_files get_dirs set_files set_dirs
       returned tell ret].
  destruct (faults w) as [|f rest] eqn:Hf; [|simpl in Hfault; subst f];
    cbn [fst snd files dirs journal faults]; rewrite Hfile, Hsrc, Hdir, Hparent;
    cbn [negb orb fst snd files dirs journal faults]; rewrite ?Hf; done.
Qed.

Lemma safe_copy_live source destination w content :
  files w !! source = Some content →
  source ≠ destination +:+ ".tmp" →
  is_directory (dirs w) destination = false →
  is_directory (dirs w) (destination +:+ ".tmp") = false →
  parent_exists (dirs w) destination = true →
  Forall (λ f, f = NoFault) (take 2 (faults w)) →
  let r := FileUtils.safe_copy source destination w in
  r.1 = true
  ∧ files r.2
    = <[destination := content]>
        (delete (destination +:+ ".tmp")
           (<[destination +:+ ".tmp" := content]> (files w)))
  ∧ dirs r.2 = dirs w
  ∧ faults r.2 = drop 2 (faults w)
  ∧ journal r.2
    = journal w
      ++ [Sys (SysCopy2 source (destination +:+ ".tmp")) true;
          Sys (SysReplace (destination +:+ ".tmp") destination) true].
Proof.
  intros Hsrc Hdiff Hdir Htemp_dir Hparent Hfaults.
  rewrite safe_copy_unfold. cbv zeta.
  assert (parent_exists (dirs w) (destination +:+ ".tmp") = true)
    as Htemp_parent.
  { unfold parent_exists in *. by rewrite dirname_temp. }
  assert (default NoFault (head (faults w)) = NoFault) as Hfirst.
  { destruct (faults w) as [|f rest]; [done|].
    by apply Forall_cons in Hfaults as [-> _]. }
  destruct (shutil_copy2_live source (destination +:+ ".tmp") w content
              Hsrc Hdiff Htemp_dir Htemp_parent Hfirst)
    as (Hok1 & Hfiles1 & Hdirs1 & Hrest1 & Hlog1).
  rewrite Hok1.
  assert (default NoFault
            (head (faults (shutil_copy2 source (destination +:+ ".tmp") w).2))
          = NoFault) as Hsecond.
  { rewrite Hrest1. destruct (faults w) as [|f1 [|f2 rest]]; [done..|].
    simpl in Hfaults.
    by apply Forall_cons in Hfaults as [_ [-> _]%Forall_cons]. }
  assert (files (shutil_copy2 source (destination +:+ ".tmp") w).2
            !! (destination +:+ ".tmp") = Some content) as Htemp.
  { by rewrite Hfiles1, lookup_insert_eq. }
  destruct (os_replace_live (destination +:+ ".tmp") destination _ content
              Htemp ltac:(by rewrite Hdirs1) ltac:(by rewrite Hdirs1)
              ltac:(by rewrite Hdirs1) Hsecond)
    as (Hok2 & Hfiles2 & Hdirs2 & Hrest2 & Hlog2).
  rewrite Hok2. cbn [fst snd].
  rewrite Hfiles2, Hfiles1, Hdirs2, Hdirs1, Hrest2, Hrest1, Hlog2, Hlog1.
  split_and!; [done|done|done| |by rewrite <- app_assoc].
  by destruct (faults w) as [|f1 [|f2 rest]].
Qed.

End CopyGoesThrough.

(** X22. With a readable source that is not the temporary file itself, a
    destination and a temporary path that are not directories, in a
    directory that exists, and no fault in the next two writes, [safe_copy]
    returns [True]: the destination holds the content of the source, the
    temporary file is gone, no other file and no directory has changed, and
    exactly one copy and one rename were made. *)
Theorem safe_copy_succeeds (source destination content : string) (w : World) :
  files w !! source = Some content →
  source ≠ destination +:+ ".tmp" →
  is_directory (dirs w) destination = false →
  is_directory (dirs w) (destination +:+ ".tmp") = false →
  parent_exists (dirs w) destination = true →
  Forall (λ f, f = NoFault) (take 2 (faults w)) →
  let r := FileUtils.safe_copy source destination w in
  r.1 = true
  ∧ files r.2 !! destination = Some content
  ∧ files r.2 !! (destination +:+ ".tmp") = None
  ∧ (∀ p, p ≠ destination → p ≠ destination +:+ ".tmp" →
          files r.2 !! p = files w !! p)
  ∧ dirs r.2 = dirs w
  ∧ journal r.2
    = journal w
      ++ [Sys (SysCopy2 source (destination +:+ ".tmp")) true;
          Sys (SysReplace (destination +:+ ".tmp") destination) true].
Proof.
  intros Hsrc Hdiff Hdir Htemp_dir Hparent Hfaults r.
  destruct (safe_copy_live source destination w content Hsrc Hdiff Hdir
              Htemp_dir Hparent Hfaults) as (Hok & Hfiles & Hdirs & _ & Hlog).
  fold r in Hok, Hfiles, Hdirs, Hlog.
  pose proof (temp_path_differs destination) as Htemp.
  split_and!; [done| | | |done|done].
  - by rewrite Hfiles, lookup_insert_eq.
  - by rewrite Hfiles, lookup_insert_ne, lookup_delete_eq.
  - intros p Hp Hp'.
    by rewrite Hfiles, lookup_insert_ne, lookup_delete_ne, lookup_insert_ne.
Qed.

Lemma safe_copy_succeeds_witness :
  (FileUtils.safe_copy sample_source sample_destination ready_world).1 = true
  ∧ files (FileUtils.safe_copy sample_source sample_destination
             ready_world).2 !! sample_destination
    = Some "alert tcp any any".
Proof.
  destruct (safe_copy_succeeds sample_source sample_destination
              "alert tcp any any" ready_world eq_refl ltac:(discriminate)
              ltac:(by vm_compute) ltac:(by vm_compute) ltac:(by vm_compute)
              ltac:(constructor)) as (Hok & Hdest & _).
  exact (conj Hok Hdest).
Defined.

(** X23. The temporary name of one copy can be the destination of another.
    When a target bound for [d.tmp] is copied just before a target bound
    for [d], with no regular file in the way of the directory of [d] and no
    directory at [d], [d.tmp] or [d.tmp.tmp], both are reported as copied,
    but the second copy writes its temporary file over the first and
    renames it away: afterwards [d] is there and [d.tmp] is not. *)
Theorem temporary_name_collision (first second : FileTarget.t)
    (content_1 content_2 : string) (w : World) :
  let d := FileOperations.destination_of second in
  let made := dirs w ∪ list_to_set (ancestors (dirname d)) in
  FileOperations.destination_of first = d +:+ ".tmp" →
  files w !! FileTarget.src first = Some content_1 →
  files w !! FileTarget.src second = Some content_2 →
  FileTarget.src first ≠ d +:+ ".tmp" +:+ ".tmp" →
  FileTarget.src second ≠ d +:+ ".tmp" →
  FileTarget.src second ≠ d +:+ ".tmp" +:+ ".tmp" →
  dirname d ≠ "" →
  Forall (λ a, files w !! a = None) (ancestors (dirname d)) →
  is_directory made d = false →
  is_directory made (d +:+ ".tmp") = false →
  is_directory made (d +:+ ".tmp" +:+ ".tmp") = false →
  faults w = [] →
  let r := FileOperations.copy_changed_files [first; second] w in
  r.1 = Some [d +:+ ".tmp"; d]
  ∧ files r.2 !! (d +:+ ".tmp") = None
  ∧ files r.2 !! d = Some content_2.
Proof.
  intros d made Hcollide Hfirst Hsecond Hsrc1 Hsrc2 Hsrc2' Hname Hfree
    Hdir Htemp_dir Htemp_dir' Hquiet r.
  rewrite Forall_forall in Hfree.
  unfold r, FileOperations.copy_changed_files.
  cbn [FileOperations.copy_loop].
  unfold bind, FileUtils.ensure_directory_exists, ret.
  fold d. rewrite Hcollide, dirname_temp.
  assert (d +:+ ".tmp" +:+ ".tmp" = (d +:+ ".tmp") +:+ ".tmp") as Hassoc
    by by rewrite str_app_assoc.
  rewrite Hassoc in Hsrc1, Hsrc2', Htemp_dir'.
  assert (∀ a, a ∈ ancestors (dirname d) → is_directory made a = true)
    as Hmade.
  { intros a Ha. unfold is_directory, made.
    rewrite (bool_decide_eq_true_2 (a ∈ _)); [apply orb_true_r|].
    by apply elem_of_union_r, elem_of_list_to_set. }
  destruct (os_makedirs_live (dirname d) w ltac:(by rewrite Hquiet) Hname
              Hfree) as (Hmade0 & Hfiles0 & Hdirs0 & Hrest0 & _).
  destruct (os_makedirs (dirname d) w) as [made0 w0].
  cbn [fst snd] in *. subst made0. fold made in Hdirs0.
  rewrite Hquiet in Hrest0. cbn [tail] in Hrest0.
  destruct (safe_copy_live (FileTarget.src first) (d +:+ ".tmp") w0 content_1
              ltac:(by rewrite Hfiles0) Hsrc1
              ltac:(by rewrite Hdirs0) ltac:(by rewrite Hdirs0)
              ltac:(by rewrite Hdirs0; unfold made, parent_exists;
                    rewrite dirname_temp; apply parent_exists_made)
              ltac:(by rewrite Hrest0))
    as (Hok1 & Hfiles1 & Hdirs1 & Hrest1 & _).
  destruct (FileUtils.safe_copy (FileTarget.src first) (d +:+ ".tmp") w0)
    as [ok1 w1]. cbn [fst snd] in *. subst ok1.
  rewrite Hrest0 in Hrest1. cbn [drop] in Hrest1.
  assert (∀ a, a ∈ ancestors (dirname d) → files w1 !! a = None) as Hfree1.
  { intros a Ha. rewrite Hfiles1, Hfiles0.
    rewrite lookup_insert_ne, lookup_delete_ne, lookup_insert_ne;
      [by apply Hfree|..]; intros <-; apply Hmade in Ha; congruence. }
  destruct (os_makedirs_live (dirname d) w1 ltac:(by rewrite Hrest1) Hname
              Hfree1) as (Hmade2 & Hfiles2 & Hdirs2 & Hrest2 & _).
  destruct (os_makedirs (dirname d) w1) as [made2 w2].
  cbn [fst snd] in *. subst made2.
  rewrite Hrest1 in Hrest2. cbn [tail] in Hrest2.
  assert (dirs w2 = made) as Hdirs2'.
  { rewrite Hdirs2, Hdirs1, Hdirs0. unfold made. set_solver. }
  assert (files w2 !! FileTarget.src second = Some content_2) as Hsecond'.
  { by rewrite Hfiles2, Hfiles1, Hfiles0, lookup_insert_ne, lookup_delete_ne,
      lookup_insert_ne. }
  destruct (safe_copy_live (FileTarget.src second) d w2 content_2
              Hsecond' Hsrc2
              ltac:(by rewrite Hdirs2') ltac:(by rewrite Hdirs2')
              ltac:(by rewrite Hdirs2'; apply parent_exists_made)
              ltac:(by rewrite Hrest2))
    as (Hok2 & Hfiles3 & _).
  destruct (FileUtils.safe_copy (FileTarget.src second) d w2) as [ok2 w3].
  cbn [fst snd] in *. subst ok2. cbn [app].
  pose proof (temp_path_differs d) as Htemp.
  split_and!; [done| |].
  - by rewrite Hfiles3, lookup_insert_ne, lookup_delete_eq.
  - by rewrite Hfiles3, lookup_insert_eq.
Qed.

Lemma temporary_name_collision_witness :
  let first :=
    FileTarget.mk "/etc/suricata/rules/local.rules.tmp" "suricata"
      "local.rules.tmp" false false in
  let second := sample_target "/etc/suricata/rules/local.rules" in
  let w :=
    quiet_world {[ "/etc/suricata/rules/local.rules.tmp" := "alert udp";
                   "/etc/suricata/rules/local.rules" := "alert tcp" ]}
      None None in
  (FileOperations.copy_changed_files [first; second] w).1
  = Some ["collected_rules/suricata/local.rules.tmp";
          "collected_rules/suricata/local.rules"]
  ∧ files (FileOperations.copy_changed_files [first; second] w).2
      !! "collected_rules/suricata/local.rules.tmp" = None.
Proof.
  intros first second w.
  destruct (temporary_name_collision first second "alert udp" "alert tcp" w
              eq_refl eq_refl eq_refl ltac:(discriminate) ltac:(discriminate)
              ltac:(discriminate) ltac:(discriminate)
              ltac:(by repeat constructor)
              ltac:(by vm_compute) ltac:(by vm_compute) ltac:(by vm_compute)
              eq_refl) as (Hcopied & Hgone & _).
  exact (conj Hcopied Hgone).
Defined.

(** ** The device table *)

Section DeviceTable.

Import DeviceConfigManager.

Lemma get_device_None devices device_name :
  get_device devices device_name = None ↔ device_name ∉ devices.*1.
Proof.
  induction devices as [|[k c] devices IH]; simpl.
  - split; [intros _; apply not_elem_of_nil|done].
  - rewrite not_elem_of_cons. destruct (String.eqb k device_name) eqn:Hk.
    + apply String.eqb_eq in Hk. split; [done|]. intros [? _]. congruence.
    + apply String.eqb_neq in Hk. rewrite IH. split; [|tauto].
      intros ?. split; [congruence|done].
Qed.

Lemma dict_set_keys key config devices :
  (dict_set key config devices).*1
  = if bool_decide (key ∈ devices.*1) then devices.*1
    else devices.*1 ++ [key].
Proof.
  induction devices as [|[k c] devices IH]; [done|].
  cbn [dict_set]. rewrite (fmap_cons fst _ devices). cbn [fst].
  destruct (String.eqb k key) eqn:Hk.
  - apply String.eqb_eq in Hk as ->. rewrite fmap_cons. cbn [fst].
    by rewrite bool_decide_eq_true_2 by (by left).
  - apply String.eqb_neq in Hk. rewrite fmap_cons, IH. cbn [fst].
    case_bool_decide as Hin.
    + by rewrite bool_decide_eq_true_2 by (by right).
    + rewrite bool_decide_eq_false_2; [done|].
      intros [?|?]%elem_of_cons; congruence.
Qed.

Lemma dict_set_get key config devices other :
  get_device (dict_set key config devices) other
  = if String.eqb key other then Some config else get_device devices other.
Proof.
  induction devices as [|[k c] devices IH]; simpl; [done|].
  destruct (String.eqb k key) eqn:Hk; simpl.
  - apply String.eqb_eq in Hk as ->. by destruct (String.eqb key other).
  - rewrite IH. destruct (String.eqb k other) eqn:Hother; [|done].
    apply String.eqb_eq in Hother as ->.
    by rewrite (proj2 (String.eqb_neq key other))
      by (apply String.eqb_neq in Hk; congruence).
Qed.

Lemma remove_device_get device_name devices other :
  get_device (remove_device device_name devices) other
  = if String.eqb device_name other then None else get_device devices other.
Proof.
  unfold remove_device.
  induction devices as [|[k c] devices IH]; simpl;
    [by destruct (String.eqb device_name other)|].
  destruct (String.eqb k device_name) eqn:Hk; simpl.
  - apply String.eqb_eq in Hk as ->. rewrite IH.
    by destruct (String.eqb device_name other).
  - rewrite IH. destruct (String.eqb k other) eqn:Hother; [|done].
    apply String.eqb_eq in Hother as ->.
    by rewrite String.eqb_sym, Hk.
Qed.

Lemma remove_device_keys device_name devices :
  (remove_device device_name devices).*1
  = filter (λ k, k ≠ device_name) devices.*1.
Proof.
  unfold remove_device.
  induction devices as [|[k c] devices IH]; [done|].
  cbn [List.filter fst]. rewrite (fmap_cons fst _ devices), filter_cons.
  cbn [fst]. destruct (String.eqb k device_name) eqn:Hk; cbn [negb].
  - apply String.eqb_eq in Hk. by rewrite decide_False by tauto.
  - apply String.eqb_neq in Hk. rewrite decide_True by done.
    by rewrite fmap_cons, IH.
Qed.

End DeviceTable.

(** X24. Adding a device makes it the one that [get_device] returns for
    its name and leaves every other name as it was.  A name that was
    present keeps its place in the order of the table, which is the order
    of the scan; a new name goes last.  Names stay unique. *)
Theorem add_device_then_get (config : DeviceConfig.t)
    (devices : list (string * DeviceConfig.t)) :
  let devices' := DeviceConfigManager.add_device config devices in
  DeviceConfigManager.get_device devices' (DeviceConfig.name config)
  = Some config
  ∧ (∀ other, other ≠ DeviceConfig.name config →
              DeviceConfigManager.get_device devices' other
              = DeviceConfigManager.get_device devices other)
  ∧ devices'.*1
    = (if bool_decide (DeviceConfig.name config ∈ devices.*1)
       then devices.*1 else devices.*1 ++ [DeviceConfig.name config])
  ∧ (NoDup devices.*1 → NoDup devices'.*1).
Proof.
  intros devices'. subst devices'. unfold DeviceConfigManager.add_device.
  split_and!.
  - by rewrite dict_set_get, String.eqb_refl.
  - intros other Hother. rewrite dict_set_get.
    by rewrite (proj2 (String.eqb_neq _ _)) by done.
  - apply dict_set_keys.
  - intros Hnd. rewrite dict_set_keys. case_bool_decide as Hin; [done|].
    apply NoDup_app. split_and!; [done| |apply NoDup_singleton].
    by intros k Hk ->%list_elem_of_singleton.
Qed.

(** X25. Removing a device makes [get_device] fail for its name, with a
    [KeyError], and leaves every other name as it was, in the same order;
    removing a name that is not in the table changes nothing. *)
Theorem remove_device_then_get (device_name : string)
    (devices : list (string * DeviceConfig.t)) :
  let devices' := DeviceConfigManager.remove_device device_name devices in
  DeviceConfigManager.get_device devices' device_name = None
  ∧ (∀ other, other ≠ device_name →
              DeviceConfigManager.get_device devices' other
              = DeviceConfigManager.get_device devices other)
  ∧ devices'.*1 = filter (λ k, k ≠ device_name) devices.*1
  ∧ (DeviceConfigManager.get_device devices device_name = None →
     devices' = devices).
Proof.
  intros devices'. subst devices'. split_and!.
  - by rewrite remove_device_get, String.eqb_refl.
  - intros other Hother. rewrite remove_device_get.
    by rewrite (proj2 (String.eqb_neq _ _)) by done.
  - apply remove_device_keys.
  - intros Hnone%get_device_None. unfold DeviceConfigManager.remove_device.
    induction devices as [|[k c] devices IH]; [done|]. simpl in *.
    apply not_elem_of_cons in Hnone as [Hk Hnone].
    rewrite (proj2 (String.eqb_neq k device_name)) by done. simpl.
    f_equal. by apply IH.
Qed.
(** ** A batch of copies that goes through *)

Section BatchGoesThrough.

Import FileOperations.

Let temp_of (t : FileTarget.t) : string := destination_of t +:+ ".tmp".

(** No source is overwritten by a copy, and no temporary file takes the
    place of a destination. *)
Let apart (changed_files : list FileTarget.t) : Prop :=
  ∀ t u, t ∈ changed_files → u ∈ changed_files →
         FileTarget.src t ≠ destination_of u
         ∧ FileTarget.src t ≠ temp_of u
         ∧ temp_of u ≠ destination_of t.

(** The directories of the destinations can be made, within [made], and
    no destination or temporary path is one of them. *)
Let clear (made : gset string) (changed_files : list FileTarget.t)
    (w : World) : Prop :=
  ∀ t, t ∈ changed_files →
       dirname (destination_of t) ≠ ""
       ∧ (∀ a, a ∈ ancestors (dirname (destination_of t)) →
               a ∈ made ∧ files w !! a = None)
       ∧ is_directory made (destination_of t) = false
       ∧ is_directory made (temp_of t) = false.

Lemma copy_loop_live changed_files copied_files w (made : gset string) :
  faults w = [] →
  (∀ t, t ∈ changed_files → is_Some (files w !! FileTarget.src t)) →
  apart changed_files →
  dirs w ⊆ made →
  clear made changed_files w →
  let r := copy_loop changed_files copied_files w in
  r.1 = Some (copied_files ++ (destination_of <$> changed_files))
  ∧ faults r.2 = []
  ∧ (∀ p, p ∉ destination_of <$> changed_files →
          p ∉ temp_of <$> changed_files →
          files r.2 !! p = files w !! p)
  ∧ ∀ t, t ∈ changed_files →
         ∃ u, u ∈ changed_files
              ∧ destination_of u = destination_of t
              ∧ files r.2 !! destination_of t = files w !! FileTarget.src u.
Proof.
  revert copied_files w.
  induction changed_files as [|t0 rest IH];
    intros copied_files w Hquiet Hread Hapart Hdirs Hclear.
  { simpl. split_and!; [by rewrite app_nil_r|done|done|].
    by intros t ?%elem_of_nil. }
  cbn [copy_loop]. unfold bind, FileUtils.ensure_directory_exists, ret.
  destruct (Hread t0 ltac:(by left)) as [c0 Hc0].
  destruct (Hapart t0 t0 ltac:(by left) ltac:(by left)) as (_ & Hself & _).
  destruct (Hclear t0 ltac:(by left)) as (Hname & Hway & Hdir & Htemp_dir).
  destruct (os_makedirs_live (dirname (destination_of t0)) w
              ltac:(by rewrite Hquiet) Hname ltac:(intros a Ha; by apply Hway))
    as (Hmade0 & Hfiles0 & Hdirs0 & Hrest0 & _).
  destruct (os_makedirs (dirname (destination_of t0)) w) as [made0 w0].
  cbn [fst snd] in *. subst made0.
  rewrite Hquiet in Hrest0. cbn [tail] in Hrest0.
  assert (dirs w0 ⊆ made) as Hdirs0'.
  { rewrite Hdirs0. intros a [Ha|Ha%elem_of_list_to_set]%elem_of_union;
      [by apply Hdirs|by apply Hway]. }
  destruct (safe_copy_live (FileTarget.src t0) (destination_of t0) w0 c0
              ltac:(by rewrite Hfiles0) Hself
              (is_directory_mono _ _ _ Hdirs0' Hdir)
              (is_directory_mono _ _ _ Hdirs0' Htemp_dir)
              ltac:(by rewrite Hdirs0; apply parent_exists_made)
              ltac:(by rewrite Hrest0))
    as (Hok & Hfiles & Hdirs1 & Hrest & _).
  destruct (FileUtils.safe_copy (FileTarget.src t0) (destination_of t0) w0)
    as [ok w1]. cbn [fst snd] in *. subst ok.
  rewrite Hrest0 in Hrest. cbn [drop] in Hrest.
  assert (∀ p, p ≠ destination_of t0 → p ≠ temp_of t0 →
               files w1 !! p = files w !! p) as Hsame.
  { intros p Hp Hp'.
    by rewrite Hfiles, Hfiles0, lookup_insert_ne, lookup_delete_ne,
      lookup_insert_ne. }
  assert (∀ u, u ∈ rest →
               files w1 !! FileTarget.src u = files w !! FileTarget.src u)
    as Hsources.
  { intros u Hu.
    destruct (Hapart u t0 ltac:(by right) ltac:(by left)) as (? & ? & _).
    by apply Hsame. }
  assert (∀ a, a ∈ made → a ≠ destination_of t0 ∧ a ≠ temp_of t0) as Hfile.
  { intros a Ha.
    assert (is_directory made a = true) as Hin.
    { unfold is_directory. rewrite (bool_decide_eq_true_2 _ Ha).
      apply orb_true_r. }
    split; intros ->; congruence. }
  destruct (IH (copied_files ++ [destination_of t0]) w1 Hrest) as
    (Hcopied & Hfaults & Hframe & Hdest).
  { intros u Hu. rewrite Hsources by done. apply Hread. by right. }
  { intros t u Ht Hu. apply Hapart; by right. }
  { by rewrite Hdirs1. }
  { intros t Ht.
    destruct (Hclear t ltac:(by right)) as (Hname' & Hway' & Hdir' & Htemp').
    split_and!; [done| |done|done].
    intros a Ha. destruct (Hway' a Ha) as [Hin Hnone]. split; [done|].
    destruct (Hfile a Hin). by rewrite Hsame. }
  split_and!.
  - by rewrite Hcopied, <- app_assoc.
  - done.
  - intros p [Hp Hp']%not_elem_of_cons [Hq Hq']%not_elem_of_cons.
    rewrite Hframe by done. by apply Hsame.
  - intros t Ht.
    destruct (decide (destination_of t ∈ destination_of <$> rest))
      as [Hin|Hout].
    + apply list_elem_of_fmap in Hin as (t' & Heq & Ht').
      destruct (Hdest t' Ht') as (u & Hu & Hsame_dest & Hcontent).
      exists u. split_and!; [by right|congruence|].
      rewrite Heq, Hcontent. by apply Hsources.
    + assert (t = t0) as ->.
      { apply elem_of_cons in Ht as [?|Ht]; [done|].
        destruct Hout. apply list_elem_of_fmap. by exists t. }
      exists t0. split_and!; [by left|done|].
      rewrite Hframe; [by rewrite Hfiles, lookup_insert_eq|done|].
      intros (u & Heq & Hu)%list_elem_of_fmap.
      destruct (Hapart t0 u ltac:(by left) ltac:(by right)) as (_ & _ & Hne).
      by apply Hne.
Qed.

End BatchGoesThrough.

(** X26. When no write fails, every source can be read, no copy
    overwrites a source, no temporary file takes the place of a
    destination, no regular file is in the way of a destination's
    directory, and no destination or temporary path is a directory, then or
    once those directories are made, the copy phase reports every changed
    file as copied, in order; every destination then holds the content of a
    source that was bound for it, and no file other than the destinations
    and their temporary files has changed. *)
Theorem copy_changed_files_succeeds (changed_files : list FileTarget.t)
    (w : World) :
  let made :=
    dirs w
    ∪ list_to_set
        (flat_map (λ t, ancestors (dirname (FileOperations.destination_of t)))
                  changed_files) in
  faults w = [] →
  Forall (λ t, is_Some (files w !! FileTarget.src t)) changed_files →
  Forall (λ t,
    Forall (λ u,
      FileTarget.src t ≠ FileOperations.destination_of u
      ∧ FileTarget.src t ≠ FileOperations.destination_of u +:+ ".tmp"
      ∧ FileOperations.destination_of u +:+ ".tmp"
        ≠ FileOperations.destination_of t) changed_files) changed_files →
  Forall (λ t,
    dirname (FileOperations.destination_of t) ≠ ""
    ∧ Forall (λ a, files w !! a = None)
             (ancestors (dirname (FileOperations.destination_of t)))
    ∧ is_directory made (FileOperations.destination_of t) = false
    ∧ is_directory made (FileOperations.destination_of t +:+ ".tmp") = false)
    changed_files →
  let r := FileOperations.copy_changed_files changed_files w in
  r.1 = Some (FileOperations.destination_of <$> changed_files)
  ∧ (∀ t, t ∈ changed_files →
          ∃ u, u ∈ changed_files
               ∧ FileOperations.destination_of u
                 = FileOperations.destination_of t
               ∧ files r.2 !! FileOperations.destination_of t
                 = files w !! FileTarget.src u)
  ∧ (∀ p, p ∉ FileOperations.destination_of <$> changed_files →
          p ∉ (λ t, FileOperations.destination_of t +:+ ".tmp")
                <$> changed_files →
          files r.2 !! p = files w !! p).
Proof.
  intros made Hquiet Hread Hapart Hclear r.
  rewrite Forall_forall in Hread.
  assert (∀ t u, t ∈ changed_files → u ∈ changed_files →
            FileTarget.src t ≠ FileOperations.destination_of u
            ∧ FileTarget.src t ≠ FileOperations.destination_of u +:+ ".tmp"
            ∧ FileOperations.destination_of u +:+ ".tmp"
              ≠ FileOperations.destination_of t) as Hapart'.
  { intros t u Ht Hu. rewrite Forall_forall in Hapart.
    specialize (Hapart t Ht). rewrite Forall_forall in Hapart.
    by apply Hapart. }
  destruct (copy_loop_live changed_files [] w made Hquiet Hread Hapart')
    as (Hcopied & _ & Hframe & Hdest).
  { unfold made. set_solver. }
  { intros t Ht. rewrite Forall_forall in Hclear.
    destruct (Hclear t Ht) as (Hname & Hway & Hdir & Htemp_dir).
    rewrite Forall_forall in Hway.
    split_and!; [done| |done|done].
    intros a Ha. split; [|by apply Hway].
    apply elem_of_union_r, elem_of_list_to_set, list_elem_of_In,
      in_flat_map.
    exists t. split; by apply list_elem_of_In. }
  by split_and!.
Qed.

Lemma copy_changed_files_succeeds_witness :
  (FileOperations.copy_changed_files
     [sample_target "/etc/suricata/rules/local.rules";
      sample_target "/etc/suricata/rules/emerging/scan.rules"]
     sample_world).1
  = Some ["collected_rules/suricata/local.rules";
          "collected_rules/suricata/scan.rules"].
Proof.
  refine (proj1 (copy_changed_files_succeeds
                   [sample_target "/etc/suricata/rules/local.rules";
                    sample_target "/etc/suricata/rules/emerging/scan.rules"]
                   sample_world eq_refl _ _ _)).
  - repeat constructor; by eexists.
  - repeat constructor; intros Heq; vm_compute in Heq; discriminate.
  - repeat constructor; try discriminate; by vm_compute.
Defined.
